(** * Charging-session lifecycle and billing of IdeaAmp-API

    A shallow embedding of the charging core of the API:

    - [app/services/discountService.py]        (module [DiscountService])
    - [app/services/portService.py]            (module [PortService])
    - [app/services/stationService.py]         (module [StationService])
    - [app/services/userService.py]            (module [UsersService])
    - [app/services/carService.py]             (module [CarsService])
    - [app/services/transactionService.py]     (module [TransactionService])
    - [app/services/chargingSessionService.py] (module [ChargingSessionsService])
    - [app/routes/chargings/charging.py]       ([stop_charging])
    - [app/routes/websockets/charging.py]      ([charging_socket], the token of
      [qr_waiting_socket], the start request of [init_charging_process])
    - [app/models/discount.py]                 ([Discount_is_valid])
    - [app/routes/discounts/create.py]         ([create_discount_route])
    - [app/routes/points/thresholds.py]        ([exchange_points])
    - [app/routes/chargings/station.py]        ([scan_qr])
    - [app/routes/stations/update.py]          ([update_station_status])
    - [app/routes/ports/update.py]             ([update_port_status])
    - [app/config/base.py]                     (the field [foreign_keys])
    - [app/models/transaction.py]              ([referenced_rows_exist])

    Conventions of the embedding.

    - Every service keeps its table both in the database and in the process
      cache [Service._global_cache]; each write commits and then calls
      [self.set], so the two always hold the same rows.  The model keeps one
      finite map per table, from primary key to row (a list for the tables
      that are only searched or appended to).
    - Python [float] and [Decimal] values are exact rationals ([Q]): an
      amount that the code computes is the exact value of the expression it
      evaluates; the rounding of binary floating point and of the
      [DECIMAL(10, 2)] columns is not part of the model.  Totals over
      several operations are stated only where rounding cannot change them:
      for whole numbers, or as an order between amounts.
    - Python exceptions are values of [PyExc]; a block that may raise is a
      computation in the error monad [res], and each [try ... except] of the
      source is a [match] on its result.  The database is up: a commit
      fails only on a foreign key that the database checks (field
      [foreign_keys] of the world), and the other exceptions are those that
      the code raises by itself on the data it finds (a missing key, an
      attribute of [None], a comparison that Python does not define, a
      division by zero).
    - The class attribute [active_sessions] (one dict shared by all service
      instances) is the field [active_sessions] of the world. *)

From Stdlib Require Import ZArith QArith Qround Lia Lqa Ascii String.
From stdpp Require Import base option gmap strings list.

Local Open Scope Z_scope.

(** ** Python values *)

Inductive PyExc : Type :=
| KeyError
| TypeError
| AttributeError
| ZeroDivisionError
| IntegrityError
| ConnectionClosed.

Inductive res (A : Type) : Type :=
| Ok (a : A)
| Raise (e : PyExc).
Arguments Ok {A} a.
Arguments Raise {A} e.

#[global] Instance res_ret : MRet res := fun _ a => Ok a.
#[global] Instance res_bind : MBind res := fun _ _ f m =>
  match m with
  | Ok a => f a
  | Raise e => Raise e
  end.

(** [o.attr] on an object that may be [None]. *)
Definition attr {A B : Type} (o : option A) (f : A -> B) : res B :=
  match o with
  | Some a => Ok (f a)
  | None => Raise AttributeError
  end.

(** [d[key]] on a dict whose key may be missing. *)
Definition item {A : Type} (o : option A) : res A :=
  match o with
  | Some a => Ok a
  | None => Raise KeyError
  end.

(** Truth value of an optional string ([if discount_code:]). *)
Definition truthy_str (o : option string) : bool :=
  match o with
  | Some s => negb (String.eqb s "")
  | None => false
  end.

(** Truth value of an optional integer ([if discount.expiry_on and ...]). *)
Definition truthy_int (o : option Z) : bool :=
  match o with
  | Some n => negb (n =? 0)
  | None => false
  end.

(** [datetime.utcnow() > x] for an integer [x].  Python 3 has no order
    between a [datetime] and an [int]: the comparison raises [TypeError]
    ('>' not supported between instances of 'datetime.datetime' and 'int').
    This is the test of [apply_discount], whose right operand is the
    [BigInteger] column [expiry_on]; the method [is_valid] of the model
    class compares two integers instead. *)
Definition datetime_gt_int (utcnow x : Z) : res bool := Raise TypeError.

(** [int(x)] on a float: truncation towards zero. *)
Definition py_int (q : Q) : Z := Z.quot (Qnum q) (Z.pos (Qden q)).

Definition Qltb (a b : Q) : bool := negb (Qle_bool b a).
Definition Qleb (a b : Q) : bool := Qle_bool a b.
(** [min(a, b)]: the first argument unless the second is smaller. *)
Definition py_min (a b : Q) : Q := if Qle_bool a b then a else b.

(** [str.lower()], on the ASCII letters. *)
Definition lower_ascii (c : ascii) : ascii :=
  let n := nat_of_ascii c in
  if (Nat.leb 65 n && Nat.leb n 90)%bool then ascii_of_nat (n + 32) else c.

Fixpoint lower (s : string) : string :=
  match s with
  | EmptyString => EmptyString
  | String c r => String (lower_ascii c) (lower r)
  end.

(** [max(id) + 1 if count > 0 else 1] over the ids of a table. *)
Definition next_id (ids : list Z) : Z :=
  match ids with
  | [] => 1
  | i :: r => fold_right Z.max i r + 1
  end.

(** ** Rows of the tables ([app/models]) *)

Module Port.
Record t : Type := mk {
  id : Z;
  station_id : Z;
  max_power : Q;
  connector_type : string;
  status : string
}.
Definition with_status (s : string) (p : t) : t :=
  mk (id p) (station_id p) (max_power p) (connector_type p) s.
End Port.

Module Station.
(** Only the columns the charging core reads. *)
Record t : Type := mk {
  id : Z;
  status : string;
  price_per_kwh : Q
}.
Definition with_status (s : string) (p : t) : t :=
  mk (id p) s (price_per_kwh p).
End Station.

Module User.
(** Only the columns the charging core reads; [points] is nullable. *)
Record t : Type := mk {
  id : Z;
  balance : Q;
  points : option Z
}.
End User.

Module Car.
Record t : Type := mk {
  id : Z;
  battery_capacity : Q;
  max_charging_power : Q
}.
End Car.

Module Discount.
Record t : Type := mk {
  id : Z;
  code : string;
  value : Q;
  expiry_on : option Z;
  usage_count : Z;
  max_uses : option Z
}.
End Discount.

Module ChargingSession.
Record t : Type := mk {
  id : Z;
  user_id : Z;
  port_id : Z;
  car_id : option Z;
  started_on : option Z;
  end_on : option Z;
  energy_consumed : option Q;
  power_limit : option Q;
  cost : option Q
}.
End ChargingSession.

Module Transaction.
Record t : Type := mk {
  id : Z;
  user_id : Z;
  station_id : Z;
  car_id : Z;
  amount : Q;
  type : string
}.
End Transaction.

(** The dict stored in [active_sessions].  The keys written by
    [initialize_charging] are always present; the keys added later by
    [start_charging] and [update_charging_status] are optional, [None]
    standing for a missing key ([discount_code]: missing or [None], the
    source only reads it with [.get]). *)
Module ActiveSession.
Record t : Type := mk {
  session_id : Z;
  user_id : Z;
  port_id : Z;
  station_id : Z;
  max_power : Q;
  price_per_kwh : Q;
  connector_type : string;
  charging_status : string;
  started_on : Z;
  current_kwh : Q;
  current_power : Q;
  current_cost : Q;
  car_id : option Z;
  target_kwh : option Q;
  estimated_cost : option Q;
  discount_code : option string;
  last_points_kwh : option Q
}.

(** [session.update({'current_kwh': .., 'current_power': ..,
    'current_cost': .., 'charging_status': ..})] *)
Definition update (kwh power cost : Q) (status : string) (s : t) : t :=
  mk (session_id s) (user_id s) (port_id s) (station_id s) (max_power s)
    (price_per_kwh s) (connector_type s) status (started_on s)
    kwh power cost
    (car_id s) (target_kwh s) (estimated_cost s) (discount_code s)
    (last_points_kwh s).

(** [session['last_points_kwh'] = kwh] *)
Definition set_last_points_kwh (kwh : Q) (s : t) : t :=
  mk (session_id s) (user_id s) (port_id s) (station_id s) (max_power s)
    (price_per_kwh s) (connector_type s) (charging_status s) (started_on s)
    (current_kwh s) (current_power s) (current_cost s)
    (car_id s) (target_kwh s) (estimated_cost s) (discount_code s)
    (Some kwh).

(** The five assignments at the end of [start_charging]. *)
Definition set_charging (car : Z) (target cost : Q) (code : option string) (s : t) : t :=
  mk (session_id s) (user_id s) (port_id s) (station_id s) (max_power s)
    (price_per_kwh s) (connector_type s) "charging" (started_on s)
    (current_kwh s) (current_power s) (current_cost s)
    (Some car) (Some target) (Some cost) code
    (last_points_kwh s).
End ActiveSession.

(** ** The state of the process *)

Record World : Type := mkWorld {
  ports : gmap Z Port.t;
  stations : gmap Z Station.t;
  users : gmap Z User.t;
  cars : gmap Z Car.t;
  discounts : list Discount.t;
  charging_sessions : gmap Z ChargingSession.t;
  transactions : list Transaction.t;
  active_sessions : gmap Z ActiveSession.t;
  (** reading of the clock, in milliseconds *)
  clock : Z;
  (** whether the database checks foreign keys: [configure_database] of
      [app/config/base.py] switches the check on for SQLite
      ([pragma foreign_keys=ON]) and off for MySQL
      ([SET FOREIGN_KEY_CHECKS=0]) *)
  foreign_keys : bool
}.

Definition with_ports (f : gmap Z Port.t -> gmap Z Port.t) (w : World) : World :=
  mkWorld (f (ports w)) (stations w) (users w) (cars w) (discounts w)
    (charging_sessions w) (transactions w) (active_sessions w) (clock w) (foreign_keys w).

Definition with_stations (f : gmap Z Station.t -> gmap Z Station.t) (w : World) : World :=
  mkWorld (ports w) (f (stations w)) (users w) (cars w) (discounts w)
    (charging_sessions w) (transactions w) (active_sessions w) (clock w) (foreign_keys w).

Definition with_users (f : gmap Z User.t -> gmap Z User.t) (w : World) : World :=
  mkWorld (ports w) (stations w) (f (users w)) (cars w) (discounts w)
    (charging_sessions w) (transactions w) (active_sessions w) (clock w) (foreign_keys w).

Definition with_discounts (f : list Discount.t -> list Discount.t) (w : World) : World :=
  mkWorld (ports w) (stations w) (users w) (cars w) (f (discounts w))
    (charging_sessions w) (transactions w) (active_sessions w) (clock w) (foreign_keys w).

Definition with_charging_sessions
    (f : gmap Z ChargingSession.t -> gmap Z ChargingSession.t) (w : World) : World :=
  mkWorld (ports w) (stations w) (users w) (cars w) (discounts w)
    (f (charging_sessions w)) (transactions w) (active_sessions w) (clock w) (foreign_keys w).

Definition with_transactions (f : list Transaction.t -> list Transaction.t) (w : World) : World :=
  mkWorld (ports w) (stations w) (users w) (cars w) (discounts w)
    (charging_sessions w) (f (transactions w)) (active_sessions w) (clock w) (foreign_keys w).

Definition with_active_sessions
    (f : gmap Z ActiveSession.t -> gmap Z ActiveSession.t) (w : World) : World :=
  mkWorld (ports w) (stations w) (users w) (cars w) (discounts w)
    (charging_sessions w) (transactions w) (f (active_sessions w)) (clock w) (foreign_keys w).

(** ** discountService.py *)

Inductive DiscountStatus : Type :=
| SUCCESS
| NOT_FOUND
| EXPIRED
| MAX_USES_REACHED
| ERROR.

#[global] Instance DiscountStatus_eq_dec : EqDecision DiscountStatus.
Proof. solve_decision. Defined.

(** The four message strings of [apply_discount]. *)
Inductive DiscountMessage : Type :=
| MsgCodeNotFound
| MsgCodeExpired
| MsgCodeMaxUses
| MsgCodeApplied.

Module DiscountService.

(** [query(Discount).filter(func.lower(Discount.code) == code.lower()).first()]:
    position of the first row whose code matches, case-insensitively. *)
Fixpoint find_by_code (code : string) (ds : list Discount.t) : option nat :=
  match ds with
  | [] => None
  | d :: r =>
      if String.eqb (lower (Discount.code d)) (lower code) then Some O
      else S <$> find_by_code code r
  end.

Definition bump_usage (d : Discount.t) : Discount.t :=
  Discount.mk (Discount.id d) (Discount.code d) (Discount.value d)
    (Discount.expiry_on d) (Discount.usage_count d + 1) (Discount.max_uses d).

Definition max_uses_reached (d : Discount.t) : bool :=
  match Discount.max_uses d with
  | Some m => Discount.usage_count d >=? m
  | None => false
  end.

(** The body of the [try] of [apply_discount]. *)
Definition apply_discount_body (w : World) (amount : Q) (code : string)
  : res (Q * DiscountMessage * DiscountStatus * World) :=
  match find_by_code code (discounts w) with
  | None => Ok (amount, MsgCodeNotFound, NOT_FOUND, w)
  | Some i =>
      match discounts w !! i with
      | None => Ok (amount, MsgCodeNotFound, NOT_FOUND, w)
      | Some discount =>
          expired ← (if truthy_int (Discount.expiry_on discount)
                     then datetime_gt_int (clock w) (default 0 (Discount.expiry_on discount))
                     else Ok false);
          if (expired : bool) then Ok (amount, MsgCodeExpired, EXPIRED, w)
          else if max_uses_reached discount
          then Ok (amount, MsgCodeMaxUses, MAX_USES_REACHED, w)
          else
            let w' := with_discounts (fun ds => <[i := bump_usage discount]> ds) w in
            let discounted_amount :=
              (amount * (1 - Discount.value discount / 100))%Q in
            Ok (discounted_amount, MsgCodeApplied, SUCCESS, w')
      end
  end.

(** [apply_discount] (lines 172 to 206): on an exception the database
    session is rolled back and the exception is raised again, so the caller
    sees the world it passed in. *)
Definition apply_discount (w : World) (amount : Q) (code : string)
  : res (Q * DiscountMessage * DiscountStatus * World) :=
  match apply_discount_body w amount code with
  | Ok r => Ok r
  | Raise e => Raise e
  end.

End DiscountService.

(** ** portService.py *)

Module PortService.

(** [get] (lines 41 to 51): the cached row, or [None]. *)
Definition get (w : World) (port_id : Z) : option Port.t := ports w !! port_id.

(** [update_status] (lines 143 to 166) *)
Definition update_status (w : World) (port_id : Z) (status : string) : bool * World :=
  match ports w !! port_id with
  | Some port =>
      (true, with_ports (fun m => <[port_id := Port.with_status status port]> m) w)
  | None => (false, w)
  end.

End PortService.

(** ** stationService.py *)

Module StationService.

Definition get (w : World) (station_id : Z) : option Station.t := stations w !! station_id.

(** [update_status], through [update_station(station_id, status=status)]. *)
Definition update_status (w : World) (station_id : Z) (status : string) : World :=
  match stations w !! station_id with
  | Some station =>
      with_stations (fun m => <[station_id := Station.with_status status station]> m) w
  | None => w
  end.

End StationService.

(** ** userService.py *)

Module UsersService.

Definition get (w : World) (user_id : Z) : option User.t := users w !! user_id.

(** [update_balance] (lines 404 to 428) *)
Definition update_balance (w : World) (user_id : Z) (amount : Q) : bool * World :=
  match users w !! user_id with
  | None => (false, w)
  | Some user =>
      let user' := User.mk (User.id user) (User.balance user + amount)%Q (User.points user) in
      (true, with_users (fun m => <[user_id := user']> m) w)
  end.

(** [add_points] (lines 430 to 460) *)
Definition add_points (w : World) (user_id : Z) (points : Z) : bool * World :=
  match users w !! user_id with
  | None => (false, w)
  | Some user =>
      let user' :=
        User.mk (User.id user) (User.balance user)
          (Some (default 0 (User.points user) + points)) in
      (true, with_users (fun m => <[user_id := user']> m) w)
  end.

End UsersService.

(** ** carService.py *)

Module CarsService.
Definition get (w : World) (car_id : Z) : option Car.t := cars w !! car_id.
End CarsService.

(** ** transactionService.py *)

(** The columns [user_id], [station_id] and [car_id] of [transactions] are
    foreign keys of [users.id], [stations.id] and [cars.id]
    ([models/transaction.py], lines 21 to 23): whether the rows that a new
    transaction names are all there. *)
Definition referenced_rows_exist (w : World) (user_id station_id car_id : Z) : bool :=
  bool_decide (is_Some (users w !! user_id))
  && bool_decide (is_Some (stations w !! station_id))
  && bool_decide (is_Some (cars w !! car_id)).

Module TransactionService.

(** [create_transaction] (lines 115 to 149).  Where the database checks
    foreign keys, [session.commit()] raises [IntegrityError] for a row that
    names a missing user, station or car; the [try] of the method has only
    a [finally], so the exception reaches the caller and nothing is
    written. *)
Definition create_transaction (w : World) (user_id station_id car_id : Z)
    (amount : Q) (type : string) : res (Transaction.t * World) :=
  if foreign_keys w && negb (referenced_rows_exist w user_id station_id car_id)
  then Raise IntegrityError
  else
    let new_transaction :=
      Transaction.mk (next_id (Transaction.id <$> transactions w))
        user_id station_id car_id amount type in
    Ok (new_transaction, with_transactions (fun l => l ++ [new_transaction]) w).

End TransactionService.

(** ** chargingSessionService.py *)

(** The messages returned by [start_charging]. *)
Inductive StartMessage : Type :=
| MsgNoSessionOrWrongUser
| MsgDiscountError (m : DiscountMessage)
| MsgInsufficientBalance (needed balance : Q)
| MsgCarNotFound
| MsgChargingStarted
| MsgSystemError (e : PyExc).

Module ChargingSessionsService.

(** [get_session_status] (lines 567 to 580) *)
Definition get_session_status (w : World) (session_id : Z) : option ActiveSession.t :=
  active_sessions w !! session_id.

(** [create_session] (lines 196 to 232), with [car_id] and [power_limit] at
    their default [None]; the column default fills [started_on]. *)
Definition create_session (w : World) (user_id port_id : Z)
  : option ChargingSession.t * World :=
  let new_id := next_id ((map_to_list (charging_sessions w)).*1) in
  let new_session :=
    ChargingSession.mk new_id user_id port_id None (Some (clock w)) None None None None in
  (Some new_session, with_charging_sessions (fun m => <[new_id := new_session]> m) w).

(** [initialize_charging] (lines 234 to 274).  An attribute of a missing
    port or station raises inside the [try]; what was written before stays
    written. *)
Definition initialize_charging (w : World) (user_id port_id : Z)
  : option ActiveSession.t * World :=
  let port := PortService.get w port_id in
  match attr port Port.station_id with
  | Raise _ => (None, w)
  | Ok port_station_id =>
      let station := StationService.get w port_station_id in
      match create_session w user_id port_id with
      | (None, w1) => (None, w1)
      | (Some session, w1) =>
          let '(_, w2) := PortService.update_status w1 port_id "InUse" in
          let entry : res ActiveSession.t :=
            station_id ← attr station Station.id;
            max_power ← attr port Port.max_power;
            price_per_kwh ← attr station Station.price_per_kwh;
            connector_type ← attr port Port.connector_type;
            mret (ActiveSession.mk (ChargingSession.id session) user_id port_id
                    station_id max_power price_per_kwh connector_type
                    "initialized" (clock w) 0 0 0
                    None None None None None) in
          match entry with
          | Raise _ => (None, w2)
          | Ok e =>
              (Some e,
               with_active_sessions (fun m => <[ChargingSession.id session := e]> m) w2)
          end
      end
  end.

(** [end_session] (lines 303 to 335) *)
Definition end_session (w : World) (session_id : Z) (energy_consumed final_cost : Q)
  : option ChargingSession.t * World :=
  match charging_sessions w !! session_id with
  | None => (None, w)
  | Some cs =>
      let cs' :=
        ChargingSession.mk (ChargingSession.id cs) (ChargingSession.user_id cs)
          (ChargingSession.port_id cs) (ChargingSession.car_id cs)
          (ChargingSession.started_on cs)
          (Some (clock w)) (Some energy_consumed)
          (ChargingSession.power_limit cs) (Some final_cost) in
      (Some cs', with_charging_sessions (fun m => <[session_id := cs']> m) w)
  end.

(** [start_charging] from the balance check on (the source's lines
    369 to 397); [stored_code] is the value the last assignment gives to
    [session['discount_code']]. *)
Definition start_charging_funded (w : World) (session_id user_id : Z)
    (session : ActiveSession.t) (target_kwh : Q) (car_id : Z)
    (estimated_cost : Q) (stored_code : option string)
  : bool * Q * StartMessage * World :=
  let user := UsersService.get w user_id in
  match attr user User.balance with
  | Raise e => (false, 0%Q, MsgSystemError e, w)
  | Ok balance =>
      if Qltb balance estimated_cost then
        let '(_, w1) := PortService.update_status w (ActiveSession.port_id session) "Available" in
        (false, estimated_cost, MsgInsufficientBalance estimated_cost balance, w1)
      else
        match CarsService.get w car_id with
        | None =>
            let '(_, w1) :=
              PortService.update_status w (ActiveSession.port_id session) "Available" in
            (false, estimated_cost, MsgCarNotFound, w1)
        | Some car =>
            let w1 :=
              match charging_sessions w !! session_id with
              | Some cs =>
                  let cs' :=
                    ChargingSession.mk (ChargingSession.id cs) (ChargingSession.user_id cs)
                      (ChargingSession.port_id cs) (Some car_id)
                      (ChargingSession.started_on cs) (ChargingSession.end_on cs)
                      (ChargingSession.energy_consumed cs)
                      (Some (py_min (ActiveSession.max_power session)
                               (Car.max_charging_power car)))
                      (ChargingSession.cost cs) in
                  with_charging_sessions (fun m => <[session_id := cs']> m) w
              | None => w
              end in
            let session' :=
              ActiveSession.set_charging car_id target_kwh estimated_cost stored_code session in
            (true, estimated_cost, MsgChargingStarted,
             with_active_sessions (fun m => <[session_id := session']> m) w1)
        end
  end.

(** [start_charging] (lines 337 to 401) *)
Definition start_charging (w : World) (session_id user_id : Z) (target_kwh : Q)
    (car_id : Z) (discount_code : option string)
  : bool * Q * StartMessage * World :=
  match get_session_status w session_id with
  | None => (false, 0%Q, MsgNoSessionOrWrongUser, w)
  | Some session =>
      if negb (ActiveSession.user_id session =? user_id)
      then (false, 0%Q, MsgNoSessionOrWrongUser, w)
      else
        let price_per_kwh := ActiveSession.price_per_kwh session in
        let estimated_cost := (target_kwh * price_per_kwh)%Q in
        if truthy_str discount_code then
          match DiscountService.apply_discount w estimated_cost (default "" discount_code) with
          | Raise e => (false, 0%Q, MsgSystemError e, w)
          | Ok (estimated_cost1, discount_message, discount_status, w1) =>
              if bool_decide (discount_status ≠ SUCCESS) then
                let '(_, w2) :=
                  PortService.update_status w1 (ActiveSession.port_id session) "Available" in
                (false, estimated_cost1, MsgDiscountError discount_message, w2)
              else
                start_charging_funded w1 session_id user_id session target_kwh car_id
                  estimated_cost1 discount_code
          end
        else
          start_charging_funded w session_id user_id session target_kwh car_id
            estimated_cost None
  end.

(** [update_charging_status] (lines 403 to 440) *)
Definition update_charging_status (w : World) (session_id : Z) (current_kwh : Q)
    (status : string) (charging_power current_cost : Q) : bool * World :=
  match active_sessions w !! session_id with
  | None => (false, w)
  | Some session =>
      let session1 := ActiveSession.update current_kwh charging_power current_cost status session in
      let points_to_add :=
        py_int ((current_kwh - default 0%Q (ActiveSession.last_points_kwh session1)) * 100)%Q in
      if 0 <? points_to_add then
        let session2 := ActiveSession.set_last_points_kwh current_kwh session1 in
        let w1 := with_active_sessions (fun m => <[session_id := session2]> m) w in
        let '(_, w2) :=
          UsersService.add_points w1 (ActiveSession.user_id session2) points_to_add in
        (true, w2)
      else
        (true, with_active_sessions (fun m => <[session_id := session1]> m) w)
  end.

(** [process_payment] (lines 442 to 482).  Its parameters [car_id] and
    [station_id] are not read by its body and are left out; the values come
    from the session dict.  Any exception ends in [return final_cost, False],
    with the value [final_cost] has at that point; what [apply_discount]
    committed before stays committed.  The value that [update_balance]
    returns is not read. *)
Definition process_payment (w : World) (session_id : Z) (final_cost : Q)
    (discount_code : option string) : Q * bool * World :=
  match active_sessions w !! session_id with
  | None => (final_cost, false, w)
  | Some session =>
      let discounted : res (Q * World) :=
        if truthy_str discount_code then
          '(cost, message, status, w1) ←
            DiscountService.apply_discount w final_cost (default "" discount_code);
          mret (if bool_decide (status = SUCCESS) then cost else final_cost, w1)
        else mret (final_cost, w) in
      match discounted with
      | Raise _ => (final_cost, false, w)
      | Ok (final_cost1, w1) =>
          match item (ActiveSession.car_id session) with
          | Raise _ => (final_cost1, false, w1)
          | Ok car_id =>
              match
                TransactionService.create_transaction w1
                  (ActiveSession.user_id session) (ActiveSession.station_id session)
                  car_id (- final_cost1)%Q "Payment"
              with
              | Raise _ => (final_cost1, false, w1)
              | Ok (_, w2) =>
                  let '(_, w3) :=
                    UsersService.update_balance w2 (ActiveSession.user_id session)
                      (- final_cost1)%Q in
                  (final_cost1, true, w3)
              end
          end
      end
  end.

(** The value [end_charging_session] gives to [reason] when it is called
    without one; the function does not use it afterwards. *)
Definition infer_reason (port : option Port.t) (station : option Station.t)
    (reason : option string) : option string :=
  match reason with
  | Some r => Some r
  | None =>
      match port with
      | Some p =>
          if String.eqb (Port.status p) "Maintenance" then Some "port_maintenance"
          else match station with
               | Some s =>
                   if String.eqb (Station.status s) "Maintenance"
                   then Some "station_maintenance" else None
               | None => None
               end
      | None =>
          match station with
          | Some s =>
              if String.eqb (Station.status s) "Maintenance"
              then Some "station_maintenance" else None
          | None => None
          end
      end
  end.

(** [if discount_code is None: discount_code = session.get('discount_code')] *)
Definition settlement_code (session : ActiveSession.t) (discount_code : option string)
  : option string :=
  match discount_code with
  | None => ActiveSession.discount_code session
  | Some c => Some c
  end.

(** [end_charging_session] (lines 484 to 565).  [session['car_id']] is
    evaluated for the call of [process_payment], inside the [try] that
    returns [False]. *)
Definition end_charging_session (w : World) (session_id : Z) (final_energy final_cost : Q)
    (reason : option string) (discount_code : option string) : bool * World :=
  match active_sessions w !! session_id with
  | None => (false, w)
  | Some session =>
      let port := PortService.get w (ActiveSession.port_id session) in
      let station := StationService.get w (ActiveSession.station_id session) in
      let reason := infer_reason port station reason in
      let discount_code := settlement_code session discount_code in
      match item (ActiveSession.car_id session) with
      | Raise _ => (false, w)
      | Ok _ =>
          let '(final_cost1, payment_success, w1) :=
            process_payment w session_id final_cost discount_code in
          if negb payment_success then (false, w1)
          else
            match end_session w1 session_id final_energy final_cost1 with
            | (None, w2) => (false, w2)
            | (Some row, w2) =>
                let w3 :=
                  match PortService.get w2 (ChargingSession.port_id row) with
                  | Some port =>
                      snd (PortService.update_status w2 (Port.id port) "Available")
                  | None => w2
                  end in
                (true, with_active_sessions (fun m => delete session_id m) w3)
            end
      end
  end.

(** [check_charging_availability] (lines 597 to 623) *)
Definition check_charging_availability (w : World) (session_id : Z)
  : bool * option string :=
  match active_sessions w !! session_id with
  | None => (false, Some "session_not_found")
  | Some session =>
      let verdict : res (bool * option string) :=
        port_status ← attr (PortService.get w (ActiveSession.port_id session)) Port.status;
        if String.eqb port_status "Maintenance" then mret (false, Some "port_maintenance")
        else
          station_status ←
            attr (StationService.get w (ActiveSession.station_id session)) Station.status;
          if String.eqb station_status "Maintenance"
          then mret (false, Some "station_maintenance")
          else mret (true, None) in
      match verdict with
      | Ok v => v
      | Raise _ => (false, Some "system_error")
      end
  end.

End ChargingSessionsService.

(** ** routes/chargings/charging.py *)

(** [stop_charging] (lines 8 to 68), for the identity [user_id] of a
    verified token: the HTTP status code of the answer and the new state. *)
Definition stop_charging (w : World) (user_id session_id : Z) : Z * World :=
  match ChargingSessionsService.get_session_status w session_id with
  | None => (400, w)
  | Some session =>
      if negb (ActiveSession.user_id session =? user_id) then (400, w)
      else
        let '(success, w1) :=
          ChargingSessionsService.end_charging_session w session_id
            (ActiveSession.current_kwh session) (ActiveSession.current_cost session)
            (Some "user_stopped") None in
        if negb success then (400, w1) else (200, w1)
  end.

(** ** routes/websockets/charging.py

    The handler [charging_socket] talks to three parties: the websocket
    [ws] of the client, the meter of the charger (one HTTP request per
    tick) and the charging service.  A run of the handler is driven by a
    schedule: one entry for every pass of [while ws.connected] that finds
    the connection open, and, between passes, the requests that other
    handlers of the process serve meanwhile.  The end of the schedule is
    the moment [ws.connected] is found false.  A pass also says whether the
    client is still there when the pass sends its frames; if it is not,
    [ws.send] raises.  The frame [charging_started], sent before the loop,
    is delivered.  The relay and buzzer channel [rpi_ws] holds no state of
    the service and is left out; frames are recorded with the figures they
    carry before [round]. *)

Inductive Token : Type :=
| NoToken
| BadToken
| ValidToken (sub : Z).

Inductive ErrorText : Type :=
| ErrNoToken
| ErrJwt
| ErrNoAccess
| ErrCarNotFound.

Inductive WsMessage : Type :=
| WsError (text : ErrorText)
| WsChargingStarted (session_id : Z) (max_power target_kwh price_per_kwh battery_capacity : Q)
| WsChargingUpdate (session_id : Z)
    (current_kwh charging_power battery_level battery_temp current_cost target_kwh : Q)
    (remaining_kwh : option Q)
| WsChargingCompleted (session_id : Z) (final_energy final_cost : Q)
    (end_reason : string) (battery_level : Q)
| WsChargingInterrupted (session_id : Z) (final_energy final_cost : Q)
    (reason : string) (battery_level : Q)
| WsLoopError (session_id : Z) (current_kwh current_cost : Q).

(** What the handler does to the outside, in order: frames sent on [ws] and
    calls of [end_charging_session] with the value they returned. *)
Inductive Event : Type :=
| Send (m : WsMessage)
| Settlement (session_id : Z) (final_energy final_cost : Q) (reason : string) (ok : bool).

(** Answer of the meter to [requests.get(url)]: status 200 with a JSON
    object, another status, a [RequestException], or a body on which
    [rpi_data.get] raises. *)
Inductive MeterResponse : Type :=
| MeterOk (kwh : Q)
| MeterBadStatus (status_code : Z)
| MeterRequestException
| MeterBadBody.

(** Requests served by other handlers between two ticks. *)
Inductive External : Type :=
| ExtStopCharging (user_id session_id : Z)
| ExtPortStatus (port_id : Z) (status : string)
| ExtStationStatus (station_id : Z) (status : string).

(** [Tick meter peer]: a pass of the loop body, with the answer of the
    meter and whether the client still receives the frames of the pass. *)
Inductive Step : Type :=
| Tick (meter : MeterResponse) (peer : bool)
| Meanwhile (request : External).

Definition external (w : World) (r : External) : World :=
  match r with
  | ExtStopCharging user_id session_id => snd (stop_charging w user_id session_id)
  | ExtPortStatus port_id status => snd (PortService.update_status w port_id status)
  | ExtStationStatus station_id status => StationService.update_status w station_id status
  end.

Module Locals.
(** The local variables of [charging_socket] that outlive a tick;
    [battery_level] is unbound until the first tick assigns it. *)
Record t : Type := mk {
  current_kwh : Q;
  current_cost : Q;
  charging_power : Q;
  battery_temp : Q;
  status : string;
  battery_level : option Q
}.
End Locals.

(** How a pass of the loop body ends; with an exception comes whether the
    client can still receive the error frame of the handler. *)
Inductive Exit : Type :=
| Continue
| Break
| Except (e : PyExc) (peer : bool).

(** The [if ... elif ... elif] that sets [end_reason]. *)
Definition end_reason (battery_level current_kwh battery_capacity target_kwh : Q)
  : option string :=
  if Qleb 100 battery_level then Some "battery_full"
  else if Qleb battery_capacity current_kwh then Some "capacity_reached"
  else if Qleb (target_kwh - 0.01) current_kwh then Some "target_reached"
  else None.

(** One pass of the body of [while ws.connected] (lines 138 to 258). *)
Definition tick (w : World) (session_id : Z) (session : ActiveSession.t) (car : Car.t)
    (l : Locals.t) (meter : MeterResponse) (peer : bool)
  : World * Locals.t * list Event * Exit :=
  let '(can_continue, interrupt_reason) :=
    ChargingSessionsService.check_charging_availability w session_id in
  if negb can_continue then
    if bool_decide (interrupt_reason = Some "session_not_found") then (w, l, [], Break)
    else
      let '(ok, w1) :=
        ChargingSessionsService.end_charging_session w session_id
          (Locals.current_kwh l) (Locals.current_cost l) interrupt_reason None in
      let settled :=
        Settlement session_id (Locals.current_kwh l) (Locals.current_cost l)
          (default "" interrupt_reason) ok in
      if peer then
        (w1, l,
         [settled;
          Send (WsChargingInterrupted session_id (Locals.current_kwh l)
                  (Locals.current_cost l) (default "" interrupt_reason)
                  (default 0%Q (Locals.battery_level l)))],
         Break)
      else (w1, l, [settled], Except ConnectionClosed false)
  else
    match meter with
    | MeterBadBody => (w, l, [], Except AttributeError peer)
    | _ =>
        let energy_delta : option Q :=
          match meter with MeterOk kwh => Some kwh | _ => None end in
        let energy_delta : Q := 1%Q in
        let current_kwh := (Locals.current_kwh l + energy_delta)%Q in
        let battery_temp := (Locals.battery_temp l + 0.1)%Q in
        let charging_power :=
          if Qltb 40 battery_temp then (Locals.charging_power l * 0.9)%Q
          else Locals.charging_power l in
        let battery_capacity := Car.battery_capacity car in
        if Qeq_bool battery_capacity 0 then
          (w, Locals.mk current_kwh (Locals.current_cost l) charging_power battery_temp
                (Locals.status l) (Locals.battery_level l),
           [], Except ZeroDivisionError peer)
        else
          let battery_level := py_min 100 (current_kwh / battery_capacity * 100)%Q in
          let price_per_kwh := ActiveSession.price_per_kwh session in
          let cost_delta := (energy_delta * price_per_kwh)%Q in
          let current_cost := (Locals.current_cost l + cost_delta)%Q in
          let l1 :=
            Locals.mk current_kwh current_cost charging_power battery_temp
              (Locals.status l) (Some battery_level) in
          match item (ActiveSession.target_kwh session) with
          | Raise e => (w, l1, [], Except e peer)
          | Ok target_kwh =>
              if negb peer then (w, l1, [], Except ConnectionClosed false)
              else
                let update :=
                  Send (WsChargingUpdate session_id current_kwh charging_power battery_level
                          battery_temp current_cost target_kwh
                          (if Qeq_bool target_kwh 0 then None
                           else Some (target_kwh - current_kwh)%Q)) in
                let '(_, w1) :=
                  ChargingSessionsService.update_charging_status w session_id current_kwh
                    "active" charging_power current_cost in
                match end_reason battery_level current_kwh battery_capacity target_kwh with
                | Some reason =>
                    let '(_, w2) :=
                      ChargingSessionsService.update_charging_status w1 session_id
                        current_kwh "done" charging_power current_cost in
                    let '(ok, w3) :=
                      ChargingSessionsService.end_charging_session w2 session_id
                        current_kwh current_cost (Some reason) None in
                    (w3, Locals.mk current_kwh current_cost charging_power battery_temp
                           "done" (Some battery_level),
                     [update;
                      Settlement session_id current_kwh current_cost reason ok;
                      Send (WsChargingCompleted session_id current_kwh current_cost reason
                              battery_level)],
                     Break)
                | None =>
                    (w1, Locals.mk current_kwh current_cost charging_power battery_temp
                           "active" (Some battery_level),
                     [update], Continue)
                end
          end
    end.

(** [while ws.connected: ...] along a schedule; [Continue] at the end says
    that the loop ended because the connection was found closed. *)
Fixpoint loop (w : World) (session_id : Z) (session : ActiveSession.t) (car : Car.t)
    (l : Locals.t) (schedule : list Step) : World * Locals.t * list Event * Exit :=
  match schedule with
  | [] => (w, l, [], Continue)
  | Meanwhile r :: rest => loop (external w r) session_id session car l rest
  | Tick meter peer :: rest =>
      match tick w session_id session car l meter peer with
      | (w1, l1, ev, Continue) =>
          let '(w2, l2, ev', x) := loop w1 session_id session car l1 rest in
          (w2, l2, ev ++ ev', x)
      | r => r
      end
  end.

(** The [try] block (lines 125 to 258): the [charging_started] frame, then
    the loop. *)
Definition try_block (w : World) (session_id : Z) (session : ActiveSession.t) (car : Car.t)
    (l : Locals.t) (schedule : list Step) : World * Locals.t * list Event * Exit :=
  match item (ActiveSession.target_kwh session) with
  | Raise e => (w, l, [], Except e true)
  | Ok target_kwh =>
      let '(w1, l1, ev, x) := loop w session_id session car l schedule in
      (w1, l1,
       Send (WsChargingStarted session_id (Locals.charging_power l) target_kwh
               (ActiveSession.price_per_kwh session) (Car.battery_capacity car)) :: ev,
       x)
  end.

(** The [except Exception] handler: the error frame, which is sent if the
    client is still there (if not, [ws.send] raises again and the
    [finally] block runs all the same). *)
Definition except_handler (session_id : Z) (l : Locals.t) (x : Exit) : list Event :=
  match x with
  | Except _ true =>
      [Send (WsLoopError session_id (Locals.current_kwh l) (Locals.current_cost l))]
  | _ => []
  end.

(** The [finally] block (lines 272 to 294), up to the last call of the
    service. *)
Definition cleanup (w : World) (session_id : Z) (l : Locals.t) : World * list Event :=
  match ChargingSessionsService.get_session_status w session_id with
  | None => (w, [])
  | Some session_status =>
      if bool_decide (ActiveSession.charging_status session_status ∈ ["stopped"; "completed"])
      then (w, [])
      else
        let '(_, w1) :=
          ChargingSessionsService.update_charging_status w session_id
            (Locals.current_kwh l) "interrupted" (Locals.charging_power l)
            (Locals.current_cost l) in
        let '(ok, w2) :=
          ChargingSessionsService.end_charging_session w1 session_id
            (Locals.current_kwh l) (Locals.current_cost l) (Some "connection_lost") None in
        (w2, [Settlement session_id (Locals.current_kwh l) (Locals.current_cost l)
                "connection_lost" ok])
  end.

Definition initial_locals (session : ActiveSession.t) (car : Car.t) : Locals.t :=
  Locals.mk 0 0 (py_min (ActiveSession.max_power session) (Car.max_charging_power car))
    25 "active" None.

(** [charging_socket], for the outcome of the token check.  A session
    without [car_id] makes the handler die on [session['car_id']], before
    its [try] block. *)
Definition charging_socket (w : World) (token : Token) (session_id : Z)
    (schedule : list Step) : World * list Event :=
  match token with
  | NoToken => (w, [Send (WsError ErrNoToken)])
  | BadToken => (w, [Send (WsError ErrJwt)])
  | ValidToken user_id =>
      match ChargingSessionsService.get_session_status w session_id with
      | None => (w, [Send (WsError ErrNoAccess)])
      | Some session =>
          if negb (ActiveSession.user_id session =? user_id)
          then (w, [Send (WsError ErrNoAccess)])
          else
            match item (ActiveSession.car_id session) with
            | Raise _ => (w, [])
            | Ok car_id =>
                match CarsService.get w car_id with
                | None => (w, [Send (WsError ErrCarNotFound)])
                | Some car =>
                    let l := initial_locals session car in
                    let '(w1, l1, ev, x) := try_block w session_id session car l schedule in
                    let '(w2, ev') := cleanup w1 session_id l1 in
                    (w2, ev ++ except_handler session_id l1 x ++ ev')
                end
            end
      end
  end.

(** [apply_discount] for each pair of a list, in order; a call that raises
    leaves the state as it was. *)
Fixpoint apply_discounts (w : World) (calls : list (Q * string)) : World :=
  match calls with
  | [] => w
  | (amount, code) :: rest =>
      match DiscountService.apply_discount w amount code with
      | Ok (_, _, _, w') => apply_discounts w' rest
      | Raise _ => apply_discounts w rest
      end
  end.

(** What a discount row keeps through applications: everything but the
    usage count, which can only grow. *)
Definition used_more (d d' : Discount.t) : Prop :=
  Discount.code d = Discount.code d' ∧
  Discount.expiry_on d = Discount.expiry_on d' ∧
  Discount.max_uses d = Discount.max_uses d' ∧
  Discount.usage_count d <= Discount.usage_count d' ∧
  Discount.id d = Discount.id d' ∧
  Discount.value d = Discount.value d'.

(** The arguments of one call of [end_charging_session]. *)
Record SettleCall : Type := mkSettleCall {
  call_session_id : Z;
  call_final_energy : Q;
  call_final_cost : Q;
  call_reason : option string;
  call_discount_code : option string
}.

Definition settle (w : World) (c : SettleCall) : bool * World :=
  ChargingSessionsService.end_charging_session w (call_session_id c)
    (call_final_energy c) (call_final_cost c) (call_reason c) (call_discount_code c).

(** How many calls of a sequence, made one after the other, settle the
    session [session_id] with success. *)
Fixpoint successes (w : World) (session_id : Z) (calls : list SettleCall) : nat :=
  match calls with
  | [] => O
  | c :: rest =>
      let '(ok, w') := settle w c in
      ((if ok && (call_session_id c =? session_id)%Z then 1 else 0)
       + successes w' session_id rest)%nat
  end.






(** The points of a user, [0] for a user that is missing or has none. *)
Definition points_of (w : World) (user_id : Z) : Z :=
  default 0 (users w !! user_id ≫= User.points).

(** How many calls of [end_charging_session] for [session_id] with the
    reason [reason] a trace holds. *)
Definition is_settlement (session_id : Z) (reason : string) (e : Event) : bool :=
  match e with
  | Settlement s _ _ r _ => (s =? session_id) && String.eqb r reason
  | Send _ => false
  end.

Definition settlements (session_id : Z) (reason : string) (trace : list Event) : nat :=
  length (List.filter (is_settlement session_id reason) trace).

(** ** Sample states

    A station with two ports at 2 per kWh, two users, one car and two
    discount codes: [SAVE10] can be used once and never expires, [SUMMER]
    has an expiry date, which the clock of the states below has passed.
    The database is the SQLite file of the default [DATABASE_URL], which
    checks foreign keys. *)

Definition sample_ports : gmap Z Port.t :=
  {[ 1 := Port.mk 1 1 22 "Type2" "Available"; 2 := Port.mk 2 1 50 "CCS" "Available" ]}.

Definition sample_discounts : list Discount.t :=
  [ Discount.mk 1 "SAVE10" 10 None 0 (Some 1);
    Discount.mk 2 "SUMMER" 20 (Some 1700000000000) 0 None ].

(** Nobody is charging. *)
Definition idle_world : World :=
  mkWorld sample_ports
    {[ 1 := Station.mk 1 "active" 2 ]}
    {[ 7 := User.mk 7 100 (Some 0); 8 := User.mk 8 5 (Some 0) ]}
    {[ 3 := Car.mk 3 50 11 ]}
    sample_discounts ∅ [] ∅ 1750000000000 true.

(** The registry entry of session 1: user 7 charges car 3 on port 1, up to
    [target] kWh, with [code] stored for the settlement. *)
Definition sample_session (target : Q) (code : option string) : ActiveSession.t :=
  ActiveSession.mk 1 7 1 1 22 2 "Type2" "charging" 1750000000000 0 0 0
    (Some 3) (Some target) (Some (target * 2)%Q) code None.

(** Session 1 is charging on port 1. *)
Definition charging_world (target : Q) (code : option string) : World :=
  mkWorld
    (<[ 1 := Port.mk 1 1 22 "Type2" "InUse" ]> sample_ports)
    {[ 1 := Station.mk 1 "active" 2 ]}
    {[ 7 := User.mk 7 100 (Some 0); 8 := User.mk 8 5 (Some 0) ]}
    {[ 3 := Car.mk 3 50 11 ]}
    sample_discounts
    {[ 1 := ChargingSession.mk 1 7 1 (Some 3) (Some 1750000000000) None None (Some 11%Q) None ]}
    []
    {[ 1 := sample_session target code ]}
    1750000000000 true.

(** Session 1 is charging under MySQL, for which [configure_database]
    switches the check of foreign keys off, and the account of its user 7
    has been deleted meanwhile ([DELETE /users/delete/7]). *)
Definition orphaned_world : World :=
  let w := charging_world 10 None in
  mkWorld (ports w) (stations w) (delete 7 (users w)) (cars w) (discounts w)
    (charging_sessions w) (transactions w) (active_sessions w) (clock w) false.

(** Session 1 is charging and car 3 has been deleted meanwhile
    ([DELETE /cars/delete/3]); the database checks foreign keys. *)
Definition carless_world : World :=
  let w := charging_world 10 None in
  mkWorld (ports w) (stations w) (users w) ∅ (discounts w)
    (charging_sessions w) (transactions w) (active_sessions w) (clock w) true.

(** User 8, whose balance is 5, has scanned the code of port 1. *)
Definition initialized_world : World :=
  snd (ChargingSessionsService.initialize_charging idle_world 8 1).

(** ** Further operations of the cited files *)

(** [Discount.is_valid] of [models/discount.py] (lines 36 to 42), for a
    reading [current_timestamp] of the clock in milliseconds. *)
Definition Discount_is_valid (d : Discount.t) (current_timestamp : Z) : bool :=
  if truthy_int (Discount.expiry_on d)
     && (default 0 (Discount.expiry_on d) <? current_timestamp)
  then false
  else if DiscountService.max_uses_reached d then false
  else true.

(** The administration of discount codes in [discountService.py]. *)
Module DiscountStore.

(** [get_by_code] (lines 72 to 82): the first row whose code matches,
    case-insensitively. *)
Definition get_by_code (w : World) (code : string) : option Discount.t :=
  i ← DiscountService.find_by_code code (discounts w);
  discounts w !! i.

(** [create_discount] (lines 84 to 117) *)
Definition create_discount (w : World) (code : string) (value : Q)
    (expiry_on max_uses : option Z) : Discount.t * World :=
  let new_discount :=
    Discount.mk (next_id (Discount.id <$> discounts w)) code value expiry_on 0 max_uses in
  (new_discount, with_discounts (fun ds => ds ++ [new_discount]) w).

(** [delete_discount] (lines 119 to 141) *)
Definition delete_discount (w : World) (discount_id : Z) : bool * World :=
  if bool_decide (discount_id ∈ Discount.id <$> discounts w)
  then (true,
        with_discounts
          (fun ds => List.filter (fun d => negb (Discount.id d =? discount_id)) ds) w)
  else (false, w).

End DiscountStore.

(** [create_discount] of [routes/discounts/create.py] (lines 37 to 70), on
    the fields of the request as parsed ([code] stripped, [value] a
    number): the HTTP status of the answer and the new state. *)
Definition create_discount_route (w : World) (code : string) (value : Q)
    (expiry_on max_uses : option Z) : Z * World :=
  let expiry_on := if truthy_int expiry_on then expiry_on else None in
  let max_uses := if truthy_int max_uses then max_uses else None in
  if Qleb value 0 || Qltb 100 value then (400, w)
  else
    match DiscountStore.get_by_code w code with
    | Some _ => (400, w)
    | None => (201, snd (DiscountStore.create_discount w code value expiry_on max_uses))
    end.

(** [deduct_points] of [userService.py] (lines 462 to 490); comparing the
    points [None] with an integer raises, which the function answers with
    [False]. *)
Definition deduct_points (w : World) (user_id : Z) (points : Z) : bool * World :=
  match users w !! user_id with
  | None => (false, w)
  | Some user =>
      match User.points user with
      | None => (false, w)
      | Some p =>
          if p <? points then (false, w)
          else
            let user' := User.mk (User.id user) (User.balance user) (Some (p - points)) in
            (true, with_users (fun m => <[user_id := user']> m) w)
      end
  end.

(** [get_all_turnover] of [transactionService.py] (lines 163 to 170):
    [sum] of the amounts of the top-ups. *)
Definition get_all_turnover (w : World) : Q :=
  fold_left Qplus
    (Transaction.amount <$>
       List.filter (fun t => String.eqb (lower (Transaction.type t)) "topup") (transactions w))
    0%Q.

(** [get_user_points] of [userService.py] (lines 493 to 504); the column
    [points] is nullable. *)
Definition get_user_points (w : World) (user_id : Z) : option Z :=
  match users w !! user_id with
  | Some user => User.points user
  | None => Some 0
  end.

(** [exchange_points] of [routes/points/thresholds.py] from line 176 on, for
    the threshold row found ([points_required], [discount_value]), the code
    that [generate_discount_code] returned and the expiry date computed
    from the clock: the HTTP status and the new state.  Comparing the
    points [None] with an integer raises, which the route answers with
    500. *)
Definition exchange_points (w : World) (user_id : Z) (points_required : Z)
    (discount_value : Q) (discount_code : string) (expiry_date : Z) : Z * World :=
  match get_user_points w user_id with
  | None => (500, w)
  | Some user_points =>
      if user_points <? points_required then (400, w)
      else
        let '(discount, w1) :=
          DiscountStore.create_discount w discount_code discount_value
            (Some expiry_date) (Some 1) in
        match deduct_points w1 user_id points_required with
        | (false, w2) =>
            (500, snd (DiscountStore.delete_discount w2 (Discount.id discount)))
        | (true, w2) => (200, w2)
        end
  end.

(** [str.strip()], [str.upper()] and [str.capitalize()] on ASCII strings;
    the white space of Python is the codes 9 to 13, 28 to 31 and 32. *)
Definition is_space (c : ascii) : bool :=
  let n := nat_of_ascii c in
  (Nat.leb 9 n && Nat.leb n 13) || (Nat.leb 28 n && Nat.leb n 31) || Nat.eqb n 32.

Fixpoint lstrip (s : string) : string :=
  match s with
  | EmptyString => EmptyString
  | String c r => if is_space c then lstrip r else s
  end.

Fixpoint rstrip (s : string) : string :=
  match s with
  | EmptyString => EmptyString
  | String c r =>
      match rstrip r with
      | EmptyString => if is_space c then EmptyString else String c EmptyString
      | r' => String c r'
      end
  end.

Definition strip (s : string) : string := rstrip (lstrip s).

Definition upper_ascii (c : ascii) : ascii :=
  let n := nat_of_ascii c in
  if (Nat.leb 97 n && Nat.leb n 122)%bool then ascii_of_nat (n - 32) else c.

Definition capitalize (s : string) : string :=
  match s with
  | EmptyString => EmptyString
  | String c r => String (upper_ascii c) (lower r)
  end.

(** [update_station_status] of [routes/stations/update.py] (lines 132 to
    163), for a body whose [status] is a string or is missing ([None]):
    the HTTP status and the new state.  The route also writes the audit
    log, which is not part of the state. *)
Definition update_station_status (w : World) (station_id : Z) (status : option string)
  : Z * World :=
  match status with
  | None => (400, w)
  | Some raw =>
      let new_status := lower (strip raw) in
      if bool_decide (new_status ∈ ["active"; "inactive"; "maintenance"]) then
        match StationService.get w station_id with
        | None => (404, w)
        | Some _ => (200, StationService.update_status w station_id new_status)
        end
      else (400, w)
  end.

(** [update_port_status] of [routes/ports/update.py] (lines 119 to 145). *)
Definition update_port_status (w : World) (port_id : Z) (status : option string)
  : Z * World :=
  match status with
  | None => (400, w)
  | Some raw =>
      let status := lower raw in
      if bool_decide (status ∈ ["available"; "inuse"; "faulty"; "maintenance"]) then
        let status :=
          if String.eqb (lower status) "inuse" then "InUse" else capitalize status in
        match PortService.update_status w port_id status with
        | (true, w') => (200, w')
        | (false, w') => (404, w')
        end
      else (400, w)
  end.

(** *** The pairing of a client with a station

    [Service._global_cache] also holds, under the key [qr_token:<token>],
    the dict that [qr_waiting_socket] stores for a waiting client and, under
    [station<id>ip], the address of the station that scanned last.  The two
    families of keys are disjoint and are kept as two maps. *)

Record StationData : Type := mkStationData {
  sd_station_id : Z;
  sd_price_per_kwh : Q;
  sd_ip_address : string
}.

Record QrData : Type := mkQrData {
  qr_user_id : Z;
  qr_expiration : Q;
  qr_station_data : option StationData
}.

Record PairingCache : Type := mkPairingCache {
  qr_tokens : gmap string QrData;
  station_ips : gmap Z string
}.

(** The JSON body of a scan; [None] is a missing key. *)
Record ScanRequest : Type := mkScanRequest {
  req_qr_token : option string;
  req_station_id : option Z;
  req_ip_address : option string
}.

(** [qr_waiting_socket], lines 330 to 337: the entry stored for a client,
    for the token that the hash gave and the reading [now] of [time.time()]. *)
Definition issue_token (c : PairingCache) (token : string) (user_id : Z) (now : Q)
  : PairingCache :=
  mkPairingCache (<[token := mkQrData user_id (now + 300)%Q None]> (qr_tokens c))
    (station_ips c).

(** [scan_qr] of [routes/chargings/station.py] (lines 39 to 109): the HTTP
    status, the user id of the answer and the new cache. *)
Definition scan_qr (w : World) (c : PairingCache) (now : Q) (data : ScanRequest)
  : Z * option Z * PairingCache :=
  if negb (truthy_str (req_qr_token data) && truthy_int (req_station_id data))
  then (400, None, c)
  else
    match req_ip_address data with
    | None => (500, None, c)
    | Some ip_address =>
        let qr_token := default "" (req_qr_token data) in
        let station_id := default 0 (req_station_id data) in
        match qr_tokens c !! qr_token with
        | None => (400, None, c)
        | Some qr_data =>
            if Qltb (qr_expiration qr_data) now then (400, None, c)
            else
              match StationService.get w station_id with
              | None => (404, None, c)
              | Some station =>
                  let qr_data' :=
                    mkQrData (qr_user_id qr_data) (qr_expiration qr_data)
                      (Some (mkStationData station_id (Station.price_per_kwh station)
                               ip_address)) in
                  (200, Some (qr_user_id qr_data),
                   mkPairingCache (<[qr_token := qr_data']> (qr_tokens c))
                     (<[Station.id station := ip_address]> (station_ips c)))
              end
        end
    end.

(** What one pass of the polling loop of [qr_waiting_socket] finds (lines
    349 to 366). *)
Inductive PollResult : Type :=
| PollGone
| PollExpired
| PollStation (station_data : StationData)
| PollWaiting.

Definition poll (c : PairingCache) (token : string) (now : Q) : PollResult * PairingCache :=
  match qr_tokens c !! token with
  | None => (PollGone, c)
  | Some qr_data =>
      if Qltb (qr_expiration qr_data) now
      then (PollExpired, mkPairingCache (delete token (qr_tokens c)) (station_ips c))
      else
        match qr_station_data qr_data with
        | Some station_data => (PollStation station_data, c)
        | None => (PollWaiting, c)
        end
  end.

(** *** The message [start_charging] of [init_charging_process]

    The branch of the message loop that serves a [start_charging] message
    (lines 486 to 547 of [routes/websockets/charging.py]). *)

Record StartParams : Type := mkStartParams {
  sp_car_id : option Z;
  sp_target_kwh : option Q;
  sp_port_id : option Z;
  sp_discount_code : option string
}.

Inductive StartOutcome : Type :=
| StartMissingParams
| StartNotInitialized
| StartRejected (session_id : Z) (message : StartMessage)
| StartInitialized (session_id : Z).

Definition truthy_Q (o : option Q) : bool :=
  match o with
  | Some q => negb (Qeq_bool q 0)
  | None => false
  end.

Definition start_charging_message (w : World) (user_id : Z) (params : StartParams)
  : StartOutcome * World :=
  if negb (truthy_int (sp_car_id params) && truthy_Q (sp_target_kwh params)
           && truthy_int (sp_port_id params))
  then (StartMissingParams, w)
  else
    match ChargingSessionsService.initialize_charging w user_id
            (default 0 (sp_port_id params)) with
    | (None, w1) => (StartNotInitialized, w1)
    | (Some session, w1) =>
        let '(success, estimated_cost, message, w2) :=
          ChargingSessionsService.start_charging w1 (ActiveSession.session_id session)
            user_id (default 0%Q (sp_target_kwh params)) (default 0 (sp_car_id params))
            (sp_discount_code params) in
        if success then (StartInitialized (ActiveSession.session_id session), w2)
        else (StartRejected (ActiveSession.session_id session) message, w2)
    end.

(** *** Sequences of operations *)

(** The entry points that change the state of the charging core. *)
Inductive Op : Type :=
| OpInitialize (user_id port_id : Z)
| OpStart (session_id user_id : Z) (target_kwh : Q) (car_id : Z)
    (discount_code : option string)
| OpStartMessage (user_id : Z) (params : StartParams)
| OpUpdate (session_id : Z) (current_kwh : Q) (status : string)
    (charging_power current_cost : Q)
| OpEnd (call : SettleCall)
| OpStop (user_id session_id : Z)
| OpSocket (token : Token) (session_id : Z) (schedule : list Step)
| OpPortStatus (port_id : Z) (status : string)
| OpStationStatus (station_id : Z) (status : string)
| OpApplyDiscount (amount : Q) (code : string).

Definition exec (w : World) (o : Op) : World :=
  match o with
  | OpInitialize user_id port_id =>
      snd (ChargingSessionsService.initialize_charging w user_id port_id)
  | OpStart session_id user_id target_kwh car_id discount_code =>
      snd (ChargingSessionsService.start_charging w session_id user_id target_kwh car_id
             discount_code)
  | OpStartMessage user_id params => snd (start_charging_message w user_id params)
  | OpUpdate session_id current_kwh status charging_power current_cost =>
      snd (ChargingSessionsService.update_charging_status w session_id current_kwh status
             charging_power current_cost)
  | OpEnd call => snd (settle w call)
  | OpStop user_id session_id => snd (stop_charging w user_id session_id)
  | OpSocket token session_id schedule => fst (charging_socket w token session_id schedule)
  | OpPortStatus port_id status => snd (PortService.update_status w port_id status)
  | OpStationStatus station_id status => StationService.update_status w station_id status
  | OpApplyDiscount amount code => apply_discounts w [(amount, code)]
  end.

Definition run (w : World) (ops : list Op) : World := fold_left exec ops w.

(** Every session of the registry has a row, and that row has no end
    timestamp. *)
Definition registered_unsettled (w : World) : Prop :=
  ∀ k s, active_sessions w !! k = Some s →
    ∃ row, charging_sessions w !! k = Some row ∧ ChargingSession.end_on row = None.

(** A settlement event reports a whole number of kWh, at most [n]. *)
Definition reports_whole_kwh (n : Z) (e : Event) : Prop :=
  match e with
  | Settlement _ final_energy _ _ _ =>
      ∃ k : Z, 0 <= k <= n ∧ (final_energy == inject_Z k)%Q
  | Send _ => True
  end.

(** A settlement event is for at most [bound] kWh. *)
Definition energy_within (bound : Q) (e : Event) : Prop :=
  match e with
  | Settlement _ final_energy _ _ _ => (final_energy <= bound)%Q
  | Send _ => True
  end.

(** The requests served between the ticks of a schedule all satisfy
    [allowed]. *)
Definition schedule_allows (allowed : External → Prop) (schedule : list Step) : Prop :=
  Forall (fun s => match s with Tick _ _ => True | Meanwhile r => allowed r end) schedule.

(** A step that cannot make the handler raise: a tick whose frames the
    client receives and whose meter request does not crash the handler,
    or a request served meanwhile. *)
Definition clean_step (s : Step) : Prop :=
  match s with
  | Tick meter peer => peer = true ∧ meter ≠ MeterBadBody
  | Meanwhile _ => True
  end.

(** The number of ticks of a schedule. *)
Fixpoint ticks (schedule : list Step) : nat :=
  match schedule with
  | [] => O
  | Tick _ _ :: rest => S (ticks rest)
  | Meanwhile _ :: rest => ticks rest
  end.

(** A request that does not stop a session other than [session_id]. *)
Definition spares_others (session_id : Z) (r : External) : Prop :=
  match r with
  | ExtStopCharging _ s => s = session_id
  | _ => True
  end.

(** The state [w] differs from [w0] at most in the session [session_id]
    and in the account of [owner], who owns that session if it is
    registered. *)
Definition others_kept (w0 : World) (session_id owner : Z) (w : World) : Prop :=
  (∀ k, k ≠ session_id →
     active_sessions w !! k = active_sessions w0 !! k ∧
     charging_sessions w !! k = charging_sessions w0 !! k) ∧
  (∀ u, u ≠ owner → users w !! u = users w0 !! u) ∧
  (∀ s, active_sessions w !! session_id = Some s → ActiveSession.user_id s = owner).

(** From [w] to [w'] transactions were only appended, all of them of
    type [Payment], and every user of [w] is still there, with no fewer
    points and, unless one of the appended transactions is theirs, with
    the balance they had. *)
Definition ledger (w w' : World) : Prop :=
  ∃ new, transactions w' = transactions w ++ new ∧
    Forall (fun t => Transaction.type t = "Payment") new ∧
    ∀ u usr, users w !! u = Some usr →
      ∃ usr', users w' !! u = Some usr' ∧
        (Forall (fun t => Transaction.user_id t ≠ u) new →
         User.balance usr' = User.balance usr) ∧
        default 0 (User.points usr) <= default 0 (User.points usr').

(** * Properties *)

(** ** Discounts *)

Section Discounts.
Import DiscountService.

Lemma used_more_refl ds : Forall2 used_more ds ds.
Proof. induction ds; constructor; [repeat split; lia | done]. Qed.

(** [find_by_code] answers [None] exactly when no row has the code. *)
Lemma find_by_code_None code ds :
  find_by_code code ds = None ↔ ∀ d, d ∈ ds → lower (Discount.code d) ≠ lower code.
Proof.
  induction ds as [|d ds IH]; simpl.
  - split; [intros _ d Hd; by apply elem_of_nil in Hd | done].
  - destruct (String.eqb_spec (lower (Discount.code d)) (lower code)) as [Heq|Hne].
    + split; [done|]. intros H. destruct (H d); [left|done].
    + rewrite fmap_None, IH. split.
      * intros H d' [->|Hd]%elem_of_cons; auto.
      * intros H d' Hd. apply H. by right.
Qed.

(** The position it answers holds a row that has the code... *)
Lemma find_by_code_Some code ds i :
  find_by_code code ds = Some i →
  ∃ d, ds !! i = Some d ∧ lower (Discount.code d) = lower code.
Proof.
  revert i. induction ds as [|d ds IH]; intros i; simpl; [done|].
  destruct (String.eqb_spec (lower (Discount.code d)) (lower code)) as [Heq|Hne].
  - intros [= <-]. by exists d.
  - destruct (find_by_code code ds) as [j|]; [|done].
    intros [= <-]. by apply IH.
Qed.


Lemma used_more_trans ds1 ds2 ds3 :
  Forall2 used_more ds1 ds2 → Forall2 used_more ds2 ds3 → Forall2 used_more ds1 ds3.
Proof.
  intros H; revert ds3; induction H as [|a b l1 l2 Hab _ IH]; intros ds3 H3.
  - inversion H3; constructor.
  - inversion H3 as [|? c ? l3 Hbc Hl]; subst. constructor; [|by apply IH].
    destruct Hab as (?&?&?&?&?&?), Hbc as (?&?&?&?&?&?).
    repeat split; try congruence; lia.
Qed.

Lemma used_more_bump ds i d :
  ds !! i = Some d → Forall2 used_more ds (<[i := bump_usage d]> ds).
Proof.
  revert i; induction ds as [|a ds IH]; intros [|i] H; simplify_eq/=.
  - constructor; [|apply used_more_refl]. repeat split; simpl; lia.
  - constructor; [|by apply IH]. repeat split; lia.
Qed.

Lemma used_more_find code ds ds' :
  Forall2 used_more ds ds' → find_by_code code ds' = find_by_code code ds.
Proof.
  induction 1 as [|a b l1 l2 (Hc&_) _ IH]; [done|].
  simpl. rewrite Hc, IH. done.
Qed.

(** The outcomes of [apply_discount]: it never returns [EXPIRED] or
    [ERROR]. *)
Lemma apply_discount_cases w amount code r :
  apply_discount w amount code = Ok r →
  r = (amount, MsgCodeNotFound, NOT_FOUND, w) ∨
  (∃ i d, find_by_code code (discounts w) = Some i ∧ discounts w !! i = Some d ∧
          truthy_int (Discount.expiry_on d) = false ∧
          ((max_uses_reached d = true ∧ r = (amount, MsgCodeMaxUses, MAX_USES_REACHED, w)) ∨
           (max_uses_reached d = false ∧
            r = ((amount * (1 - Discount.value d / 100))%Q, MsgCodeApplied, SUCCESS,
                 with_discounts (fun ds => <[i := bump_usage d]> ds) w)))).
Proof.
  unfold apply_discount, apply_discount_body.
  destruct (find_by_code code (discounts w)) as [i|] eqn:Hf; [|intros [= <-]; by left].
  destruct (discounts w !! i) as [d|] eqn:Hd; [|intros [= <-]; by left].
  destruct (truthy_int (Discount.expiry_on d)) eqn:Ht; simpl; [done|].
  destruct (max_uses_reached d) eqn:Hm; intros [= <-]; right; exists i, d; naive_solver.
Qed.

Lemma apply_discount_used_more w amount code a m st w' :
  apply_discount w amount code = Ok (a, m, st, w') →
  Forall2 used_more (discounts w) (discounts w').
Proof.
  intros H. apply apply_discount_cases in H as [H|(i&d&_&Hd&_&[[_ H]|[_ H]])];
    simplify_eq; simpl; auto using used_more_refl, used_more_bump.
Qed.

Lemma apply_discounts_used_more calls : ∀ w,
  Forall2 used_more (discounts w) (discounts (apply_discounts w calls)).
Proof.
  induction calls as [|[a c] calls IH]; intros w; simpl; [apply used_more_refl|].
  destruct (apply_discount w a c) as [[[[? ?] ?] w']|] eqn:H; [|apply IH].
  eapply used_more_trans; [by eapply apply_discount_used_more | apply IH].
Qed.

(** A row that has reached its bound answers [MAX_USES_REACHED]. *)
Lemma apply_discount_exhausted w amount code i d :
  find_by_code code (discounts w) = Some i → discounts w !! i = Some d →
  truthy_int (Discount.expiry_on d) = false → max_uses_reached d = true →
  apply_discount w amount code = Ok (amount, MsgCodeMaxUses, MAX_USES_REACHED, w).
Proof.
  intros Hf Hd He Hm. unfold apply_discount, apply_discount_body.
  rewrite Hf, Hd, He. simpl. by rewrite Hm.
Qed.



End Discounts.

(** ** Settlement *)

Section Settlement.
Import ChargingSessionsService.

Lemma apply_discount_frame w amount code a m st w' :
  DiscountService.apply_discount w amount code = Ok (a, m, st, w') →
  ports w' = ports w ∧ stations w' = stations w ∧ users w' = users w ∧
  cars w' = cars w ∧ charging_sessions w' = charging_sessions w ∧
  transactions w' = transactions w ∧ active_sessions w' = active_sessions w ∧
  clock w' = clock w.
Proof.
  intros H. apply apply_discount_cases in H as [H|(i&d&_&_&_&[[_ H]|[_ H]])];
    simplify_eq; done.
Qed.

Lemma apply_discount_foreign_keys w amount code a m st w' :
  DiscountService.apply_discount w amount code = Ok (a, m, st, w') →
  foreign_keys w' = foreign_keys w.
Proof.
  intros H. apply apply_discount_cases in H as [H|(i&d&_&_&_&[[_ H]|[_ H]])];
    simplify_eq; done.
Qed.

(** [create_transaction] either raises [IntegrityError], where foreign
    keys are checked and a row it names is missing, or appends the row. *)
Lemma create_transaction_cases w user_id station_id car_id amount type :
  (foreign_keys w = true ∧ referenced_rows_exist w user_id station_id car_id = false ∧
   TransactionService.create_transaction w user_id station_id car_id amount type =
     Raise IntegrityError) ∨
  ((foreign_keys w = false ∨ referenced_rows_exist w user_id station_id car_id = true) ∧
   TransactionService.create_transaction w user_id station_id car_id amount type =
     let new_transaction :=
       Transaction.mk (next_id (Transaction.id <$> transactions w))
         user_id station_id car_id amount type in
     Ok (new_transaction, with_transactions (fun l => l ++ [new_transaction]) w)).
Proof.
  unfold TransactionService.create_transaction.
  destruct (foreign_keys w), (referenced_rows_exist w user_id station_id car_id);
    simpl; eauto.
Qed.

(** The stages of [process_payment] for a registered session that has its
    [car_id]: the discount, the transaction, the debit. *)
Lemma process_payment_cases w session_id final_cost code session car :
  active_sessions w !! session_id = Some session →
  ActiveSession.car_id session = Some car →
  (truthy_str code = true ∧
   (∃ e, DiscountService.apply_discount w final_cost (default "" code) = Raise e) ∧
   process_payment w session_id final_cost code = (final_cost, false, w)) ∨
  (∃ c w1,
     ((truthy_str code = false ∧ c = final_cost ∧ w1 = w) ∨
      (truthy_str code = true ∧
       ∃ a m st,
         DiscountService.apply_discount w final_cost (default "" code) = Ok (a, m, st, w1) ∧
         c = if bool_decide (st = SUCCESS) then a else final_cost)) ∧
     match
       TransactionService.create_transaction w1 (ActiveSession.user_id session)
         (ActiveSession.station_id session) car (- c)%Q "Payment"
     with
     | Raise _ => process_payment w session_id final_cost code = (c, false, w1)
     | Ok (_, w2) =>
         process_payment w session_id final_cost code =
           (c, true, snd (UsersService.update_balance w2 (ActiveSession.user_id session)
                            (- c)%Q))
     end).
Proof.
  intros Hs Hcar. unfold process_payment. rewrite Hs.
  destruct (truthy_str code) eqn:Ht; simpl.
  - destruct (DiscountService.apply_discount _ _ _) as [[[[a m] st] w1]|e] eqn:Hd; simpl.
    + right. exists (if bool_decide (st = SUCCESS) then a else final_cost), w1.
      split; [right; split; [done|]; by exists a, m, st|].
      rewrite Hcar. simpl.
      destruct (TransactionService.create_transaction _ _ _ _ _ _) as [[tx w2]|]; [|done].
      by destruct (UsersService.update_balance _ _ _).
    + left. eauto.
  - right. exists final_cost, w. split; [by left|].
    rewrite Hcar. simpl.
    destruct (TransactionService.create_transaction _ _ _ _ _ _) as [[tx w2]|]; [|done].
    by destruct (UsersService.update_balance _ _ _).
Qed.

(** What no payment writes: ports, stations, cars, session rows, the
    registry, the clock and the configuration of the database. *)
Lemma process_payment_frame w session_id final_cost code c ok w' :
  process_payment w session_id final_cost code = (c, ok, w') →
  ports w' = ports w ∧ charging_sessions w' = charging_sessions w ∧
  active_sessions w' = active_sessions w ∧ stations w' = stations w ∧
  cars w' = cars w ∧ clock w' = clock w ∧ foreign_keys w' = foreign_keys w.
Proof.
  destruct (active_sessions w !! session_id) as [s|] eqn:Hs.
  2:{ unfold process_payment. rewrite Hs. by intros [= _ _ <-]. }
  destruct (ActiveSession.car_id s) as [car|] eqn:Hcar.
  - destruct (process_payment_cases w session_id final_cost code s car Hs Hcar)
      as [(_ & _ & ->)|(c1 & w1 & Hst & Hp)]; [by intros [= _ _ <-]|].
    assert (ports w1 = ports w ∧ charging_sessions w1 = charging_sessions w ∧
            active_sessions w1 = active_sessions w ∧ stations w1 = stations w ∧
            cars w1 = cars w ∧ clock w1 = clock w ∧ foreign_keys w1 = foreign_keys w)
      as (?&?&?&?&?&?&?).
    { destruct Hst as [(_ & _ & ->)|(_ & a & m & st & Hd & _)]; [done|].
      pose proof (apply_discount_foreign_keys _ _ _ _ _ _ _ Hd).
      apply apply_discount_frame in Hd as (?&?&?&?&?&?&?&?). done. }
    destruct (create_transaction_cases w1 (ActiveSession.user_id s)
                (ActiveSession.station_id s) car (- c1)%Q "Payment")
      as [(_ & _ & Hc)|(_ & Hc)]; rewrite Hc in Hp; simpl in Hp; rewrite Hp.
    + by intros [= _ _ <-].
    + intros [= _ _ <-]. unfold UsersService.update_balance. simpl.
      destruct (users w1 !! _); simpl; done.
  - unfold process_payment. rewrite Hs, Hcar. simpl.
    destruct (truthy_str code); simpl; [|by intros [= _ _ <-]].
    destruct (DiscountService.apply_discount _ _ _) as [[[[a m] st] w1]|e] eqn:Hd; simpl;
      [|by intros [= _ _ <-]].
    pose proof (apply_discount_foreign_keys _ _ _ _ _ _ _ Hd).
    apply apply_discount_frame in Hd as (?&?&?&?&?&?&?&?). by intros [= _ _ <-].
Qed.

(** A payment that fails has written no transaction and has touched no
    user. *)
Lemma process_payment_failed w session_id final_cost code c w' :
  process_payment w session_id final_cost code = (c, false, w') →
  users w' = users w ∧ transactions w' = transactions w.
Proof.
  destruct (active_sessions w !! session_id) as [s|] eqn:Hs.
  2:{ unfold process_payment. rewrite Hs. by intros [= _ <-]. }
  destruct (ActiveSession.car_id s) as [car|] eqn:Hcar.
  - destruct (process_payment_cases w session_id final_cost code s car Hs Hcar)
      as [(_ & _ & ->)|(c1 & w1 & Hst & Hp)]; [by intros [= _ <-]|].
    assert (users w1 = users w ∧ transactions w1 = transactions w) as [? ?].
    { destruct Hst as [(_ & _ & ->)|(_ & a & m & st & Hd & _)]; [done|].
      apply apply_discount_frame in Hd as (?&?&?&?&?&?&?&?). done. }
    destruct (TransactionService.create_transaction _ _ _ _ _ _) as [[tx w2]|];
      rewrite Hp; [intros [=]|by intros [= _ <-]].
  - unfold process_payment. rewrite Hs, Hcar. simpl.
    destruct (truthy_str code); simpl; [|by intros [= _ <-]].
    destruct (DiscountService.apply_discount _ _ _) as [[[[a m] st] w1]|e] eqn:Hd; simpl;
      [|by intros [= _ <-]].
    apply apply_discount_frame in Hd as (?&?&?&?&?&?&?&?). by intros [= _ <-].
Qed.

Lemma end_charging_session_absent w session_id final_energy final_cost reason code :
  active_sessions w !! session_id = None →
  end_charging_session w session_id final_energy final_cost reason code = (false, w).
Proof. intros H. unfold end_charging_session. by rewrite H. Qed.

(** A settlement that returns [False] has left the registry, the session
    rows and the ports as they were. *)
Lemma end_charging_session_failed w session_id final_energy final_cost reason code w' :
  end_charging_session w session_id final_energy final_cost reason code = (false, w') →
  active_sessions w' = active_sessions w ∧
  charging_sessions w' = charging_sessions w ∧
  ports w' = ports w.
Proof.
  unfold end_charging_session.
  destruct (active_sessions w !! session_id) as [s|] eqn:Hs; [|by intros [= <-]].
  destruct (ActiveSession.car_id s) as [car|] eqn:Hcar; simpl; [|by intros [= <-]].
  destruct (process_payment _ _ _ _) as [[c ok] w1] eqn:Hp.
  apply process_payment_frame in Hp as (Hpo & Hr & Ha & _).
  destruct ok; simpl.
  - unfold end_session.
    destruct (charging_sessions w1 !! session_id); [intros [=]|].
    by intros [= <-].
  - by intros [= <-].
Qed.

(** A settlement that returns [True] has removed the session from the
    registry. *)
Lemma end_charging_session_removes w session_id final_energy final_cost reason code w' :
  end_charging_session w session_id final_energy final_cost reason code = (true, w') →
  active_sessions w' !! session_id = None.
Proof.
  unfold end_charging_session.
  destruct (active_sessions w !! session_id) as [s|]; [|intros [=]].
  destruct (item _); [|intros [=]].
  destruct (process_payment _ _ _ _) as [[c ok] w1].
  destruct ok; simpl; [|intros [=]].
  destruct (end_session _ _ _ _) as [[row|] w2]; [|intros [=]].
  intros [= <-]. simpl. apply lookup_delete_eq.
Qed.

(** No settlement adds a session to the registry. *)
Lemma end_charging_session_keeps_absent w session_id final_energy final_cost reason code
    b w' other :
  end_charging_session w session_id final_energy final_cost reason code = (b, w') →
  active_sessions w !! other = None → active_sessions w' !! other = None.
Proof.
  intros H Ho. destruct b.
  - revert H. unfold end_charging_session.
    destruct (active_sessions w !! session_id) as [s|] eqn:Hs; [|intros [=]].
    destruct (ActiveSession.car_id s) as [car|] eqn:Hcar; simpl; [|intros [=]].
    destruct (process_payment _ _ _ _) as [[c ok] w1] eqn:Hp.
    destruct ok; simpl; [|intros [=]].
    apply process_payment_frame in Hp as (_ & _ & Ha & _).
    unfold end_session. destruct (charging_sessions w1 !! session_id); [|intros [=]].
    intros [= <-]. simpl.
    destruct (decide (session_id = other)) as [->|Hne];
      [apply lookup_delete_eq | rewrite lookup_delete_ne by done].
    unfold PortService.get, PortService.update_status; simpl.
    destruct (ports w1 !! _) as [p|]; simpl; [|by rewrite Ha].
    destruct (ports w1 !! Port.id p); simpl; by rewrite Ha.
  - apply end_charging_session_failed in H as (-> & _). done.
Qed.

Lemma successes_absent calls : ∀ w session_id,
  active_sessions w !! session_id = None → successes w session_id calls = O.
Proof.
  induction calls as [|c calls IH]; intros w sid Ha; simpl; [done|].
  destruct (settle w c) as [ok w'] eqn:Hc. unfold settle in Hc.
  rewrite (IH w' sid) by (eapply end_charging_session_keeps_absent; eauto).
  destruct ok; [|done].
  destruct (Z.eqb_spec (call_session_id c) sid) as [Heq|]; [|done].
  rewrite Heq in Hc. by rewrite end_charging_session_absent in Hc.
Qed.

Lemma successes_le_1 calls : ∀ w session_id, (successes w session_id calls <= 1)%nat.
Proof.
  induction calls as [|c calls IH]; intros w sid; simpl; [lia|].
  destruct (settle w c) as [ok w'] eqn:Hc. unfold settle in Hc.
  destruct ok; [|apply IH].
  destruct (Z.eqb_spec (call_session_id c) sid) as [<-|]; [|apply IH].
  rewrite successes_absent; [simpl; lia|].
  by eapply end_charging_session_removes.
Qed.

(** Whenever [process_payment] answers failure, the settlement returns
    [False] and has written neither a transaction nor a user, a session
    row, a port or the registry. *)
Lemma end_charging_session_payment_failed w session_id final_energy final_cost reason code
    session cost w1 :
  active_sessions w !! session_id = Some session →
  process_payment w session_id final_cost (settlement_code session code) = (cost, false, w1) →
  ∃ w',
    end_charging_session w session_id final_energy final_cost reason code = (false, w') ∧
    active_sessions w' = active_sessions w ∧
    charging_sessions w' = charging_sessions w ∧
    ports w' = ports w ∧ users w' = users w ∧ transactions w' = transactions w.
Proof.
  intros Hs Hp. unfold end_charging_session. rewrite Hs.
  destruct (ActiveSession.car_id session) as [car|] eqn:Hcar; simpl; [|by eauto 10].
  rewrite Hp. simpl. exists w1. split; [done|].
  pose proof (process_payment_failed _ _ _ _ _ _ Hp) as [? ?].
  apply process_payment_frame in Hp as (?&?&?&_). done.
Qed.

(** C3, at the failing input.  The payment step has two halves, and
    [process_payment] reads the outcome of the first only.  Where the
    database does not check foreign keys and the row of the session's user
    is gone, the transaction is written, [update_balance] answers [False]
    and debits nobody, and the settlement of a session without discount
    code goes on all the same: it returns [True], the row of the session
    gets its end timestamp, energy and cost, the session leaves the
    registry and the port of the row (stored under its own id) becomes
    [Available]. *)
Theorem settlement_succeeds_without_debit (w : World) (session_id : Z)
    (final_energy final_cost : Q) (reason : option string)
    (session : ActiveSession.t) (car : Z) (row : ChargingSession.t) :
  active_sessions w !! session_id = Some session →
  ActiveSession.car_id session = Some car →
  truthy_str (ActiveSession.discount_code session) = false →
  charging_sessions w !! session_id = Some row →
  foreign_keys w = false →
  users w !! ActiveSession.user_id session = None →
  let payment :=
    Transaction.mk (next_id (Transaction.id <$> transactions w))
      (ActiveSession.user_id session) (ActiveSession.station_id session) car
      (- final_cost)%Q "Payment" in
  let w2 := with_transactions (fun l => l ++ [payment]) w in
  TransactionService.create_transaction w (ActiveSession.user_id session)
    (ActiveSession.station_id session) car (- final_cost)%Q "Payment" = Ok (payment, w2) ∧
  UsersService.update_balance w2 (ActiveSession.user_id session) (- final_cost)%Q
    = (false, w2) ∧
  process_payment w session_id final_cost None = (final_cost, true, w2) ∧
  ∃ w',
    end_charging_session w session_id final_energy final_cost reason None = (true, w') ∧
    transactions w' = transactions w ++ [payment] ∧
    users w' = users w ∧
    active_sessions w' = delete session_id (active_sessions w) ∧
    charging_sessions w' !! session_id =
      Some (ChargingSession.mk (ChargingSession.id row) (ChargingSession.user_id row)
              (ChargingSession.port_id row) (ChargingSession.car_id row)
              (ChargingSession.started_on row) (Some (clock w)) (Some final_energy)
              (ChargingSession.power_limit row) (Some final_cost)) ∧
    (∀ port,
       ports w !! ChargingSession.port_id row = Some port →
       Port.id port = ChargingSession.port_id row →
       ports w' !! ChargingSession.port_id row = Some (Port.with_status "Available" port)).
Proof.
  intros Hs Hcar Hcode Hrow Hfk Hu payment w2.
  assert (Hc : TransactionService.create_transaction w (ActiveSession.user_id session)
                 (ActiveSession.station_id session) car (- final_cost)%Q "Payment"
               = Ok (payment, w2)).
  { unfold TransactionService.create_transaction. by rewrite Hfk. }
  assert (Hb : UsersService.update_balance w2 (ActiveSession.user_id session)
                 (- final_cost)%Q = (false, w2)).
  { unfold UsersService.update_balance. simpl. by rewrite Hu. }
  assert (Hp : process_payment w session_id final_cost None = (final_cost, true, w2)).
  { unfold process_payment. rewrite Hs. simpl. rewrite Hcar. simpl.
    rewrite Hc. by rewrite Hb. }
  split; [exact Hc|]. split; [exact Hb|]. split; [exact Hp|].
  assert (Hp' : process_payment w session_id final_cost (settlement_code session None)
                = (final_cost, true, w2)).
  { unfold process_payment. rewrite Hs. unfold settlement_code. rewrite Hcode. simpl.
    rewrite Hcar. simpl. rewrite Hc. by rewrite Hb. }
  unfold end_charging_session. rewrite Hs, Hcar. cbn [item]. rewrite Hp'.
  simpl. unfold end_session. simpl. rewrite Hrow. simpl.
  unfold PortService.get, PortService.update_status. simpl.
  eexists. split; [reflexivity|].
  destruct (ports w !! ChargingSession.port_id row) as [port|] eqn:Hport; simpl.
  - destruct (ports w !! Port.id port) as [port'|] eqn:Hport'; simpl;
      (split; [done|]); (split; [done|]); (split; [done|]);
      (split; [by rewrite lookup_insert_eq|]);
      intros port0 [= <-] Hid; rewrite Hid, Hport in Hport'; [|done].
    injection Hport' as <-. rewrite Hid. by rewrite lookup_insert_eq.
  - split; [done|]. split; [done|]. split; [done|].
    split; [by rewrite lookup_insert_eq|]. intros port [=].
Qed.

(** Session 1 settles for 20 in [orphaned_world]: the transaction of -20
    is written for user 7, who has no row and pays nothing, and the
    session is closed. *)
Lemma settlement_succeeds_without_debit_witness :
  users orphaned_world !! 7 = None ∧
  ∃ w',
    end_charging_session orphaned_world 1 10 20 (Some "user_stopped") None = (true, w') ∧
    transactions w' = [Transaction.mk 1 7 1 3 (- 20)%Q "Payment"] ∧
    users w' = users orphaned_world ∧
    active_sessions w' !! 1 = None ∧
    ports w' !! 1 = Some (Port.mk 1 1 22 "Type2" "Available").
Proof.
  split; [reflexivity|].
  destruct (settlement_succeeds_without_debit orphaned_world 1 10 20 (Some "user_stopped")
              (sample_session 10 None) 3
              (ChargingSession.mk 1 7 1 (Some 3) (Some 1750000000000) None None
                 (Some 11%Q) None)
              eq_refl eq_refl eq_refl eq_refl eq_refl eq_refl)
    as (_ & _ & _ & w' & He & Ht & Hu & Ha & _ & Hport).
  exists w'. split; [exact He|]. split; [exact Ht|]. split; [exact Hu|].
  split; [rewrite Ha; reflexivity|].
  apply (Hport (Port.mk 1 1 22 "Type2" "InUse")); reflexivity.
Defined.

(** C10.  [end_charging_session] on a session id that is not in the
    registry returns [False] and changes nothing: no transaction, no
    debit, no end fields, no port update; the stop endpoint answers 400
    in that case.  And of any calls made one after the other, at most
    one settles a given session with success. *)
Theorem settlement_of_unregistered_session (w : World) (session_id : Z) :
  (∀ calls, (successes w session_id calls <= 1)%nat) ∧
  (active_sessions w !! session_id = None →
     (∀ final_energy final_cost reason code,
        end_charging_session w session_id final_energy final_cost reason code = (false, w)) ∧
     (∀ user_id, stop_charging w user_id session_id = (400, w)) ∧
     (∀ calls, successes w session_id calls = O)).
Proof.
  split; [intros; apply successes_le_1|].
  intros Ha. split; [|split].
  - intros. by apply end_charging_session_absent.
  - intros. unfold stop_charging, get_session_status. by rewrite Ha.
  - intros. by apply successes_absent.
Qed.

Lemma settlement_of_unregistered_session_witness :
  active_sessions idle_world !! 1 = None ∧
  end_charging_session idle_world 1 10 20 (Some "user_stopped") None = (false, idle_world) ∧
  stop_charging idle_world 7 1 = (400, idle_world).
Proof.
  split; [reflexivity|].
  destruct (settlement_of_unregistered_session idle_world 1) as [_ H].
  destruct (H eq_refl) as (H1 & H2 & _). split; [apply H1 | apply H2].
Defined.

End Settlement.

(** ** Comparisons on rationals *)

Lemma Qltb_lt (a b : Q) : Qltb a b = true ↔ (a < b)%Q.
Proof.
  unfold Qltb. rewrite negb_true_iff.
  split.
  - intros H. apply Qnot_le_lt. intros Hle. apply Qle_bool_iff in Hle. congruence.
  - intros H. destruct (Qle_bool b a) eqn:E; [|done].
    apply Qle_bool_iff in E. exfalso. by apply (Qlt_not_le a b).
Qed.

Lemma Qleb_le (a b : Q) : Qleb a b = true ↔ (a <= b)%Q.
Proof. apply Qle_bool_iff. Qed.

Lemma Qleb_gt (a b : Q) : Qleb a b = false ↔ (b < a)%Q.
Proof.
  unfold Qleb. split.
  - intros H. apply Qnot_le_lt. intros Hle. apply Qle_bool_iff in Hle. congruence.
  - intros H. destruct (Qle_bool a b) eqn:E; [|done].
    apply Qle_bool_iff in E. exfalso. by apply (Qlt_not_le b a).
Qed.

(** ** Starting a charge *)

Section Start.
Import ChargingSessionsService.

(** C5, as the code has it.  [start_charging] on a registered session of
    the caller, with no discount code or with a code that
    [apply_discount] accepts: if the balance of the user is below the
    estimated cost ([target_kwh * price_per_kwh], discounted when a code
    was given), the call returns failure with the insufficient-balance
    message, the port of the session is set to [Available], and the
    registry entry is left as it was, so the session has not moved to
    status [charging]. *)
Theorem start_charging_insufficient_balance (w : World) (session_id user_id : Z)
    (target_kwh : Q) (car_id : Z) (discount_code : option string)
    (session : ActiveSession.t) (user : User.t) (estimated_cost : Q) (w1 : World) :
  get_session_status w session_id = Some session →
  ActiveSession.user_id session = user_id →
  users w !! user_id = Some user →
  (truthy_str discount_code = false ∧
     estimated_cost = (target_kwh * ActiveSession.price_per_kwh session)%Q ∧ w1 = w) ∨
  (truthy_str discount_code = true ∧
     ∃ msg, DiscountService.apply_discount w
              (target_kwh * ActiveSession.price_per_kwh session)%Q
              (default "" discount_code) = Ok (estimated_cost, msg, SUCCESS, w1)) →
  (User.balance user < estimated_cost)%Q →
  ∃ w',
    start_charging w session_id user_id target_kwh car_id discount_code =
      (false, estimated_cost,
       MsgInsufficientBalance estimated_cost (User.balance user), w') ∧
    (∀ port, ports w !! ActiveSession.port_id session = Some port →
             ports w' !! ActiveSession.port_id session =
               Some (Port.with_status "Available" port)) ∧
    active_sessions w' = active_sessions w ∧
    active_sessions w' !! session_id = Some session.
Proof.
  intros Hs Hu Huser Hest Hlt.
  assert (Hfunded : ∀ w0 code,
    users w0 = users w → ports w0 = ports w → active_sessions w0 = active_sessions w →
    ∃ w',
      start_charging_funded w0 session_id user_id session target_kwh car_id
        estimated_cost code =
        (false, estimated_cost,
         MsgInsufficientBalance estimated_cost (User.balance user), w') ∧
      (∀ port, ports w !! ActiveSession.port_id session = Some port →
               ports w' !! ActiveSession.port_id session =
                 Some (Port.with_status "Available" port)) ∧
      active_sessions w' = active_sessions w ∧
      active_sessions w' !! session_id = Some session).
  { intros w0 code Hus Hpo Hac. unfold start_charging_funded, UsersService.get.
    rewrite Hus, Huser. simpl.
    apply Qltb_lt in Hlt. rewrite Hlt.
    unfold PortService.update_status. rewrite Hpo.
    destruct (ports w !! ActiveSession.port_id session) as [p|] eqn:Hp.
    - eexists; split; [reflexivity|]. simpl. rewrite Hac. split; [|done].
      intros port [= <-]. rewrite Hpo. apply lookup_insert_eq.
    - eexists; split; [reflexivity|]. rewrite Hac. done. }
  unfold start_charging. rewrite Hs.
  rewrite <- Hu, Z.eqb_refl. simpl.
  destruct Hest as [(Hn & -> & ->)|(Ht & msg & Happ)].
  - rewrite Hn. rewrite Hu. by apply Hfunded.
  - rewrite Ht, Happ. simpl. rewrite Hu.
    apply apply_discount_frame in Happ as (?&?&?&?&?&?&?&?). by apply Hfunded.
Qed.

Lemma start_charging_insufficient_balance_witness :
  get_session_status initialized_world 1 =
    Some (ActiveSession.mk 1 8 1 1 22 2 "Type2" "initialized" 1750000000000 0 0 0
            None None None None None) ∧
  users initialized_world !! 8 = Some (User.mk 8 5 (Some 0)) ∧
  (5 < 10 * 2)%Q ∧
  fst (start_charging initialized_world 1 8 10 3 None) =
    (false, (10 * 2)%Q, MsgInsufficientBalance (10 * 2) 5).
Proof.
  assert (H1 : get_session_status initialized_world 1 =
    Some (ActiveSession.mk 1 8 1 1 22 2 "Type2" "initialized" 1750000000000 0 0 0
            None None None None None)) by reflexivity.
  assert (H2 : users initialized_world !! 8 = Some (User.mk 8 5 (Some 0))) by reflexivity.
  assert (H3 : (5 < 10 * 2)%Q) by reflexivity.
  split; [exact H1|]. split; [exact H2|]. split; [exact H3|].
  destruct (start_charging_insufficient_balance initialized_world 1 8 10 3 None
              _ _ (10 * 2)%Q initialized_world H1 eq_refl H2
              (or_introl (conj eq_refl (conj eq_refl eq_refl))) H3) as (w' & -> & _).
  reflexivity.
Defined.

(** C5 as stated fails when the supplied code is rejected: user 8 has a
    balance of 5, the estimated cost of 10 kWh at 2 per kWh is 20, and the
    call with an unknown code fails with the discount-error message, not
    with the insufficient-balance one. *)
Lemma start_charging_rejected_code_counterexample :
  ActiveSession.user_id <$> get_session_status initialized_world 1 = Some 8 ∧
  User.balance <$> users initialized_world !! 8 = Some 5%Q ∧
  (5 < 10 * 2)%Q ∧
  fst (start_charging initialized_world 1 8 10 3 (Some "NOPE")) =
    (false, (10 * 2)%Q, MsgDiscountError MsgCodeNotFound) ∧
  ¬ (∃ needed balance,
       snd (fst (start_charging initialized_world 1 8 10 3 (Some "NOPE"))) =
         MsgInsufficientBalance needed balance).
Proof.
  repeat split; try reflexivity.
  intros (n & b & H). vm_compute in H. discriminate H.
Qed.

End Start.

(** ** Discounts at settlement *)

Section DiscountAtSettlement.
Import ChargingSessionsService.

(** A row with an expiry date makes [apply_discount] raise: the test
    [datetime.utcnow() > discount.expiry_on] compares a [datetime] with the
    integer column. *)
Lemma apply_discount_dated_raises w amount code i d :
  DiscountService.find_by_code code (discounts w) = Some i →
  discounts w !! i = Some d →
  truthy_int (Discount.expiry_on d) = true →
  DiscountService.apply_discount w amount code = Raise TypeError.
Proof.
  intros Hf Hd He.
  unfold DiscountService.apply_discount, DiscountService.apply_discount_body.
  by rewrite Hf, Hd, He.
Qed.

(** An exception of [apply_discount] is caught by [process_payment], which
    answers failure; the settlement then returns [False] in the state it
    was called in. *)
Lemma settlement_fails_when_discount_raises w session_id final_energy final_cost
    reason code session e :
  active_sessions w !! session_id = Some session →
  truthy_str (settlement_code session code) = true →
  DiscountService.apply_discount w final_cost (default "" (settlement_code session code))
    = Raise e →
  end_charging_session w session_id final_energy final_cost reason code = (false, w).
Proof.
  intros Hs Ht He. unfold end_charging_session. rewrite Hs.
  destruct (ActiveSession.car_id session) eqn:Hcar; simpl; [|done].
  unfold process_payment. rewrite Hs, Ht, He. done.
Qed.

(** C6, at the failing input.  Session 1 carries the code [SUMMER], whose
    expiry date has passed.  [apply_discount] raises instead of answering
    [EXPIRED], the payment step answers failure, and the settlement
    returns [False] with the session still registered and port 1 still
    [InUse]: it does not proceed with the undiscounted cost of 20. *)
Theorem settlement_blocked_by_expired_discount :
  let w := charging_world 10 (Some "SUMMER") in
  Discount.expiry_on <$> discounts w !! 1%nat = Some (Some 1700000000000) ∧
  1700000000000 < clock w ∧
  DiscountService.apply_discount w 20 "SUMMER" = Raise TypeError ∧
  process_payment w 1 20 (Some "SUMMER") = (20%Q, false, w) ∧
  end_charging_session w 1 10 20 (Some "target_reached") None = (false, w) ∧
  is_Some (active_sessions w !! 1) ∧
  Port.status <$> ports w !! 1 = Some "InUse" ∧
  transactions w = [].
Proof.
  repeat split; try reflexivity. by eexists.
Qed.

End DiscountAtSettlement.

(** ** Initialization *)

Section Initialize.
Import ChargingSessionsService.

(** [initialize_charging] looks neither at the status of the port nor at
    the sessions that already use it. *)
Lemma initialize_charging_any_status w user_id port_id port station :
  ports w !! port_id = Some port →
  stations w !! Port.station_id port = Some station →
  ∃ e w',
    initialize_charging w user_id port_id = (Some e, w') ∧
    ActiveSession.port_id e = port_id ∧
    active_sessions w' !! ActiveSession.session_id e = Some e ∧
    Port.status <$> ports w' !! port_id = Some "InUse".
Proof.
  intros Hp Hst. unfold initialize_charging, PortService.get, StationService.get.
  rewrite Hp. simpl. rewrite Hst. simpl.
  unfold PortService.update_status. simpl. rewrite Hp. simpl.
  eexists _, _. split; [reflexivity|]. simpl.
  split; [done|]. split; [apply lookup_insert_eq|].
  by rewrite lookup_insert_eq.
Qed.

(** C2, at the failing input.  Two calls of [initialize_charging] for
    port 1, by users 7 and 8, both succeed: sessions 1 and 2 are both in
    the registry for port 1, and both of their rows have no end
    timestamp. *)
Theorem initialize_charging_shares_port :
  let r1 := initialize_charging idle_world 7 1 in
  let r2 := initialize_charging (snd r1) 8 1 in
  let w := snd r2 in
  ActiveSession.session_id <$> fst r1 = Some 1 ∧
  ActiveSession.session_id <$> fst r2 = Some 2 ∧
  ActiveSession.port_id <$> active_sessions w !! 1 = Some 1 ∧
  ActiveSession.port_id <$> active_sessions w !! 2 = Some 1 ∧
  (λ r, (ChargingSession.port_id r, ChargingSession.end_on r)) <$> charging_sessions w !! 1
    = Some (1, None) ∧
  (λ r, (ChargingSession.port_id r, ChargingSession.end_on r)) <$> charging_sessions w !! 2
    = Some (1, None) ∧
  Port.status <$> ports (snd r1) !! 1 = Some "InUse" ∧
  Port.status <$> ports w !! 1 = Some "InUse".
Proof. repeat split; reflexivity. Qed.

End Initialize.

(** ** Loyalty points *)

Section Points.
Import ChargingSessionsService.



Lemma update_charging_status_unfold w session_id kwh status power cost session :
  active_sessions w !! session_id = Some session →
  let p := py_int ((kwh - default 0%Q (ActiveSession.last_points_kwh session)) * 100)%Q in
  update_charging_status w session_id kwh status power cost =
    if 0 <? p then
      (true,
       snd (UsersService.add_points
              (with_active_sessions
                 (fun m => <[session_id :=
                    ActiveSession.set_last_points_kwh kwh
                      (ActiveSession.update kwh power cost status session)]> m) w)
              (ActiveSession.user_id session) p))
    else
      (true,
       with_active_sessions
         (fun m => <[session_id := ActiveSession.update kwh power cost status session]> m) w).
Proof.
  intros Hs p. unfold update_charging_status. rewrite Hs. simpl. fold p.
  destruct (0 <? p); [|done].
  by destruct (UsersService.add_points _ _ _).
Qed.







End Points.

(** ** The telemetry loop *)

Section Telemetry.
Import ChargingSessionsService.

(** A settlement that returns [True] has removed the session and has set
    the port of its row to [Available]. *)
Lemma end_charging_session_done w session_id final_energy final_cost reason code w' :
  end_charging_session w session_id final_energy final_cost reason code = (true, w') →
  active_sessions w' !! session_id = None ∧
  ∀ row port,
    charging_sessions w !! session_id = Some row →
    ports w !! ChargingSession.port_id row = Some port →
    Port.id port = ChargingSession.port_id row →
    ports w' !! ChargingSession.port_id row = Some (Port.with_status "Available" port).
Proof.
  intros H. split; [by eapply end_charging_session_removes|].
  revert H. unfold end_charging_session.
  destruct (active_sessions w !! session_id) as [s|]; [|intros [=]].
  destruct (item _); [|intros [=]].
  destruct (process_payment _ _ _ _) as [[c ok] w1] eqn:Hp.
  apply process_payment_frame in Hp as (Hpo & Hr & _).
  destruct ok; simpl; [|intros [=]].
  unfold end_session. rewrite Hr.
  destruct (charging_sessions w !! session_id) as [r|]; [|intros [=]].
  intros [= <-] row port [= <-] Hport Hid. simpl.
  unfold PortService.get, PortService.update_status. simpl.
  rewrite Hpo, Hport, Hid, Hport. simpl. apply lookup_insert_eq.
Qed.

(** [update_charging_status] on a registered session: it answers [True],
    writes the status it is given and touches neither ports nor rows. *)
Lemma update_charging_status_registered w session_id kwh status power cost session :
  active_sessions w !! session_id = Some session →
  ∃ w' session',
    update_charging_status w session_id kwh status power cost = (true, w') ∧
    active_sessions w' !! session_id = Some session' ∧
    ActiveSession.charging_status session' = status ∧
    ports w' = ports w ∧ stations w' = stations w ∧
    charging_sessions w' = charging_sessions w.
Proof.
  intros Hs. rewrite (update_charging_status_unfold _ _ _ _ _ _ _ Hs). simpl.
  destruct (0 <? _).
  - unfold UsersService.add_points. simpl.
    destruct (users w !! _); simpl; eexists _, _;
      (split; [reflexivity|]); simpl; rewrite lookup_insert_eq; done.
  - eexists _, _. split; [reflexivity|]. simpl. rewrite lookup_insert_eq. done.
Qed.

(** The order of the tests of [end_reason]. *)
Lemma end_reason_priority (battery_level current_kwh battery_capacity target_kwh : Q) :
  let reason := end_reason battery_level current_kwh battery_capacity target_kwh in
  ((100 <= battery_level)%Q → reason = Some "battery_full") ∧
  ((battery_level < 100)%Q → (battery_capacity <= current_kwh)%Q →
     reason = Some "capacity_reached") ∧
  ((battery_level < 100)%Q → (current_kwh < battery_capacity)%Q →
     (target_kwh - 0.01 <= current_kwh)%Q → reason = Some "target_reached") ∧
  ((battery_level < 100)%Q → (current_kwh < battery_capacity)%Q →
     (current_kwh < target_kwh - 0.01)%Q → reason = None).
Proof.
  unfold end_reason. repeat split.
  - intros H. apply Qleb_le in H. by rewrite H.
  - intros H1 H2. apply Qleb_gt in H1. apply Qleb_le in H2. by rewrite H1, H2.
  - intros H1 H2 H3. apply Qleb_gt in H1, H2. apply Qleb_le in H3. by rewrite H1, H2, H3.
  - intros H1 H2 H3. apply Qleb_gt in H1, H2, H3. by rewrite H1, H2, H3.
Qed.

(** C7.  On a tick that gets as far as the termination test (the session
    may continue, the meter request did not crash the handler, the
    capacity of the car is not zero, the session has its target and the
    client receives the frames of the tick), the reason is chosen in this
    order: battery level at 100 or more gives [battery_full]; otherwise
    energy at or above the capacity gives [capacity_reached]; otherwise
    energy at or above the target less 0.01 gives [target_reached];
    otherwise there is none.  With a reason, the status of the session is
    set to [done], [end_charging_session] is called with that reason, a
    [charging_completed] frame with that reason is sent after it, and the
    loop stops there, whatever the rest of the schedule; with no reason the
    tick sends its update and the loop goes on. *)
Theorem tick_termination (w : World) (session_id : Z) (session : ActiveSession.t)
    (car : Car.t) (l : Locals.t) (meter : MeterResponse) (target_kwh : Q) :
  check_charging_availability w session_id = (true, None) →
  meter ≠ MeterBadBody →
  ¬ (Car.battery_capacity car == 0)%Q →
  ActiveSession.target_kwh session = Some target_kwh →
  let current_kwh := (Locals.current_kwh l + 1)%Q in
  let battery_capacity := Car.battery_capacity car in
  let battery_level := py_min 100 (current_kwh / battery_capacity * 100)%Q in
  let current_cost :=
    (Locals.current_cost l + 1 * ActiveSession.price_per_kwh session)%Q in
  let charging_power :=
    if Qltb 40 (Locals.battery_temp l + 0.1)%Q then (Locals.charging_power l * 0.9)%Q
    else Locals.charging_power l in
  let reason := end_reason battery_level current_kwh battery_capacity target_kwh in
  (((100 <= battery_level)%Q → reason = Some "battery_full") ∧
   ((battery_level < 100)%Q → (battery_capacity <= current_kwh)%Q →
      reason = Some "capacity_reached") ∧
   ((battery_level < 100)%Q → (current_kwh < battery_capacity)%Q →
      (target_kwh - 0.01 <= current_kwh)%Q → reason = Some "target_reached") ∧
   ((battery_level < 100)%Q → (current_kwh < battery_capacity)%Q →
      (current_kwh < target_kwh - 0.01)%Q → reason = None)) ∧
  ∃ w1 l' update,
    update_charging_status w session_id current_kwh "active" charging_power current_cost
      = (true, w1) ∧
    match reason with
    | Some r =>
        ∃ w2 ok w3,
          update_charging_status w1 session_id current_kwh "done" charging_power
            current_cost = (true, w2) ∧
          ActiveSession.charging_status <$> active_sessions w2 !! session_id
            = Some "done" ∧
          end_charging_session w2 session_id current_kwh current_cost (Some r) None
            = (ok, w3) ∧
          tick w session_id session car l meter true =
            (w3, l',
             [Send update;
              Settlement session_id current_kwh current_cost r ok;
              Send (WsChargingCompleted session_id current_kwh current_cost r
                      battery_level)],
             Break) ∧
          Locals.status l' = "done" ∧
          ∀ rest,
            loop w session_id session car l (Tick meter true :: rest) =
              tick w session_id session car l meter true
    | None =>
        tick w session_id session car l meter true = (w1, l', [Send update], Continue)
    end.
Proof.
  intros Hav Hm Hcap Ht current_kwh battery_capacity battery_level current_cost
    charging_power reason.
  split; [apply end_reason_priority|].
  assert (∃ s, active_sessions w !! session_id = Some s) as [s Hs].
  { revert Hav. unfold check_charging_availability.
    destruct (active_sessions w !! session_id); [eauto|intros [=]]. }
  destruct (update_charging_status_registered w session_id current_kwh "active"
              charging_power current_cost s Hs) as (w1 & s1 & Hu1 & Hs1 & _).
  destruct (update_charging_status_registered w1 session_id current_kwh "done"
              charging_power current_cost s1 Hs1) as (w2 & s2 & Hu2 & Hs2 & Hst2 & _).
  assert (Hq : Qeq_bool (Car.battery_capacity car) 0 = false).
  { destruct (Qeq_bool _ _) eqn:E; [|done]. apply Qeq_bool_iff in E. done. }
  subst reason current_kwh battery_capacity battery_level current_cost charging_power.
  unfold loop, tick. rewrite Hav. simpl.
  destruct meter; [ | | | done]; rewrite Hq, Ht; simpl; rewrite Hu1;
    (destruct (end_reason _ _ _ _) as [r|];
     [ rewrite Hu2;
       destruct (end_charging_session w2 session_id _ _ (Some r) None) as [ok w3] eqn:He;
       eexists w1, _, _; (split; [reflexivity|]);
       exists w2, ok, w3; rewrite Hs2; simpl; rewrite Hst2;
       repeat split; first [exact Hu2 | exact He | reflexivity]
     | eexists w1, _, _; split; reflexivity ]).
Qed.

Lemma tick_termination_witness :
  check_charging_availability (charging_world 1 None) 1 = (true, None) ∧
  ¬ (Car.battery_capacity (Car.mk 3 50 11) == 0)%Q ∧
  end_reason (py_min 100 ((0 + 1) / 50 * 100)) (0 + 1) 50 1 = Some "target_reached" ∧
  ∃ w3 l' update ok,
    tick (charging_world 1 None) 1 (sample_session 1 None) (Car.mk 3 50 11)
      (initial_locals (sample_session 1 None) (Car.mk 3 50 11)) (MeterOk 1) true =
      (w3, l',
       [Send update;
        Settlement 1 (0 + 1) (0 + 1 * 2) "target_reached" ok;
        Send (WsChargingCompleted 1 (0 + 1) (0 + 1 * 2) "target_reached"
                (py_min 100 ((0 + 1) / 50 * 100)))],
       Break).
Proof.
  assert (H1 : check_charging_availability (charging_world 1 None) 1 = (true, None))
    by reflexivity.
  assert (H2 : ¬ (Car.battery_capacity (Car.mk 3 50 11) == 0)%Q) by (intros H; discriminate H).
  split; [exact H1|]. split; [exact H2|]. split; [reflexivity|].
  destruct (tick_termination (charging_world 1 None) 1 (sample_session 1 None)
              (Car.mk 3 50 11) (initial_locals (sample_session 1 None) (Car.mk 3 50 11))
              (MeterOk 1) 1 H1 ltac:(discriminate) H2 eq_refl)
    as (_ & w1 & l' & update & _ & H).
  change (end_reason _ _ _ _) with (Some "target_reached") in H.
  destruct H as (w2 & ok & w3 & _ & _ & Hend & Htick & _).
  exists w3, l', update, ok. exact Htick.
Defined.

(** The reading of the meter does not reach the tick: a tick whose
    request succeeded is the tick whose request failed. *)
Lemma tick_ignores_meter_reading w session_id session car l kwh peer :
  tick w session_id session car l (MeterOk kwh) peer =
  tick w session_id session car l MeterRequestException peer.
Proof. reflexivity. Qed.

(** C8, at the failing input.  The meter answers 200 with a reading of
    0.5 kWh; the tick adds the nominal 1 kWh and its cost of 2 to the
    session, as it does when the request fails. *)
Theorem tick_adds_one_kwh_for_any_reading :
  let session := sample_session 10 None in
  let car := Car.mk 3 50 11 in
  let '(w', l', trace, exit) :=
    tick (charging_world 10 None) 1 session car (initial_locals session car)
      (MeterOk 0.5) true in
  Locals.current_kwh l' = (0 + 1)%Q ∧
  Locals.current_cost l' = (0 + 1 * 2)%Q ∧
  ActiveSession.current_kwh <$> active_sessions w' !! 1 = Some (0 + 1)%Q ∧
  ActiveSession.current_cost <$> active_sessions w' !! 1 = Some (0 + 1 * 2)%Q ∧
  ¬ (Locals.current_kwh l' == 0 + 0.5)%Q ∧
  exit = Continue ∧
  (w', l', trace, exit) =
    tick (charging_world 10 None) 1 session car (initial_locals session car)
      MeterRequestException true.
Proof.
  repeat split; try reflexivity. intros H. discriminate H.
Qed.

(** The reasons that the loop gives to a settlement. *)
Lemma check_charging_availability_cases w session_id :
  check_charging_availability w session_id ∈
    [(false, Some "session_not_found"); (false, Some "port_maintenance");
     (false, Some "station_maintenance"); (false, Some "system_error");
     (true, None)].
Proof.
  unfold check_charging_availability.
  destruct (active_sessions w !! session_id) as [s|]; [|set_solver].
  destruct (PortService.get w _) as [p|]; simpl; [|set_solver].
  destruct (String.eqb (Port.status p) _); simpl; [set_solver|].
  destruct (StationService.get w _) as [st|]; simpl; [|set_solver].
  destruct (String.eqb (Station.status st) _); set_solver.
Qed.

Lemma end_reason_cases battery_level current_kwh battery_capacity target_kwh :
  end_reason battery_level current_kwh battery_capacity target_kwh ∈
    [Some "battery_full"; Some "capacity_reached"; Some "target_reached"; None].
Proof.
  unfold end_reason. repeat (destruct (Qleb _ _); [set_solver|]). set_solver.
Qed.

Lemma tick_no_connection_lost w session_id session car l meter peer w' l' trace x :
  tick w session_id session car l meter peer = (w', l', trace, x) →
  settlements session_id "connection_lost" trace = O.
Proof.
  unfold tick.
  pose proof (check_charging_availability_cases w session_id) as Hc.
  destruct (check_charging_availability w session_id) as [can r].
  assert (can = true ∨
          r ∈ [Some "session_not_found"; Some "port_maintenance";
               Some "station_maintenance"; Some "system_error"]) as [->|Hr].
  { set_unfold. destruct Hc as [Hc|[Hc|[Hc|[Hc|[Hc|[]]]]]]; injection Hc as -> ->; eauto 10. }
  - simpl. destruct meter; try (by intros [= <- <- <- <-]);
      (destruct (Qeq_bool _ _); [by intros [= <- <- <- <-]|];
       destruct (item _) as [t|]; [|by intros [= <- <- <- <-]];
       destruct peer; simpl; [|by intros [= <- <- <- <-]];
       destruct (update_charging_status _ _ _ _ _ _) as [? w1];
       pose proof (end_reason_cases
         (py_min 100 ((Locals.current_kwh l + 1) / Car.battery_capacity car * 100))
         (Locals.current_kwh l + 1) (Car.battery_capacity car) t) as He;
       destruct (end_reason _ _ _ _) as [reason|]; [|by intros [= <- <- <- <-]];
       destruct (update_charging_status _ _ _ _ _ _) as [? w2];
       destruct (end_charging_session _ _ _ _ _ _) as [ok w3];
       intros [= <- <- <- <-]; unfold settlements; simpl;
       rewrite Z.eqb_refl; simpl;
       set_unfold; destruct He as [He|[He|[He|[He|[]]]]]; simplify_eq; reflexivity).
  - destruct can; simpl.
    { set_unfold. destruct Hc as [Hc|[Hc|[Hc|[Hc|[Hc|[]]]]]]; injection Hc as Hc;
        destruct Hr as [->|[->|[->|[->|[]]]]]; discriminate. }
    destruct (bool_decide _); [by intros [= <- <- <- <-]|].
    destruct (end_charging_session _ _ _ _ _ _) as [ok w1].
    destruct peer; intros [= <- <- <- <-]; unfold settlements; simpl;
      rewrite Z.eqb_refl; simpl;
      set_unfold; destruct Hr as [->|[->|[->|[->|[]]]]]; reflexivity.
Qed.

Lemma settlements_app session_id reason t1 t2 :
  settlements session_id reason (t1 ++ t2) =
  (settlements session_id reason t1 + settlements session_id reason t2)%nat.
Proof. unfold settlements. by rewrite List.filter_app, length_app. Qed.

Lemma loop_no_connection_lost schedule : ∀ w session_id session car l w' l' trace x,
  loop w session_id session car l schedule = (w', l', trace, x) →
  settlements session_id "connection_lost" trace = O.
Proof.
  induction schedule as [|[meter|r] schedule IH]; intros w sid session car l w' l' trace x;
    simpl.
  - by intros [= <- <- <- <-].
  - destruct (tick w sid session car l meter) as [[[w1 l1] t1] x1] eqn:Ht.
    apply tick_no_connection_lost in Ht.
    destruct x1; try (by intros [= <- <- <- <-]).
    destruct (loop w1 sid session car l1 schedule) as [[[w2 l2] t2] x2] eqn:Hl.
    apply IH in Hl. intros [= <- <- <- <-]. rewrite settlements_app. lia.
  - apply IH.
Qed.

(** What the [finally] block does to a session that is still registered:
    whatever status the service or the loop has given it ([stopped] and
    [completed] are written by no code), one call of
    [end_charging_session] with reason [connection_lost]. *)
Lemma cleanup_registered w session_id l s :
  active_sessions w !! session_id = Some s →
  ActiveSession.charging_status s ∉ ["stopped"; "completed"] →
  ∃ ok w2,
    cleanup w session_id l =
      (w2, [Settlement session_id (Locals.current_kwh l) (Locals.current_cost l)
              "connection_lost" ok]) ∧
    (ok = true →
       active_sessions w2 !! session_id = None ∧
       ∀ row port,
         charging_sessions w !! session_id = Some row →
         ports w !! ChargingSession.port_id row = Some port →
         Port.id port = ChargingSession.port_id row →
         ports w2 !! ChargingSession.port_id row =
           Some (Port.with_status "Available" port)) ∧
    (ok = false →
       is_Some (active_sessions w2 !! session_id) ∧
       ports w2 = ports w ∧ charging_sessions w2 = charging_sessions w).
Proof.
  intros Hs Hst. unfold cleanup, get_session_status. rewrite Hs.
  rewrite bool_decide_eq_false_2 by done.
  destruct (update_charging_status_registered w session_id (Locals.current_kwh l)
              "interrupted" (Locals.charging_power l) (Locals.current_cost l) s Hs)
    as (w1 & s1 & -> & Hs1 & _ & Hpo & _ & Hro).
  destruct (end_charging_session w1 session_id _ _ _ _) as [ok w2] eqn:He.
  exists ok, w2. split; [done|]. split; intros ->.
  - apply end_charging_session_done in He as [Hrem Hport]. split; [done|].
    intros row port Hrow Hp Hid. apply Hport; [by rewrite Hro | by rewrite Hpo | done].
  - apply end_charging_session_failed in He as (Ha & Hr & Hp).
    rewrite Ha, Hs1, Hp, Hr. eauto.
Qed.

(** The [try] block makes no settlement with reason [connection_lost]. *)
Lemma try_block_no_connection_lost w session_id session car l schedule w1 l1 trace x :
  try_block w session_id session car l schedule = (w1, l1, trace, x) →
  settlements session_id "connection_lost" (trace ++ except_handler session_id l1 x) = O.
Proof.
  unfold try_block. destruct (item _) as [t|]; [|by intros [= <- <- <- <-]].
  destruct (loop _ _ _ _ _ _) as [[[w0 l0] t0] x0] eqn:Hl.
  apply loop_no_connection_lost in Hl. intros [= <- <- <- <-].
  rewrite settlements_app.
  change (settlements session_id "connection_lost" (Send _ :: t0))
    with (settlements session_id "connection_lost" t0).
  rewrite Hl. by destruct x0 as [| |e []].
Qed.

(** A run of the handler that gets to its [try] block: the [try] block,
    the error frame if there is one to send, then the [finally] block. *)
Lemma charging_socket_unfold w user_id session_id schedule session car_id car w1 l1 trace x :
  get_session_status w session_id = Some session →
  ActiveSession.user_id session = user_id →
  ActiveSession.car_id session = Some car_id →
  cars w !! car_id = Some car →
  try_block w session_id session car (initial_locals session car) schedule =
    (w1, l1, trace, x) →
  charging_socket w (ValidToken user_id) session_id schedule =
    let '(w2, ev') := cleanup w1 session_id l1 in
    (w2, trace ++ except_handler session_id l1 x ++ ev').
Proof.
  intros Hs Hu Hcar Hc Htry.
  unfold charging_socket. rewrite Hs, Hu, Z.eqb_refl, Hcar. simpl.
  unfold CarsService.get. rewrite Hc, Htry. done.
Qed.

(** C1, at the failing input.  The loop marks a session that has reached
    a termination test [done] and settles it; the [finally] block skips
    the sessions marked [stopped] or [completed], statuses that nothing
    writes, and not those marked [done].  So whenever the [try] block of a
    run leaves the session in the registry with status [done] (its
    settlement has failed), the [finally] block marks it [interrupted] and
    settles it a second time, with reason [connection_lost]. *)
Theorem done_session_settled_again (w : World) (user_id session_id : Z)
    (schedule : list Step) (session : ActiveSession.t) (car_id : Z) (car : Car.t)
    (w1 : World) (l1 : Locals.t) (trace : list Event) (x : Exit) (s : ActiveSession.t) :
  get_session_status w session_id = Some session →
  ActiveSession.user_id session = user_id →
  ActiveSession.car_id session = Some car_id →
  cars w !! car_id = Some car →
  try_block w session_id session car (initial_locals session car) schedule =
    (w1, l1, trace, x) →
  active_sessions w1 !! session_id = Some s →
  ActiveSession.charging_status s = "done" →
  ∃ w2 s2 ok w3,
    update_charging_status w1 session_id (Locals.current_kwh l1) "interrupted"
      (Locals.charging_power l1) (Locals.current_cost l1) = (true, w2) ∧
    active_sessions w2 !! session_id = Some s2 ∧
    ActiveSession.charging_status s2 = "interrupted" ∧
    end_charging_session w2 session_id (Locals.current_kwh l1) (Locals.current_cost l1)
      (Some "connection_lost") None = (ok, w3) ∧
    charging_socket w (ValidToken user_id) session_id schedule =
      (w3,
       trace ++ except_handler session_id l1 x ++
         [Settlement session_id (Locals.current_kwh l1) (Locals.current_cost l1)
            "connection_lost" ok]) ∧
    settlements session_id "connection_lost"
      (trace ++ except_handler session_id l1 x ++
         [Settlement session_id (Locals.current_kwh l1) (Locals.current_cost l1)
            "connection_lost" ok]) = 1%nat.
Proof.
  intros Hs Hu Hcar Hc Htry Hs1 Hdone.
  pose proof (try_block_no_connection_lost _ _ _ _ _ _ _ _ _ _ Htry) as Htrace.
  rewrite (charging_socket_unfold _ _ _ _ _ _ _ _ _ _ _ Hs Hu Hcar Hc Htry).
  unfold cleanup, get_session_status. rewrite Hs1, Hdone.
  rewrite bool_decide_eq_false_2 by (intros [?|[?|[]%elem_of_nil]%elem_of_cons]%elem_of_cons;
                                     discriminate).
  destruct (update_charging_status_registered w1 session_id (Locals.current_kwh l1)
              "interrupted" (Locals.charging_power l1) (Locals.current_cost l1) s Hs1)
    as (w2 & s2 & Hupd & Hs2 & Hst2 & _).
  rewrite Hupd.
  destruct (end_charging_session w2 session_id _ _ _ _) as [ok w3] eqn:He.
  exists w2, s2, ok, w3. split_and!; try done.
  rewrite app_assoc, settlements_app, Htrace.
  unfold settlements. simpl. by rewrite Z.eqb_refl.
Qed.

(** Session 1 has the target 1 kWh and carries the code [SUMMER], whose
    row has an expiry date.  The first pass reaches the target: the loop
    marks the session [done] and calls the settlement, which fails
    ([apply_discount] raises on the dated row), sends [charging_completed]
    and stops.  The [finally] block finds the session registered with
    status [done] and settles it again. *)
Lemma done_session_settled_again_witness :
  let w := charging_world 1 (Some "SUMMER") in
  let session := sample_session 1 (Some "SUMMER") in
  let car := Car.mk 3 50 11 in
  let '(w1, l1, trace, x) :=
    try_block w 1 session car (initial_locals session car) [Tick (MeterOk 1) true] in
  ActiveSession.charging_status <$> active_sessions w1 !! 1 = Some "done" ∧
  x = Break ∧
  snd (charging_socket w (ValidToken 7) 1 [Tick (MeterOk 1) true]) =
    [Send (WsChargingStarted 1 11 1 2 50);
     Send (WsChargingUpdate 1 (0 + 1) 11 (py_min 100 ((0 + 1) / 50 * 100)) (25 + 0.1)
             (0 + 1 * 2) 1 (Some (1 - (0 + 1))%Q));
     Settlement 1 (0 + 1) (0 + 1 * 2) "target_reached" false;
     Send (WsChargingCompleted 1 (0 + 1) (0 + 1 * 2) "target_reached"
             (py_min 100 ((0 + 1) / 50 * 100)));
     Settlement 1 (0 + 1) (0 + 1 * 2) "connection_lost" false] ∧
  settlements 1 "connection_lost"
    (snd (charging_socket w (ValidToken 7) 1 [Tick (MeterOk 1) true])) = 1%nat ∧
  ActiveSession.charging_status <$>
    active_sessions (fst (charging_socket w (ValidToken 7) 1 [Tick (MeterOk 1) true])) !! 1
    = Some "interrupted".
Proof.
  intros w session car.
  destruct (try_block w 1 session car (initial_locals session car) [Tick (MeterOk 1) true])
    as [[[w1 l1] trace] x] eqn:Htry.
  assert (Hw : w1 = fst (fst (fst (try_block w 1 session car (initial_locals session car)
                                     [Tick (MeterOk 1) true]))))
    by (by rewrite Htry).
  assert (Hx : x = snd (try_block w 1 session car (initial_locals session car)
                          [Tick (MeterOk 1) true]))
    by (by rewrite Htry).
  assert (Hst : ActiveSession.charging_status <$> active_sessions w1 !! 1 = Some "done")
    by (rewrite Hw; reflexivity).
  split; [exact Hst|]. split; [rewrite Hx; reflexivity|].
  split; [reflexivity|].
  destruct (active_sessions w1 !! 1) as [s|] eqn:Hs1; [|discriminate Hst].
  injection Hst as Hst.
  destruct (done_session_settled_again w 7 1 [Tick (MeterOk 1) true] session 3 car
              w1 l1 trace x s eq_refl eq_refl eq_refl eq_refl Htry Hs1 Hst)
    as (w2 & s2 & ok & w3 & _ & _ & _ & _ & Hsock & Hone).
  split; [rewrite Hsock; exact Hone|]. reflexivity.
Defined.

End Telemetry.

(** ** Payments *)

Section Payment.
Import ChargingSessionsService.

(** A payment that succeeds: the discount stage, then the transaction,
    which the database has accepted, then the debit. *)
Lemma process_payment_unfold w session_id final_cost code c w' :
  process_payment w session_id final_cost code = (c, true, w') →
  ∃ session car w1,
    active_sessions w !! session_id = Some session ∧
    ActiveSession.car_id session = Some car ∧
    (ports w1 = ports w ∧ stations w1 = stations w ∧ users w1 = users w ∧
     cars w1 = cars w ∧ charging_sessions w1 = charging_sessions w ∧
     transactions w1 = transactions w ∧ active_sessions w1 = active_sessions w ∧
     clock w1 = clock w) ∧
    ((truthy_str code = false ∧ c = final_cost ∧ w1 = w) ∨
     (truthy_str code = true ∧
      ∃ a m st,
        DiscountService.apply_discount w final_cost (default "" code) = Ok (a, m, st, w1) ∧
        c = if bool_decide (st = SUCCESS) then a else final_cost)) ∧
    w' = snd (UsersService.update_balance
                (with_transactions
                   (fun l =>
                      l ++ [Transaction.mk (next_id (Transaction.id <$> transactions w1))
                              (ActiveSession.user_id session)
                              (ActiveSession.station_id session) car (- c)%Q "Payment"])
                   w1)
                (ActiveSession.user_id session) (- c)%Q) ∧
    (foreign_keys w = true →
     referenced_rows_exist w (ActiveSession.user_id session)
       (ActiveSession.station_id session) car = true).
Proof.
  intros H.
  destruct (active_sessions w !! session_id) as [s|] eqn:Hs.
  2:{ revert H. unfold process_payment. rewrite Hs. intros [=]. }
  destruct (ActiveSession.car_id s) as [car|] eqn:Hcar.
  2:{ revert H. unfold process_payment. rewrite Hs, Hcar. simpl.
      destruct (truthy_str code); simpl; [|intros [=]].
      destruct (DiscountService.apply_discount _ _ _) as [[[[a m] st] w1]|]; simpl;
        intros [=]. }
  destruct (process_payment_cases w session_id final_cost code s car Hs Hcar)
    as [(_ & _ & Hp)|(c1 & w1 & Hst & Hp)]; [rewrite Hp in H; discriminate H|].
  assert (Hframe : ports w1 = ports w ∧ stations w1 = stations w ∧ users w1 = users w ∧
                   cars w1 = cars w ∧ charging_sessions w1 = charging_sessions w ∧
                   transactions w1 = transactions w ∧
                   active_sessions w1 = active_sessions w ∧ clock w1 = clock w).
  { destruct Hst as [(_ & _ & ->)|(_ & a & m & st & Hd & _)]; [done|].
    by apply apply_discount_frame in Hd. }
  assert (Hfk : foreign_keys w1 = foreign_keys w).
  { destruct Hst as [(_ & _ & ->)|(_ & a & m & st & Hd & _)]; [done|].
    by apply apply_discount_foreign_keys in Hd. }
  destruct (create_transaction_cases w1 (ActiveSession.user_id s)
              (ActiveSession.station_id s) car (- c1)%Q "Payment")
    as [(_ & _ & Hc)|(Hok & Hc)]; rewrite Hc in Hp; simpl in Hp; rewrite Hp in H;
    [discriminate H|].
  injection H as <- <-. exists s, car, w1. split_and!; try done; try apply Hframe.
  intros Hw. destruct Hok as [Hok|Hok]; [congruence|].
  destruct Hframe as (_ & Hst1 & Hus1 & Hca1 & _).
  unfold referenced_rows_exist in *. by rewrite <- Hst1, <- Hus1, <- Hca1.
Qed.

(** The amount after the discount stage of a payment. *)
Lemma discount_stage_amount w final_cost code c w1 :
  (truthy_str code = false ∧ c = final_cost ∧ w1 = w) ∨
  (truthy_str code = true ∧
   ∃ a m st,
     DiscountService.apply_discount w final_cost (default "" code) = Ok (a, m, st, w1) ∧
     c = if bool_decide (st = SUCCESS) then a else final_cost) →
  c = final_cost ∨
  ∃ d, d ∈ discounts w ∧ c = (final_cost * (1 - Discount.value d / 100))%Q.
Proof.
  intros [(_ & -> & _)|(_ & a & m & st & Hd & ->)]; [by left|].
  apply apply_discount_cases in Hd as [Hr|(i&d&_&Hi&_&[[_ Hr]|[_ Hr]])]; simplify_eq.
  - left. by rewrite bool_decide_eq_false_2.
  - left. by rewrite bool_decide_eq_false_2.
  - right. exists d. split; [by eapply list_elem_of_lookup_2|].
    by rewrite bool_decide_eq_true_2.
Qed.

(** X1.  A payment that succeeds has called [create_transaction] and
    [update_balance] with the same amount, the amount charged negated;
    the amount charged is the cost given or that cost reduced by a
    discount.  The database has accepted the transaction (where it checks
    foreign keys, the user, the station and the car of the session exist),
    and this transaction, of type [Payment] for that user, station and
    car, is the one row appended.  Only the row of that user can have
    changed: it keeps its id and its points, and for a charge that is not
    negative its balance has not grown; a user who has no row is debited
    nothing. *)
Theorem process_payment_books (w : World) (session_id : Z) (final_cost : Q)
    (code : option string) (c : Q) (w' : World) :
  process_payment w session_id final_cost code = (c, true, w') →
  ∃ session car w1 payment w2,
    active_sessions w !! session_id = Some session ∧
    ActiveSession.car_id session = Some car ∧
    (c = final_cost ∨
     ∃ d, d ∈ discounts w ∧ c = (final_cost * (1 - Discount.value d / 100))%Q) ∧
    users w1 = users w ∧ transactions w1 = transactions w ∧
    TransactionService.create_transaction w1 (ActiveSession.user_id session)
      (ActiveSession.station_id session) car (- c)%Q "Payment" = Ok (payment, w2) ∧
    w' = snd (UsersService.update_balance w2 (ActiveSession.user_id session) (- c)%Q) ∧
    (foreign_keys w = true →
       is_Some (users w !! ActiveSession.user_id session) ∧
       is_Some (stations w !! ActiveSession.station_id session) ∧
       is_Some (cars w !! car)) ∧
    transactions w' = transactions w ++ [payment] ∧
    Transaction.id payment = next_id (Transaction.id <$> transactions w) ∧
    Transaction.user_id payment = ActiveSession.user_id session ∧
    Transaction.station_id payment = ActiveSession.station_id session ∧
    Transaction.car_id payment = car ∧
    Transaction.type payment = "Payment" ∧
    (∀ user, users w !! ActiveSession.user_id session = Some user →
       ∃ user',
         users w' !! ActiveSession.user_id session = Some user' ∧
         User.id user' = User.id user ∧
         User.points user' = User.points user ∧
         ((0 <= c)%Q → (User.balance user' <= User.balance user)%Q)) ∧
    (users w !! ActiveSession.user_id session = None → users w' = users w) ∧
    (∀ u, u ≠ ActiveSession.user_id session → users w' !! u = users w !! u).
Proof.
  intros H.
  destruct (active_sessions w !! session_id) as [s|] eqn:Hs.
  2:{ revert H. unfold process_payment. rewrite Hs. intros [=]. }
  destruct (ActiveSession.car_id s) as [car|] eqn:Hcar.
  2:{ revert H. unfold process_payment. rewrite Hs, Hcar. simpl.
      destruct (truthy_str code); simpl; [|intros [=]].
      destruct (DiscountService.apply_discount _ _ _) as [[[[a m] st] w1]|]; simpl;
        intros [=]. }
  destruct (process_payment_cases w session_id final_cost code s car Hs Hcar)
    as [(_ & _ & Hp)|(c1 & w1 & Hstage & Hp)]; [rewrite Hp in H; discriminate H|].
  assert (Hframe : stations w1 = stations w ∧ users w1 = users w ∧ cars w1 = cars w ∧
                   transactions w1 = transactions w ∧ foreign_keys w1 = foreign_keys w).
  { destruct Hstage as [(_ & _ & ->)|(_ & a & m & st & Hd & _)]; [done|].
    pose proof (apply_discount_foreign_keys _ _ _ _ _ _ _ Hd).
    apply apply_discount_frame in Hd as (?&?&?&?&?&?&?&?). done. }
  destruct Hframe as (Hst & Hu & Hca & Ht & Hfk).
  apply discount_stage_amount in Hstage.
  destruct (create_transaction_cases w1 (ActiveSession.user_id s)
              (ActiveSession.station_id s) car (- c1)%Q "Payment")
    as [(_ & _ & Hc)|(Hok & Hc)]; rewrite Hc in Hp; simpl in Hp; rewrite Hp in H;
    [discriminate H|].
  injection H as <- <-.
  exists s, car, w1. eexists _, _.
  split; [done|]. split; [done|]. split; [done|]. split; [done|]. split; [done|].
  split; [exact Hc|]. split; [done|].
  split.
  { intros Hw. destruct Hok as [Hok|Hok]; [congruence|].
    unfold referenced_rows_exist in Hok. rewrite Hst, Hu, Hca in Hok.
    apply andb_prop in Hok as [[H1 H2]%andb_prop H3].
    by apply bool_decide_eq_true in H1, H2, H3. }
  unfold UsersService.update_balance. simpl. rewrite Hu, Ht.
  destruct (users w !! ActiveSession.user_id s) as [usr|] eqn:Husr; simpl.
  - rewrite ?Hu, ?Ht. split_and!; try done.
    + intros user [= <-]. eexists. split; [apply lookup_insert_eq|]. simpl.
      split_and!; try done. intros Hpos. lra.
    + intros u Hne. by rewrite lookup_insert_ne.
  - rewrite ?Hu, ?Ht. split_and!; done.
Qed.

(** Session 1 pays 20: [create_transaction] and [update_balance] are
    called with -20; the transaction is for user 7, station 1 and car 3,
    whose rows exist; user 7 keeps 0 points and has no more than the 100
    they had, user 8 is untouched. *)
Lemma process_payment_books_witness :
  ∃ w' payment user',
    process_payment (charging_world 10 None) 1 20 None = (20%Q, true, w') ∧
    transactions w' = [payment] ∧
    (Transaction.id payment, Transaction.user_id payment, Transaction.station_id payment,
     Transaction.car_id payment, Transaction.type payment) = (1, 7, 1, 3, "Payment") ∧
    is_Some (cars (charging_world 10 None) !! 3) ∧
    users w' !! 7 = Some user' ∧
    User.points user' = Some 0 ∧
    (User.balance user' <= 100)%Q ∧
    users w' !! 8 = Some (User.mk 8 5 (Some 0)).
Proof.
  assert (He : ∃ w', process_payment (charging_world 10 None) 1 20 None = (20%Q, true, w'))
    by (eexists; reflexivity).
  destruct He as [w' He]. exists w'.
  destruct (process_payment_books (charging_world 10 None) 1 20 None 20 w' He)
    as (s & car & w1 & payment & w2 & Hs & Hcar & _ & _ & _ & _ & _ & Hfk & Ht
        & Hid & Hpu & Hps & Hpc & Hpt & Hu & _ & Ho).
  injection Hs as <-. injection Hcar as <-.
  destruct (Hu (User.mk 7 100 (Some 0)) eq_refl) as (user' & Hu' & _ & Hp & Hb).
  exists payment, user'. split; [exact He|]. split; [exact Ht|].
  split; [by rewrite Hid, Hpu, Hps, Hpc, Hpt|].
  split; [apply (Hfk eq_refl)|]. split; [exact Hu'|]. split; [exact Hp|].
  split; [apply Hb; discriminate|].
  rewrite (Ho 8) by discriminate. reflexivity.
Defined.

(** A settlement that succeeds, in full. *)
Lemma end_charging_session_success w session_id final_energy final_cost reason code w' :
  end_charging_session w session_id final_energy final_cost reason code = (true, w') →
  ∃ session row car c w0,
    active_sessions w !! session_id = Some session ∧
    charging_sessions w !! session_id = Some row ∧
    ActiveSession.car_id session = Some car ∧
    ((truthy_str (settlement_code session code) = false ∧ c = final_cost ∧ w0 = w) ∨
     (truthy_str (settlement_code session code) = true ∧
      ∃ a m st,
        DiscountService.apply_discount w final_cost
          (default "" (settlement_code session code)) = Ok (a, m, st, w0) ∧
        c = if bool_decide (st = SUCCESS) then a else final_cost)) ∧
    discounts w' = discounts w0 ∧
    stations w' = stations w ∧ cars w' = cars w ∧ clock w' = clock w ∧
    transactions w' =
      transactions w ++
        [Transaction.mk (next_id (Transaction.id <$> transactions w))
           (ActiveSession.user_id session) (ActiveSession.station_id session) car
           (- c)%Q "Payment"] ∧
    charging_sessions w' =
      <[session_id :=
          ChargingSession.mk (ChargingSession.id row) (ChargingSession.user_id row)
            (ChargingSession.port_id row) (ChargingSession.car_id row)
            (ChargingSession.started_on row) (Some (clock w)) (Some final_energy)
            (ChargingSession.power_limit row) (Some c)]> (charging_sessions w) ∧
    active_sessions w' = delete session_id (active_sessions w) ∧
    users w' =
      match users w !! ActiveSession.user_id session with
      | Some usr =>
          <[ActiveSession.user_id session :=
              User.mk (User.id usr) (User.balance usr + - c)%Q (User.points usr)]> (users w)
      | None => users w
      end ∧
    ports w' =
      match ports w !! ChargingSession.port_id row with
      | Some p =>
          match ports w !! Port.id p with
          | Some p' => <[Port.id p := Port.with_status "Available" p']> (ports w)
          | None => ports w
          end
      | None => ports w
      end.
Proof.
  unfold end_charging_session.
  destruct (active_sessions w !! session_id) as [s|] eqn:Hs; [|intros [=]].
  destruct (item _); [|intros [=]].
  destruct (process_payment _ _ _ _) as [[c ok] w1] eqn:Hp.
  destruct ok; simpl; [|intros [=]].
  apply process_payment_unfold in Hp
    as (s' & car & w0 & Hs' & Hcar & (Hpo&Hst&Hu&Hca&Hr&Ht&Ha&Hcl) & Hc & -> & _).
  rewrite Hs in Hs'. injection Hs' as <-.
  unfold end_session, UsersService.update_balance, TransactionService.create_transaction.
  simpl. rewrite Hu.
  destruct (users w !! ActiveSession.user_id s) as [usr|] eqn:Husr; simpl;
    rewrite Hr; (destruct (charging_sessions w !! session_id) as [row|] eqn:Hrow;
                 [|intros [=]]);
    intros [= <-]; exists s, row, car, c, w0;
    (split; [done|]); (split; [done|]); (split; [done|]); (split; [done|]);
    unfold PortService.get, PortService.update_status; simpl;
    rewrite Hpo;
    (destruct (ports w !! ChargingSession.port_id row) as [p|]; simpl;
     [rewrite ?Hpo; destruct (ports w !! Port.id p); simpl|]);
    rewrite ?Ht, ?Hr, ?Ha, ?Hcl, ?Hu, ?Hpo, ?Husr; done.
Qed.

(** X2.  A settlement that succeeds: one [Payment] transaction is appended for
    the user of the session; the row of the session gets the clock as its
    end timestamp, the energy given and, as its cost, the amount of that
    transaction; the session leaves the registry; no other row and no
    other registry entry changes.  The amount is the cost given, or that
    cost reduced by a discount. *)
Theorem settlement_closes_session (w : World) (session_id : Z) (final_energy final_cost : Q)
    (reason code : option string) (w' : World) :
  end_charging_session w session_id final_energy final_cost reason code = (true, w') →
  ∃ session row car c,
    active_sessions w !! session_id = Some session ∧
    charging_sessions w !! session_id = Some row ∧
    transactions w' =
      transactions w ++
        [Transaction.mk (next_id (Transaction.id <$> transactions w))
           (ActiveSession.user_id session) (ActiveSession.station_id session) car
           (- c)%Q "Payment"] ∧
    charging_sessions w' =
      <[session_id :=
          ChargingSession.mk (ChargingSession.id row) (ChargingSession.user_id row)
            (ChargingSession.port_id row) (ChargingSession.car_id row)
            (ChargingSession.started_on row) (Some (clock w)) (Some final_energy)
            (ChargingSession.power_limit row) (Some c)]> (charging_sessions w) ∧
    active_sessions w' = delete session_id (active_sessions w) ∧
    (c = final_cost ∨
     ∃ d, d ∈ discounts w ∧ c = (final_cost * (1 - Discount.value d / 100))%Q).
Proof.
  intros H. apply end_charging_session_success in H
    as (s & row & car & c & w0 & Hs & Hrow & _ & Hc & _ & _ & _ & _ & Ht & Hr & Ha & _).
  apply discount_stage_amount in Hc. by exists s, row, car, c.
Qed.

Lemma settlement_closes_session_witness :
  ∃ w' car c,
    end_charging_session (charging_world 10 None) 1 10 20 (Some "target_reached") None =
      (true, w') ∧
    transactions w' = [Transaction.mk 1 7 1 car (- c)%Q "Payment"] ∧
    charging_sessions w' !! 1 =
      Some (ChargingSession.mk 1 7 1 (Some 3) (Some 1750000000000) (Some 1750000000000)
              (Some 10%Q) (Some 11%Q) (Some c)) ∧
    active_sessions w' !! 1 = None.
Proof.
  assert (He : ∃ w', end_charging_session (charging_world 10 None) 1 10 20
                       (Some "target_reached") None = (true, w'))
    by (eexists; reflexivity).
  destruct He as [w' He]. exists w'.
  destruct (settlement_closes_session (charging_world 10 None) 1 10 20
              (Some "target_reached") None w' He)
    as (s & row & car & c & Hs & Hrow & Ht & Hr & Ha & _).
  injection Hs as <-. injection Hrow as <-. exists car, c.
  split; [exact He|]. split; [exact Ht|].
  split; [rewrite Hr; apply lookup_insert_eq | rewrite Ha; apply lookup_delete_eq].
Defined.

End Payment.

(** ** Stopping and access *)

Section Access.
Import ChargingSessionsService.

(** X3.  Once the stop endpoint has answered 200 for a session, any further
    stop request for it, by anyone, is answered 400 and changes
    nothing. *)
Theorem stop_charging_once (w : World) (user_id session_id : Z) (w1 : World) :
  stop_charging w user_id session_id = (200, w1) →
  active_sessions w1 !! session_id = None ∧
  ∀ user_id', stop_charging w1 user_id' session_id = (400, w1).
Proof.
  unfold stop_charging at 1. unfold get_session_status.
  destruct (active_sessions w !! session_id) as [s|] eqn:Hs; [|intros [=]].
  destruct (negb _); [intros [=]|].
  destruct (end_charging_session _ _ _ _ _ _) as [ok w'] eqn:He.
  destruct ok; simpl; [|intros [=]]. intros [= <-].
  apply end_charging_session_removes in He.
  split; [done|]. intros u. unfold stop_charging, get_session_status. by rewrite He.
Qed.

Lemma stop_charging_once_witness :
  ∃ w1,
    stop_charging (charging_world 10 None) 7 1 = (200, w1) ∧
    active_sessions w1 !! 1 = None ∧
    stop_charging w1 7 1 = (400, w1).
Proof.
  assert (He : ∃ w1, stop_charging (charging_world 10 None) 7 1 = (200, w1))
    by (eexists; reflexivity).
  destruct He as [w1 He]. exists w1.
  destruct (stop_charging_once _ _ _ _ He) as [Ha Hstop].
  split; [exact He|]. split; [exact Ha | apply Hstop].
Defined.

(** X4.  A user who is not the owner of a registered session can neither stop
    it, nor start it, nor open its telemetry socket: each request is
    refused and leaves the state as it was. *)
Theorem foreign_session_refused (w : World) (session_id user_id : Z)
    (session : ActiveSession.t) :
  active_sessions w !! session_id = Some session →
  ActiveSession.user_id session ≠ user_id →
  stop_charging w user_id session_id = (400, w) ∧
  (∀ target_kwh car_id discount_code,
     start_charging w session_id user_id target_kwh car_id discount_code =
       (false, 0%Q, MsgNoSessionOrWrongUser, w)) ∧
  (∀ schedule,
     charging_socket w (ValidToken user_id) session_id schedule =
       (w, [Send (WsError ErrNoAccess)])).
Proof.
  intros Hs Hne.
  assert (Hneq : negb (ActiveSession.user_id session =? user_id) = true).
  { apply negb_true_iff, Z.eqb_neq. done. }
  unfold stop_charging, start_charging, charging_socket, get_session_status.
  rewrite Hs, Hneq. done.
Qed.

Lemma foreign_session_refused_witness :
  stop_charging (charging_world 10 None) 8 1 = (400, charging_world 10 None) ∧
  start_charging (charging_world 10 None) 1 8 5 3 None =
    (false, 0%Q, MsgNoSessionOrWrongUser, charging_world 10 None) ∧
  charging_socket (charging_world 10 None) (ValidToken 8) 1 [Tick (MeterOk 1) true] =
    (charging_world 10 None, [Send (WsError ErrNoAccess)]).
Proof.
  destruct (foreign_session_refused (charging_world 10 None) 1 8 (sample_session 10 None)
              eq_refl ltac:(discriminate)) as (H1 & H2 & H3).
  split; [exact H1|]. split; [apply H2 | apply H3].
Defined.

End Access.

(** ** What each operation leaves alone *)

Section Frames.
Import ChargingSessionsService.

Lemma update_charging_status_frame w sid kwh st pw c :
  let w' := snd (update_charging_status w sid kwh st pw c) in
  ports w' = ports w ∧ stations w' = stations w ∧ cars w' = cars w ∧
  discounts w' = discounts w ∧ charging_sessions w' = charging_sessions w ∧
  transactions w' = transactions w ∧ clock w' = clock w ∧
  (∀ k, k ≠ sid → active_sessions w' !! k = active_sessions w !! k) ∧
  (active_sessions w !! sid = None → w' = w) ∧
  (∀ s, active_sessions w !! sid = Some s →
     (∃ s', active_sessions w' !! sid = Some s' ∧
        ActiveSession.session_id s' = ActiveSession.session_id s ∧
        ActiveSession.user_id s' = ActiveSession.user_id s ∧
        ActiveSession.car_id s' = ActiveSession.car_id s ∧
        ActiveSession.charging_status s' = st) ∧
     (∀ u, u ≠ ActiveSession.user_id s → users w' !! u = users w !! u)) ∧
  (∀ u usr, users w !! u = Some usr →
     ∃ usr', users w' !! u = Some usr' ∧ User.balance usr' = User.balance usr ∧
       default 0 (User.points usr) <= default 0 (User.points usr')) ∧
  (∀ u, users w !! u = None → users w' !! u = None).
Proof.
  intros w'. subst w'.
  destruct (active_sessions w !! sid) as [s|] eqn:Hs.
  2:{ unfold update_charging_status. rewrite Hs. simpl. split_and!; eauto; try done.
      intros u usr Hu. exists usr. split_and!; [done|done|lia]. }
  rewrite (update_charging_status_unfold _ _ _ _ _ _ _ Hs). simpl.
  destruct (0 <? _) eqn:Hpts; simpl.
  - apply Z.ltb_lt in Hpts. unfold UsersService.add_points. simpl.
    destruct (users w !! ActiveSession.user_id s) as [usr0|] eqn:Hu0; simpl.
    + split_and!; try done.
      * intros k Hk. by rewrite lookup_insert_ne.
      * intros s0 [= <-]. split; [eexists; rewrite lookup_insert_eq; done|].
        intros u Hne. by rewrite lookup_insert_ne.
      * intros u usr Hu. destruct (decide (u = ActiveSession.user_id s)) as [->|Hne].
        -- rewrite lookup_insert_eq. simplify_eq. eexists. split_and!; [done|done|].
           simpl. lia.
        -- rewrite lookup_insert_ne by done. exists usr. split_and!; [done|done|lia].
      * intros u Hu. destruct (decide (u = ActiveSession.user_id s)) as [->|Hne];
          [congruence|]. by rewrite lookup_insert_ne.
    + split_and!; try done.
      * intros k Hk. by rewrite lookup_insert_ne.
      * intros s0 [= <-]. split; [eexists; rewrite lookup_insert_eq; done|done].
      * intros u usr Hu. exists usr. split_and!; [done|done|lia].
  - split_and!; try done.
    + intros k Hk. by rewrite lookup_insert_ne.
    + intros s0 [= <-]. split; [eexists; rewrite lookup_insert_eq; done|done].
    + intros u usr Hu. exists usr. split_and!; [done|done|lia].
Qed.

(** What a settlement does to the accounts: nothing, or one [Payment]
    transaction for the user of the session and the same amount on the
    balance of that user. *)
Lemma end_charging_session_accounts w sid e c r code b w' :
  end_charging_session w sid e c r code = (b, w') →
  stations w' = stations w ∧ cars w' = cars w ∧ clock w' = clock w ∧
  ((users w' = users w ∧ transactions w' = transactions w) ∨
   (∃ s car amount,
      active_sessions w !! sid = Some s ∧
      transactions w' =
        transactions w ++
          [Transaction.mk (next_id (Transaction.id <$> transactions w))
             (ActiveSession.user_id s) (ActiveSession.station_id s) car amount "Payment"] ∧
      users w' =
        match users w !! ActiveSession.user_id s with
        | Some usr =>
            <[ActiveSession.user_id s :=
                User.mk (User.id usr) (User.balance usr + amount)%Q (User.points usr)]>
              (users w)
        | None => users w
        end)).
Proof.
  unfold end_charging_session.
  destruct (active_sessions w !! sid) as [s|] eqn:Hs; [|intros [= <- <-]; by auto 10].
  destruct (ActiveSession.car_id s) as [car0|] eqn:Hcar0; simpl;
    [|intros [= <- <-]; by auto 10].
  destruct (process_payment _ _ _ _) as [[c1 ok] w1] eqn:Hp.
  destruct ok; simpl.
  - apply process_payment_unfold in Hp
      as (s' & car & w0 & Hs' & Hcar & (Hpo&Hst&Hu&Hca&Hr&Ht&Ha&Hcl) & Hc & -> & _).
    rewrite Hs in Hs'. injection Hs' as <-.
    assert (Hacc : ∀ w2,
      users w2 = users (snd (UsersService.update_balance
                (with_transactions
                   (fun l =>
                      l ++ [Transaction.mk (next_id (Transaction.id <$> transactions w0))
                              (ActiveSession.user_id s) (ActiveSession.station_id s)
                              car (- c1)%Q "Payment"])
                   w0)
                (ActiveSession.user_id s) (- c1)%Q)) →
      transactions w2 = transactions w0 ++
          [Transaction.mk (next_id (Transaction.id <$> transactions w0))
             (ActiveSession.user_id s) (ActiveSession.station_id s) car (- c1)%Q "Payment"] →
      ∃ s0 car1 amount,
        Some s = Some s0 ∧
        transactions w2 =
          transactions w ++
            [Transaction.mk (next_id (Transaction.id <$> transactions w))
               (ActiveSession.user_id s0) (ActiveSession.station_id s0) car1 amount
               "Payment"] ∧
        users w2 =
          match users w !! ActiveSession.user_id s0 with
          | Some usr =>
              <[ActiveSession.user_id s0 :=
                  User.mk (User.id usr) (User.balance usr + amount)%Q (User.points usr)]>
                (users w)
          | None => users w
          end).
    { intros w2 Hu2 Ht2. exists s, car, (- c1)%Q. split; [done|].
      rewrite Ht2, Hu2, Ht. split; [done|].
      unfold UsersService.update_balance. simpl. rewrite Hu.
      destruct (users w !! ActiveSession.user_id s); simpl; rewrite ?Hu; done. }
    unfold end_session.
    destruct (charging_sessions _ !! sid) as [row|]; intros [= <- <-].
    + split_and!.
      * unfold PortService.get, PortService.update_status. simpl.
        destruct (ports _ !! _) as [p|]; simpl; [destruct (ports _ !! _); simpl|];
          unfold UsersService.update_balance; simpl; destruct (users w0 !! _); done.
      * unfold PortService.get, PortService.update_status. simpl.
        destruct (ports _ !! _) as [p|]; simpl; [destruct (ports _ !! _); simpl|];
          unfold UsersService.update_balance; simpl; destruct (users w0 !! _); done.
      * unfold PortService.get, PortService.update_status. simpl.
        destruct (ports _ !! _) as [p|]; simpl; [destruct (ports _ !! _); simpl|];
          unfold UsersService.update_balance; simpl; destruct (users w0 !! _); done.
      * right. apply Hacc.
        -- unfold PortService.get, PortService.update_status. simpl.
           destruct (ports _ !! _) as [p|]; simpl; [destruct (ports _ !! _); simpl|]; done.
        -- unfold PortService.get, PortService.update_status. simpl.
           destruct (ports _ !! _) as [p|]; simpl; [destruct (ports _ !! _); simpl|];
             unfold UsersService.update_balance; simpl; destruct (users w0 !! _); done.
    + split_and!;
        try (unfold UsersService.update_balance; simpl; destruct (users w0 !! _); done).
      right. apply Hacc; [done|].
      unfold UsersService.update_balance; simpl; destruct (users w0 !! _); done.
  - intros [= <- <-].
    pose proof (process_payment_failed _ _ _ _ _ _ Hp) as [? ?].
    apply process_payment_frame in Hp as (_ & _ & _ & ? & ? & ? & _). by auto 10.
Qed.

(** [next_id] is above every id of the table. *)
Lemma next_id_fresh (ids : list Z) (x : Z) : x ∈ ids → x < next_id ids.
Proof.
  destruct ids as [|i r]; [by intros ?%elem_of_nil|].
  unfold next_id. intros Hx.
  enough (x <= fold_right Z.max i r) by lia.
  induction r as [|a r IH]; simpl.
  - apply list_elem_of_singleton in Hx. lia.
  - apply elem_of_cons in Hx as [->|Hx]; [|apply elem_of_cons in Hx as [->|Hx]].
    + assert (i <= fold_right Z.max i r) by (clear; induction r; simpl; lia). lia.
    + lia.
    + assert (x <= fold_right Z.max i r) by (apply IH; set_solver). lia.
Qed.

Lemma next_id_unused {A} (m : gmap Z A) : m !! next_id ((map_to_list m).*1) = None.
Proof.
  destruct (m !! next_id _) as [a|] eqn:H; [|done].
  apply elem_of_map_to_list in H.
  assert (Hin : next_id ((map_to_list m).*1) ∈ (map_to_list m).*1).
  { apply list_elem_of_fmap. by exists (next_id ((map_to_list m).*1), a). }
  apply next_id_fresh in Hin. lia.
Qed.

(** The three ways [initialize_charging] can go. *)
Lemma initialize_charging_unfold w user_id port_id :
  let new_id := next_id ((map_to_list (charging_sessions w)).*1) in
  let row :=
    ChargingSession.mk new_id user_id port_id None (Some (clock w)) None None None None in
  match ports w !! port_id with
  | None => initialize_charging w user_id port_id = (None, w)
  | Some port =>
      let w1 :=
        with_ports (fun m => <[port_id := Port.with_status "InUse" port]> m)
          (with_charging_sessions (fun m => <[new_id := row]> m) w) in
      match stations w !! Port.station_id port with
      | None => initialize_charging w user_id port_id = (None, w1)
      | Some station =>
          let e :=
            ActiveSession.mk new_id user_id port_id (Station.id station)
              (Port.max_power port) (Station.price_per_kwh station)
              (Port.connector_type port) "initialized" (clock w) 0 0 0
              None None None None None in
          initialize_charging w user_id port_id =
            (Some e, with_active_sessions (fun m => <[new_id := e]> m) w1)
      end
  end.
Proof.
  unfold initialize_charging, PortService.get, StationService.get, create_session,
    PortService.update_status.
  destruct (ports w !! port_id) as [port|] eqn:Hp; simpl; [|done].
  rewrite Hp. simpl.
  destruct (stations w !! Port.station_id port) as [station|]; simpl; done.
Qed.

End Frames.

(** ** Initialization, continued *)

Section InitializeMore.
Import ChargingSessionsService.

(** What a successful [initialize_charging] has registered. *)
Lemma initialize_charging_registers w user_id port_id e w' :
  initialize_charging w user_id port_id = (Some e, w') →
  charging_sessions w !! ActiveSession.session_id e = None ∧
  active_sessions w' !! ActiveSession.session_id e = Some e ∧
  ActiveSession.user_id e = user_id ∧
  ActiveSession.charging_status e = "initialized" ∧
  ActiveSession.car_id e = None ∧
  charging_sessions w' !! ActiveSession.session_id e =
    Some (ChargingSession.mk (ActiveSession.session_id e) user_id port_id None
            (Some (clock w)) None None None None).
Proof.
  pose proof (initialize_charging_unfold w user_id port_id) as H. simpl in H.
  destruct (ports w !! port_id) as [port|] eqn:Hp; [|rewrite H; intros [=]].
  destruct (stations w !! Port.station_id port) as [station|] eqn:Hst;
    [|rewrite H; intros [=]].
  rewrite H. intros [= <- <-]. simpl.
  split; [apply next_id_unused|].
  split; [apply lookup_insert_eq|].
  split_and!; try done. apply lookup_insert_eq.
Qed.

(** X5.  A session that [initialize_charging] registers gets an id that no row
    of the table has: it is registered with status [initialized] for the
    caller and the port, at the price of the station of the port; its row
    is new and open; the port is [InUse]; and every other row and every
    other registry entry is as it was. *)
Theorem initialize_charging_fresh (w : World) (user_id port_id : Z)
    (e : ActiveSession.t) (w' : World) :
  initialize_charging w user_id port_id = (Some e, w') →
  charging_sessions w !! ActiveSession.session_id e = None ∧
  active_sessions w' !! ActiveSession.session_id e = Some e ∧
  ActiveSession.user_id e = user_id ∧
  ActiveSession.port_id e = port_id ∧
  ActiveSession.charging_status e = "initialized" ∧
  ActiveSession.car_id e = None ∧
  (∃ port station,
     ports w !! port_id = Some port ∧
     stations w !! Port.station_id port = Some station ∧
     ActiveSession.price_per_kwh e = Station.price_per_kwh station ∧
     ports w' = <[port_id := Port.with_status "InUse" port]> (ports w)) ∧
  charging_sessions w' !! ActiveSession.session_id e =
    Some (ChargingSession.mk (ActiveSession.session_id e) user_id port_id None
            (Some (clock w)) None None None None) ∧
  (∀ k, k ≠ ActiveSession.session_id e →
     charging_sessions w' !! k = charging_sessions w !! k ∧
     active_sessions w' !! k = active_sessions w !! k).
Proof.
  pose proof (initialize_charging_unfold w user_id port_id) as H. simpl in H.
  destruct (ports w !! port_id) as [port|] eqn:Hp; [|rewrite H; intros [=]].
  destruct (stations w !! Port.station_id port) as [station|] eqn:Hst;
    [|rewrite H; intros [=]].
  rewrite H. intros [= <- <-]. simpl.
  split; [apply next_id_unused|].
  split; [apply lookup_insert_eq|].
  split_and!; try done.
  - by exists port, station.
  - apply lookup_insert_eq.
  - intros k Hk. by rewrite !lookup_insert_ne.
Qed.

Lemma initialize_charging_fresh_witness :
  ∃ e w',
    initialize_charging idle_world 8 1 = (Some e, w') ∧
    charging_sessions idle_world !! ActiveSession.session_id e = None ∧
    active_sessions w' !! ActiveSession.session_id e = Some e ∧
    ActiveSession.charging_status e = "initialized".
Proof.
  assert (He : ∃ e w', initialize_charging idle_world 8 1 = (Some e, w'))
    by (eexists _, _; reflexivity).
  destruct He as (e & w' & He). exists e, w'.
  destruct (initialize_charging_fresh _ _ _ _ _ He) as (H1 & H2 & _ & _ & H3 & _).
  split; [exact He|]. split; [exact H1|]. split; [exact H2 | exact H3].
Defined.

(** X6.  A port whose station is missing: [initialize_charging] answers [None]
    and registers nothing, but it has by then written a new open session
    row and set the port to [InUse]. *)
Theorem initialize_charging_without_station (w : World) (user_id port_id : Z)
    (port : Port.t) :
  ports w !! port_id = Some port →
  stations w !! Port.station_id port = None →
  ∃ w' k row,
    initialize_charging w user_id port_id = (None, w') ∧
    active_sessions w' = active_sessions w ∧
    ports w' !! port_id = Some (Port.with_status "InUse" port) ∧
    charging_sessions w !! k = None ∧
    charging_sessions w' !! k = Some row ∧
    ChargingSession.user_id row = user_id ∧
    ChargingSession.port_id row = port_id ∧
    ChargingSession.end_on row = None.
Proof.
  intros Hp Hst.
  pose proof (initialize_charging_unfold w user_id port_id) as H. simpl in H.
  rewrite Hp, Hst in H. rewrite H.
  eexists _, (next_id ((map_to_list (charging_sessions w)).*1)), _.
  split; [reflexivity|]. simpl.
  split; [done|]. split; [apply lookup_insert_eq|].
  split; [apply next_id_unused|]. split; [apply lookup_insert_eq|]. done.
Qed.

Lemma initialize_charging_without_station_witness :
  let w := with_stations (fun _ => ∅) idle_world in
  ∃ w' k row,
    initialize_charging w 8 1 = (None, w') ∧
    active_sessions w' = active_sessions w ∧
    ports w' !! 1 = Some (Port.mk 1 1 22 "Type2" "InUse") ∧
    charging_sessions w' !! k = Some row ∧
    ChargingSession.end_on row = None.
Proof.
  intros w.
  destruct (initialize_charging_without_station w 8 1 (Port.mk 1 1 22 "Type2" "Available")
              eq_refl eq_refl) as (w' & k & row & H1 & H2 & H3 & _ & H4 & _ & _ & H5).
  exists w', k, row. repeat split; assumption.
Defined.

End InitializeMore.

(** ** Starting a charge, continued *)

Section StartMore.
Import ChargingSessionsService.

Lemma py_min_le (a b : Q) : (py_min a b <= a)%Q ∧ (py_min a b <= b)%Q.
Proof.
  unfold py_min. destruct (Qle_bool a b) eqn:E.
  - apply Qle_bool_iff in E. split; [apply Qle_refl | done].
  - split; [|apply Qle_refl].
    apply Qlt_le_weak, Qnot_le_lt. intros H. apply Qle_bool_iff in H. congruence.
Qed.

(** A start that succeeds, in full. *)
Lemma start_charging_success w session_id user_id target_kwh car_id discount_code
    est msg w' :
  start_charging w session_id user_id target_kwh car_id discount_code
    = (true, est, msg, w') →
  ∃ session user car w0,
    active_sessions w !! session_id = Some session ∧
    ActiveSession.user_id session = user_id ∧
    users w !! user_id = Some user ∧
    cars w !! car_id = Some car ∧
    ((truthy_str discount_code = false ∧
      est = (target_kwh * ActiveSession.price_per_kwh session)%Q ∧ w0 = w) ∨
     (truthy_str discount_code = true ∧
      ∃ m, DiscountService.apply_discount w
             (target_kwh * ActiveSession.price_per_kwh session)%Q
             (default "" discount_code) = Ok (est, m, SUCCESS, w0))) ∧
    Qltb (User.balance user) est = false ∧
    msg = MsgChargingStarted ∧
    w' =
      with_active_sessions
        (fun m =>
           <[session_id :=
               ActiveSession.set_charging car_id target_kwh est
                 (if truthy_str discount_code then discount_code else None) session]> m)
        match charging_sessions w0 !! session_id with
        | Some cs =>
            with_charging_sessions
              (fun m =>
                 <[session_id :=
                     ChargingSession.mk (ChargingSession.id cs) (ChargingSession.user_id cs)
                       (ChargingSession.port_id cs) (Some car_id)
                       (ChargingSession.started_on cs) (ChargingSession.end_on cs)
                       (ChargingSession.energy_consumed cs)
                       (Some (py_min (ActiveSession.max_power session)
                                (Car.max_charging_power car)))
                       (ChargingSession.cost cs)]> m) w0
        | None => w0
        end.
Proof.
  assert (Hfunded : ∀ w0 s e code,
    users w0 = users w → cars w0 = cars w →
    start_charging_funded w0 session_id user_id s target_kwh car_id e code
      = (true, est, msg, w') →
    ∃ user car,
      users w !! user_id = Some user ∧ cars w !! car_id = Some car ∧
      e = est ∧ Qltb (User.balance user) est = false ∧ msg = MsgChargingStarted ∧
      w' =
        with_active_sessions
          (fun m =>
             <[session_id := ActiveSession.set_charging car_id target_kwh est code s]> m)
          match charging_sessions w0 !! session_id with
          | Some cs =>
              with_charging_sessions
                (fun m =>
                   <[session_id :=
                       ChargingSession.mk (ChargingSession.id cs)
                         (ChargingSession.user_id cs)
                         (ChargingSession.port_id cs) (Some car_id)
                         (ChargingSession.started_on cs) (ChargingSession.end_on cs)
                         (ChargingSession.energy_consumed cs)
                         (Some (py_min (ActiveSession.max_power s)
                                  (Car.max_charging_power car)))
                         (ChargingSession.cost cs)]> m) w0
          | None => w0
          end).
  { intros w0 s e code Hu Hc.
    unfold start_charging_funded, UsersService.get, CarsService.get.
    rewrite Hu, Hc.
    destruct (users w !! user_id) as [user|]; simpl; [|intros [=]].
    destruct (Qltb (User.balance user) e) eqn:Hb.
    { destruct (PortService.update_status _ _ _). intros [=]. }
    destruct (cars w !! car_id) as [car|].
    2:{ destruct (PortService.update_status _ _ _). intros [=]. }
    intros [= <- <- <-]. exists user, car. split_and!; try done. }
  unfold start_charging, get_session_status.
  destruct (active_sessions w !! session_id) as [s|] eqn:Hs; [|intros [=]].
  destruct (Z.eqb_spec (ActiveSession.user_id s) user_id) as [Hu|]; simpl; [|intros [=]].
  destruct (truthy_str discount_code) eqn:Hcode.
  - destruct (DiscountService.apply_discount _ _ _) as [[[[e m] st] w0]|] eqn:Hd;
      [|intros [=]].
    destruct (decide (st = SUCCESS)) as [->|Hst].
    2:{ rewrite bool_decide_eq_true_2 by done.
        destruct (PortService.update_status _ _ _). intros [=]. }
    rewrite bool_decide_eq_false_2 by (intros H; by apply H).
    pose proof (apply_discount_frame _ _ _ _ _ _ _ Hd) as (_&_&Hus&Hca&_).
    intros H. apply Hfunded in H as (user & car & Huser & Hcar & -> & Hb & -> & ->);
      [|done|done].
    exists s, user, car, w0. split_and!; try done. right. split; [done|]. by exists m.
  - intros H. apply Hfunded in H as (user & car & Huser & Hcar & <- & Hb & -> & ->);
      [|done|done].
    exists s, user, car, w. split_and!; try done. by left.
Qed.

(** Whatever [start_charging] answers, it charges nothing; when it answers
    failure, the registry and the session rows are as they were. *)
Lemma start_charging_frame w session_id user_id target_kwh car_id discount_code
    ok est msg w' :
  start_charging w session_id user_id target_kwh car_id discount_code
    = (ok, est, msg, w') →
  users w' = users w ∧ transactions w' = transactions w ∧ stations w' = stations w ∧
  cars w' = cars w ∧ clock w' = clock w ∧
  (ok = false →
     active_sessions w' = active_sessions w ∧ charging_sessions w' = charging_sessions w).
Proof.
  destruct ok.
  - intros H. apply start_charging_success in H
      as (s & user & car & w0 & Hs & Hu & Huser & Hcar & Hstage & Hb & -> & ->).
    assert (users w0 = users w ∧ transactions w0 = transactions w ∧
            stations w0 = stations w ∧ cars w0 = cars w ∧ clock w0 = clock w)
      as (?&?&?&?&?).
    { destruct Hstage as [(_&_&->)|(_&m&Hd)]; [done|].
      apply apply_discount_frame in Hd as (?&?&?&?&?&?&?&?). done. }
    destruct (charging_sessions w0 !! session_id); simpl; split_and!; done.
  - assert (Hfunded : ∀ w0 s e code,
      start_charging_funded w0 session_id user_id s target_kwh car_id e code
        = (false, est, msg, w') →
      users w' = users w0 ∧ transactions w' = transactions w0 ∧ stations w' = stations w0 ∧
      cars w' = cars w0 ∧ clock w' = clock w0 ∧
      active_sessions w' = active_sessions w0 ∧ charging_sessions w' = charging_sessions w0).
    { intros w0 s e code. unfold start_charging_funded, UsersService.get, CarsService.get,
        PortService.update_status.
      destruct (users w0 !! user_id) as [user|]; simpl; [|by intros [= _ _ <-]].
      destruct (Qltb _ _).
      { destruct (ports w0 !! _); intros [= _ _ <-]; done. }
      destruct (cars w0 !! car_id); [intros [=]|].
      destruct (ports w0 !! _); intros [= _ _ <-]; done. }
    unfold start_charging, get_session_status.
    destruct (active_sessions w !! session_id) as [s|] eqn:Hs; [|by intros [= _ _ <-]].
    destruct (negb _); [by intros [= _ _ <-]|].
    destruct (truthy_str discount_code) eqn:Hcode.
    + destruct (DiscountService.apply_discount _ _ _) as [[[[e m] st] w0]|] eqn:Hd;
        [|by intros [= _ _ <-]].
      pose proof (apply_discount_frame _ _ _ _ _ _ _ Hd) as (?&?&?&?&?&?&?&?).
      destruct (bool_decide _).
      * unfold PortService.update_status.
        destruct (ports w0 !! _); intros [= _ _ <-]; simpl; split_and!; done.
      * intros H'. apply Hfunded in H' as (?&?&?&?&?&?&?).
        split_and!; try congruence. intros _. split; congruence.
    + intros H'. apply Hfunded in H' as (?&?&?&?&?&?&?). split_and!; done.
Qed.

(** X7.  A start that succeeds: the session is the caller's, the car exists,
    and the balance of the caller covers the estimate, which is the target
    at the price of the session, reduced by a discount when a code was
    applied.  The registry entry moves to [charging] with the car, the
    target and the estimate; the row of the session gets the car and, as
    its power limit, the lower of what the port and the car can take.
    Nothing is charged. *)
Theorem start_charging_started (w : World) (session_id user_id : Z) (target_kwh : Q)
    (car_id : Z) (discount_code : option string) (est : Q) (msg : StartMessage)
    (w' : World) :
  start_charging w session_id user_id target_kwh car_id discount_code
    = (true, est, msg, w') →
  ∃ session user car s',
    active_sessions w !! session_id = Some session ∧
    ActiveSession.user_id session = user_id ∧
    users w !! user_id = Some user ∧
    cars w !! car_id = Some car ∧
    (est <= User.balance user)%Q ∧
    (est = (target_kwh * ActiveSession.price_per_kwh session)%Q ∨
     ∃ d, d ∈ discounts w ∧
          est = (target_kwh * ActiveSession.price_per_kwh session
                 * (1 - Discount.value d / 100))%Q) ∧
    active_sessions w' !! session_id = Some s' ∧
    ActiveSession.charging_status s' = "charging" ∧
    ActiveSession.car_id s' = Some car_id ∧
    ActiveSession.target_kwh s' = Some target_kwh ∧
    ActiveSession.estimated_cost s' = Some est ∧
    (∀ row, charging_sessions w !! session_id = Some row →
       ∃ limit,
         charging_sessions w' !! session_id =
           Some (ChargingSession.mk (ChargingSession.id row) (ChargingSession.user_id row)
                   (ChargingSession.port_id row) (Some car_id)
                   (ChargingSession.started_on row) (ChargingSession.end_on row)
                   (ChargingSession.energy_consumed row) (Some limit)
                   (ChargingSession.cost row)) ∧
         (limit <= ActiveSession.max_power session)%Q ∧
         (limit <= Car.max_charging_power car)%Q) ∧
    users w' = users w ∧ transactions w' = transactions w.
Proof.
  intros H. pose proof (start_charging_frame _ _ _ _ _ _ _ _ _ _ H) as (Hus & Htr & _).
  apply start_charging_success in H
    as (s & user & car & w0 & Hs & Hu & Huser & Hcar & Hstage & Hb & -> & ->).
  eexists s, user, car, _. split_and!; try done.
  - unfold Qltb in Hb. apply negb_false_iff in Hb. by apply Qle_bool_iff.
  - destruct Hstage as [(_&->&_)|(_&m&Hd)]; [by left|].
    apply apply_discount_cases in Hd as [Hr|(i&d&_&Hi&_&[[_ Hr]|[_ Hr]])]; simplify_eq.
    right. exists d. split; [by eapply list_elem_of_lookup_2|done].
  - simpl. apply lookup_insert_eq.
  - done.
  - done.
  - done.
  - done.
  - intros row Hrow.
    assert (charging_sessions w0 = charging_sessions w) as Hr.
    { destruct Hstage as [(_&_&->)|(_&m&Hd)]; [done|].
      by apply apply_discount_frame in Hd as (?&?&?&?&?&?&?&?). }
    rewrite Hr, Hrow. simpl. eexists. split; [apply lookup_insert_eq|].
    apply py_min_le.
Qed.

Lemma start_charging_started_witness :
  ∃ est msg w' s',
    start_charging initialized_world 1 8 2 3 None = (true, est, msg, w') ∧
    (est <= 5)%Q ∧
    active_sessions w' !! 1 = Some s' ∧
    ActiveSession.charging_status s' = "charging" ∧
    users w' = users initialized_world.
Proof.
  assert (He : ∃ est msg w',
             start_charging initialized_world 1 8 2 3 None = (true, est, msg, w'))
    by (eexists _, _, _; reflexivity).
  destruct He as (est & msg & w' & He).
  destruct (start_charging_started _ _ _ _ _ _ _ _ _ He)
    as (s & user & car & s' & _ & _ & Hu & _ & Hle & _ & Ha & Hst & _ & _ & _ & _ & Hus & _).
  injection Hu as <-.
  exists est, msg, w', s'. split; [exact He|]. split; [exact Hle|].
  split; [exact Ha|]. split; [exact Hst | exact Hus].
Defined.

End StartMore.

(** ** The start request of a client *)

Section StartMessage.
Import ChargingSessionsService.

Lemma start_charging_message_unfold w user_id params :
  truthy_int (sp_car_id params) && truthy_Q (sp_target_kwh params)
    && truthy_int (sp_port_id params) = true →
  start_charging_message w user_id params =
    match initialize_charging w user_id (default 0 (sp_port_id params)) with
    | (None, w1) => (StartNotInitialized, w1)
    | (Some session, w1) =>
        let r := start_charging w1 (ActiveSession.session_id session) user_id
                   (default 0%Q (sp_target_kwh params)) (default 0 (sp_car_id params))
                   (sp_discount_code params) in
        if fst (fst (fst r))
        then (StartInitialized (ActiveSession.session_id session), snd r)
        else (StartRejected (ActiveSession.session_id session) (snd (fst r)), snd r)
    end.
Proof.
  intros H. unfold start_charging_message. rewrite H. simpl.
  destruct (initialize_charging _ _ _) as [[e|] w1]; [|done].
  by destruct (start_charging _ _ _ _ _ _) as [[[[] ?] ?] ?].
Qed.

(** X8.  A start request that is rejected (unknown or used-up code, balance too
    low, unknown car, ...) leaves behind the session it has just
    registered: status [initialized], no car, an open row.  That session
    cannot be removed any more: the stop endpoint answers 400, the
    telemetry socket ends at once, and every settlement fails, all without
    changing the state. *)
Theorem rejected_start_leaves_session (w : World) (user_id : Z) (params : StartParams)
    (session_id : Z) (message : StartMessage) (w' : World) :
  start_charging_message w user_id params = (StartRejected session_id message, w') →
  (∃ e row,
     charging_sessions w !! session_id = None ∧
     active_sessions w' !! session_id = Some e ∧
     ActiveSession.user_id e = user_id ∧
     ActiveSession.charging_status e = "initialized" ∧
     ActiveSession.car_id e = None ∧
     charging_sessions w' !! session_id = Some row ∧
     ChargingSession.end_on row = None) ∧
  stop_charging w' user_id session_id = (400, w') ∧
  (∀ schedule,
     charging_socket w' (ValidToken user_id) session_id schedule = (w', [])) ∧
  (∀ final_energy final_cost reason code,
     end_charging_session w' session_id final_energy final_cost reason code = (false, w')).
Proof.
  destruct (truthy_int (sp_car_id params) && truthy_Q (sp_target_kwh params)
            && truthy_int (sp_port_id params)) eqn:Hp.
  2:{ unfold start_charging_message. rewrite Hp. intros [=]. }
  rewrite (start_charging_message_unfold _ _ _ Hp).
  destruct (initialize_charging _ _ _) as [[e|] w1] eqn:Hi; [|intros [=]].
  destruct (start_charging _ _ _ _ _ _) as [[[ok est] msg] w2] eqn:Hs. simpl.
  destruct ok; intros [= <- <- <-].
  apply initialize_charging_registers in Hi
    as (Hfresh & He & Hu & Hst & Hcar & Hrow).
  apply start_charging_frame in Hs as (_ & _ & _ & _ & _ & Hf).
  destruct (Hf eq_refl) as [Ha Hr].
  assert (Hreg : active_sessions w2 !! ActiveSession.session_id e = Some e)
    by (by rewrite Ha).
  split_and!.
  - exists e, (ChargingSession.mk (ActiveSession.session_id e) user_id
                 (default 0 (sp_port_id params)) None (Some (clock w)) None None None None).
    split_and!; try done. by rewrite Hr.
  - unfold stop_charging, get_session_status. rewrite Hreg, Hu, Z.eqb_refl. simpl.
    unfold end_charging_session. by rewrite Hreg, Hcar.
  - intros schedule. unfold charging_socket, get_session_status.
    by rewrite Hreg, Hu, Z.eqb_refl, Hcar.
  - intros. unfold end_charging_session. by rewrite Hreg, Hcar.
Qed.

(** User 8, whose balance is 5, asks for 10 kWh at 2 per kWh. *)
Lemma rejected_start_leaves_session_witness :
  ∃ session_id message w',
    start_charging_message idle_world 8 (mkStartParams (Some 3) (Some 10%Q) (Some 1) None)
      = (StartRejected session_id message, w') ∧
    is_Some (active_sessions w' !! session_id) ∧
    stop_charging w' 8 session_id = (400, w').
Proof.
  assert (He : ∃ session_id message w',
    start_charging_message idle_world 8 (mkStartParams (Some 3) (Some 10%Q) (Some 1) None)
      = (StartRejected session_id message, w'))
    by (eexists _, _, _; reflexivity).
  destruct He as (sid & m & w' & He). exists sid, m, w'.
  destruct (rejected_start_leaves_session _ _ _ _ _ _ He)
    as ((e & row & _ & Ha & _) & Hstop & _).
  split; [exact He|]. split; [by exists e | exact Hstop].
Defined.

End StartMessage.

(** ** A discount code over the life of a session *)

Section DiscountTwice.
Import ChargingSessionsService.

(** A row without expiry date that has not reached its bound is
    applied. *)
Lemma apply_discount_accepted w amount code i d :
  DiscountService.find_by_code code (discounts w) = Some i →
  discounts w !! i = Some d →
  truthy_int (Discount.expiry_on d) = false →
  DiscountService.max_uses_reached d = false →
  DiscountService.apply_discount w amount code =
    Ok ((amount * (1 - Discount.value d / 100))%Q, MsgCodeApplied, SUCCESS,
        with_discounts (fun ds => <[i := DiscountService.bump_usage d]> ds) w).
Proof.
  intros Hf Hd He Hm.
  unfold DiscountService.apply_discount, DiscountService.apply_discount_body.
  rewrite Hf, Hd, He. simpl. by rewrite Hm.
Qed.

(** Applications of discount codes write the discount rows only. *)
Lemma apply_discounts_frame calls : ∀ w,
  ports (apply_discounts w calls) = ports w ∧
  users (apply_discounts w calls) = users w ∧
  charging_sessions (apply_discounts w calls) = charging_sessions w ∧
  transactions (apply_discounts w calls) = transactions w ∧
  active_sessions (apply_discounts w calls) = active_sessions w.
Proof.
  induction calls as [|[a c] calls IH]; intros w; simpl; [done|].
  destruct (DiscountService.apply_discount w a c) as [[[[? ?] ?] w']|] eqn:Hd; [|apply IH].
  apply apply_discount_frame in Hd as (Hpo & _ & Hu & _ & Hr & Ht & Ha & _).
  destruct (IH w') as (-> & -> & -> & -> & ->). done.
Qed.

(** X9.  A code given to [start_charging] is applied to the estimate and
    stored on the session; a settlement that is not given a code applies
    the stored one again, to the row as it is by then, whatever
    applications of codes ([between]) other requests have made since the
    start.  The row has by then been used at least once more than before
    the start.  If that has exhausted it (as the use at the start has,
    when it was the last one allowed), the charge is billed the cost in
    full and the row is left as it is; if not, the cost is discounted
    again and the row is used once more. *)
Theorem discount_code_applied_twice (w : World) (session_id user_id : Z) (target_kwh : Q)
    (car_id : Z) (code : string) (est : Q) (msg : StartMessage) (w1 : World)
    (between : list (Q * string))
    (final_energy final_cost : Q) (reason : option string) (w2 : World) :
  code ≠ "" →
  start_charging w session_id user_id target_kwh car_id (Some code) = (true, est, msg, w1) →
  end_charging_session (apply_discounts w1 between) session_id final_energy final_cost
    reason None = (true, w2) →
  ∃ session i d d1 c,
    active_sessions w !! session_id = Some session ∧
    DiscountService.find_by_code code (discounts w) = Some i ∧
    discounts w !! i = Some d ∧
    est = (target_kwh * ActiveSession.price_per_kwh session
           * (1 - Discount.value d / 100))%Q ∧
    discounts w1 !! i = Some (DiscountService.bump_usage d) ∧
    discounts (apply_discounts w1 between) !! i = Some d1 ∧
    Discount.value d1 = Discount.value d ∧
    Discount.max_uses d1 = Discount.max_uses d ∧
    Discount.usage_count d + 1 <= Discount.usage_count d1 ∧
    transactions w2 =
      transactions w ++
        [Transaction.mk (next_id (Transaction.id <$> transactions w)) user_id
           (ActiveSession.station_id session) car_id (- c)%Q "Payment"] ∧
    ((DiscountService.max_uses_reached d1 = true ∧
      c = final_cost ∧
      discounts w2 !! i = Some d1) ∨
     (DiscountService.max_uses_reached d1 = false ∧
      c = (final_cost * (1 - Discount.value d / 100))%Q ∧
      discounts w2 !! i = Some (DiscountService.bump_usage d1))).
Proof.
  intros Hcode Hstart Hend.
  assert (Htruthy : truthy_str (Some code) = true).
  { simpl. apply negb_true_iff. by apply String.eqb_neq. }
  pose proof (start_charging_frame _ _ _ _ _ _ _ _ _ _ Hstart) as (_ & Htr & _).
  apply start_charging_success in Hstart
    as (s & user & car & w0 & Hs & Hu & Huser & Hcar & Hstage & Hb & -> & ->).
  destruct Hstage as [(Hn&_)|(_&m&Hd)]; [congruence|]. simpl in Hd.
  apply apply_discount_cases in Hd as [Hr|(i&d&Hf&Hi&He&[[_ Hr]|[Hm Hr]])];
    simplify_eq.
  rewrite Htruthy in Hend, Htr |- *.
  set (w0 := with_discounts (λ ds, <[i:=DiscountService.bump_usage d]> ds) w) in *.
  set (s1 := ActiveSession.set_charging car_id target_kwh
               (target_kwh * ActiveSession.price_per_kwh s * (1 - Discount.value d / 100))%Q
               (Some code) s) in *.
  set (w1 := with_active_sessions _ _) in *.
  assert (Hd1 : discounts w1 = <[i:=DiscountService.bump_usage d]> (discounts w)).
  { subst w1. by destruct (charging_sessions w0 !! session_id). }
  assert (Hs1 : active_sessions w1 !! session_id = Some s1).
  { subst w1. simpl. apply lookup_insert_eq. }
  assert (Hi1 : discounts w1 !! i = Some (DiscountService.bump_usage d)).
  { rewrite Hd1. apply list_lookup_insert_eq. by eapply lookup_lt_Some. }
  pose proof (apply_discounts_used_more between w1) as Hlater.
  pose proof (apply_discounts_frame between w1) as (_ & _ & _ & Htb & Hab).
  set (wb := apply_discounts w1 between) in *. clearbody wb.
  destruct (Forall2_lookup_l _ _ _ _ _ Hlater Hi1)
    as (d1 & Hib & _ & Hx & Hmu & Huse & _ & Hval).
  simpl in Hx, Hmu, Huse, Hval.
  assert (Hfb : DiscountService.find_by_code code (discounts wb) = Some i).
  { rewrite (used_more_find _ _ _ Hlater), Hd1.
    rewrite (used_more_find code (discounts w)); [done|]. by apply used_more_bump. }
  assert (Heb : truthy_int (Discount.expiry_on d1) = false) by (by rewrite <- Hx).
  assert (Hsb : active_sessions wb !! session_id = Some s1) by (by rewrite Hab).
  apply end_charging_session_success in Hend
    as (s' & row & car' & c & w3 & Hs' & _ & Hcar' & Hstage & Hdisc & _ & _ & _ & Ht & _).
  rewrite Hsb in Hs'. injection Hs' as <-.
  injection Hcar' as <-.
  exists s, i, d, d1, c. split_and!; try done; try (by symmetry).
  { rewrite Ht, Htb, Htr. done. }
  change (settlement_code s1 None) with (Some code) in Hstage.
  destruct Hstage as [(Hn&_)|(_&a&m'&st&Hd&->)]; [congruence|]. simpl in Hd.
  destruct (DiscountService.max_uses_reached d1) eqn:Hm2.
  - left. rewrite (apply_discount_exhausted _ _ _ _ _ Hfb Hib Heb Hm2) in Hd.
    injection Hd as <- <- <- <-. rewrite Hdisc. done.
  - right. rewrite (apply_discount_accepted _ _ _ _ _ Hfb Hib Heb Hm2) in Hd.
    injection Hd as <- <- <- <-. rewrite Hdisc. rewrite Hval. split_and!; try done.
    unfold with_discounts. cbn [discounts].
    apply list_lookup_insert_eq. by eapply lookup_lt_Some.
Qed.

(** [SAVE10] can be used once: user 7 starts a charge of 10 kWh with it
    (the estimate is 18); another request tries the code meanwhile; the
    settlement of a cost of 20 bills 20. *)
Lemma discount_code_applied_twice_witness :
  let w := snd (initialize_charging idle_world 7 1) in
  ∃ est msg w1 w2 station c,
    start_charging w 1 7 10 3 (Some "SAVE10") = (true, est, msg, w1) ∧
    est = (10 * 2 * (1 - 10 / 100))%Q ∧
    end_charging_session (apply_discounts w1 [(5%Q, "save10")]) 1 10 20
      (Some "target_reached") None = (true, w2) ∧
    transactions w2 = [Transaction.mk 1 7 station 3 (- c)%Q "Payment"] ∧
    c = 20%Q.
Proof.
  intros w.
  assert (Hs : ∃ est msg w1,
            start_charging w 1 7 10 3 (Some "SAVE10") = (true, est, msg, w1))
    by (eexists _, _, _; reflexivity).
  destruct Hs as (est & msg & w1 & Hs).
  assert (He : ∃ w2,
    end_charging_session
      (apply_discounts (snd (start_charging w 1 7 10 3 (Some "SAVE10"))) [(5%Q, "save10")])
      1 10 20 (Some "target_reached") None = (true, w2))
    by (eexists; reflexivity).
  assert (Hrow : (Discount.usage_count <$>
                    discounts (apply_discounts
                                 (snd (start_charging w 1 7 10 3 (Some "SAVE10")))
                                 [(5%Q, "save10")]) !! 0%nat) = Some 1)
    by reflexivity.
  rewrite Hs in He, Hrow. destruct He as (w2 & He).
  destruct (discount_code_applied_twice w 1 7 10 3 "SAVE10" est msg w1 [(5%Q, "save10")]
              10 20 (Some "target_reached") w2 ltac:(discriminate) Hs He)
    as (s & i & d & d1 & c & Ha & Hf & Hd & Hest & _ & Hd1 & _ & Hmu & _ & Ht & Hcase).
  assert (Hi : i = 0%nat) by (vm_compute in Hf; by injection Hf).
  rewrite Hi in Hd, Hd1. clear Hf Hi.
  vm_compute in Ha. injection Ha as <-.
  vm_compute in Hd. injection Hd as <-.
  exists est, msg, w1, w2, 1, c.
  split; [exact Hs|]. split; [exact Hest|].
  split; [exact He|]. split; [exact Ht|].
  destruct Hcase as [(_ & Hc & _)|(Hm & _)]; [exact Hc|].
  cbn [snd] in Hrow. rewrite Hd1 in Hrow. injection Hrow as Hrow.
  unfold DiscountService.max_uses_reached in Hm. rewrite Hmu, Hrow in Hm. discriminate Hm.
Defined.

End DiscountTwice.

(** ** Properties that a run of the telemetry socket preserves *)

Section SocketInvariant.
Import ChargingSessionsService.

Variable P : World → Prop.
Variable allowed : External → Prop.
Variable session_id : Z.

Hypothesis P_update : ∀ w kwh st pw c,
  P w → P (snd (update_charging_status w session_id kwh st pw c)).
Hypothesis P_end : ∀ w e c r code,
  P w → P (snd (end_charging_session w session_id e c r code)).
Hypothesis P_external : ∀ w r, allowed r → P w → P (external w r).

Ltac step_update HP :=
  match goal with
  | |- context [update_charging_status ?w session_id ?k ?st ?p ?c] =>
      let H := fresh "HP" in
      pose proof (P_update w k st p c HP) as H;
      destruct (update_charging_status w session_id k st p c) as [? ?];
      simpl in H
  end.

Ltac step_end HP :=
  match goal with
  | |- context [end_charging_session ?w session_id ?e ?c ?r ?code] =>
      let H := fresh "HP" in
      pose proof (P_end w e c r code HP) as H;
      destruct (end_charging_session w session_id e c r code) as [? ?];
      simpl in H
  end.

Lemma tick_preserves w session car l meter peer :
  P w → P (fst (fst (fst (tick w session_id session car l meter peer)))).
Proof.
  intros HP. unfold tick.
  destruct (check_charging_availability w session_id) as [can r].
  destruct can; simpl.
  - destruct meter; simpl; try done;
      (destruct (Qeq_bool _ _); [done|];
       destruct (item _) as [t|]; [|done];
       destruct peer; simpl; [|done];
       step_update HP;
       destruct (end_reason _ _ _ _); [|done];
       step_update HP0; step_end HP1; done).
  - destruct (bool_decide _); [done|].
    step_end HP. by destruct peer.
Qed.

Lemma loop_preserves schedule : ∀ w session car l,
  schedule_allows allowed schedule → P w →
  P (fst (fst (fst (loop w session_id session car l schedule)))).
Proof.
  induction schedule as [|[meter peer|r] schedule IH]; intros w session car l Hall HP;
    simpl; [done| |].
  - apply Forall_cons in Hall as [_ Hall].
    pose proof (tick_preserves w session car l meter peer HP) as Ht.
    destruct (tick w session_id session car l meter peer) as [[[w1 l1] t1] x1].
    simpl in Ht. destruct x1; try done.
    pose proof (IH w1 session car l1 Hall Ht) as Hl.
    by destruct (loop w1 session_id session car l1 schedule) as [[[w2 l2] t2] x2].
  - apply Forall_cons in Hall as [Hr Hall]. apply IH; [done|]. by apply P_external.
Qed.

Lemma cleanup_preserves w l : P w → P (fst (cleanup w session_id l)).
Proof.
  intros HP. unfold cleanup.
  destruct (get_session_status w session_id); [|done].
  destruct (bool_decide _); [done|].
  step_update HP. step_end HP0. done.
Qed.

Lemma charging_socket_preserves w token schedule :
  schedule_allows allowed schedule → P w →
  P (fst (charging_socket w token session_id schedule)).
Proof.
  intros Hall HP. unfold charging_socket.
  destruct token; try done.
  destruct (get_session_status w session_id) as [s|]; [|done].
  destruct (negb _); [done|].
  destruct (item _) as [car_id|]; [|done].
  destruct (CarsService.get w car_id) as [car|]; [|done].
  unfold try_block.
  destruct (item (ActiveSession.target_kwh s)) as [t|].
  - pose proof (loop_preserves schedule w s car (initial_locals s car) Hall HP) as Hl.
    destruct (loop _ _ _ _ _ _) as [[[w1 l1] t1] x1]. simpl in Hl.
    pose proof (cleanup_preserves w1 l1 Hl) as Hc.
    by destruct (cleanup w1 session_id l1).
  - pose proof (cleanup_preserves w (initial_locals s car) HP) as Hc.
    by destruct (cleanup w session_id _).
Qed.

End SocketInvariant.

(** ** Registered sessions are open sessions *)

Section RegisteredUnsettled.
Import ChargingSessionsService.

Lemma registered_unsettled_same w w' :
  active_sessions w' = active_sessions w → charging_sessions w' = charging_sessions w →
  registered_unsettled w → registered_unsettled w'.
Proof. intros Ha Hr H k s. rewrite Ha, Hr. apply H. Qed.

Lemma registered_unsettled_update w sid kwh st pw c :
  registered_unsettled w →
  registered_unsettled (snd (update_charging_status w sid kwh st pw c)).
Proof.
  intros H.
  pose proof (update_charging_status_frame w sid kwh st pw c)
    as (_&_&_&_&Hr&_&_&Hk&Hnone&Hsome&_). simpl in *.
  intros k s' Hs'. rewrite Hr.
  destruct (decide (k = sid)) as [->|Hne]; [|rewrite Hk in Hs' by done; by eapply H].
  destruct (active_sessions w !! sid) as [s|] eqn:Hs; [by eapply H|].
  rewrite Hnone in Hs' by done. congruence.
Qed.

Lemma registered_unsettled_end w sid e c r code :
  registered_unsettled w →
  registered_unsettled (snd (end_charging_session w sid e c r code)).
Proof.
  intros H. destruct (end_charging_session w sid e c r code) as [[] w'] eqn:He; simpl.
  - apply end_charging_session_success in He
      as (s & row & car & c' & w0 & _ & _ & _ & _ & _ & _ & _ & _ & _ & Hr & Ha & _).
    intros k s' Hs'. rewrite Ha in Hs'. rewrite Hr.
    destruct (decide (k = sid)) as [->|Hne]; [by rewrite lookup_delete_eq in Hs'|].
    rewrite lookup_delete_ne in Hs' by done. rewrite lookup_insert_ne by done.
    by eapply H.
  - apply end_charging_session_failed in He as (Ha & Hr & _).
    by eapply registered_unsettled_same.
Qed.

Lemma registered_unsettled_port w port_id status :
  registered_unsettled w →
  registered_unsettled (snd (PortService.update_status w port_id status)).
Proof.
  unfold PortService.update_status. destruct (ports w !! port_id); [|done].
  by apply registered_unsettled_same.
Qed.

Lemma registered_unsettled_station w station_id status :
  registered_unsettled w →
  registered_unsettled (StationService.update_status w station_id status).
Proof.
  unfold StationService.update_status. destruct (stations w !! station_id); [|done].
  by apply registered_unsettled_same.
Qed.

Lemma registered_unsettled_stop w user_id sid :
  registered_unsettled w → registered_unsettled (snd (stop_charging w user_id sid)).
Proof.
  intros H. unfold stop_charging.
  destruct (get_session_status w sid) as [s|]; [|done].
  destruct (negb _); [done|].
  pose proof (registered_unsettled_end w sid (ActiveSession.current_kwh s)
                (ActiveSession.current_cost s) (Some "user_stopped") None H) as He.
  destruct (end_charging_session _ _ _ _ _ _) as [[] w']; done.
Qed.

Lemma registered_unsettled_external w r :
  registered_unsettled w → registered_unsettled (external w r).
Proof.
  destruct r; simpl; auto using registered_unsettled_stop, registered_unsettled_port,
    registered_unsettled_station.
Qed.

Lemma registered_unsettled_initialize w user_id port_id :
  registered_unsettled w →
  registered_unsettled (snd (initialize_charging w user_id port_id)).
Proof.
  intros H.
  pose proof (initialize_charging_unfold w user_id port_id) as Hi. simpl in Hi.
  destruct (ports w !! port_id) as [port|]; [|by rewrite Hi].
  destruct (stations w !! Port.station_id port) as [station|]; rewrite Hi; simpl;
    intros k s'; simpl.
  - destruct (decide (k = next_id (map_to_list (charging_sessions w)).*1)) as [->|Hne].
    + rewrite !lookup_insert_eq. eauto.
    + rewrite !lookup_insert_ne by done. apply H.
  - destruct (decide (k = next_id (map_to_list (charging_sessions w)).*1)) as [->|Hne].
    + rewrite !lookup_insert_eq. eauto.
    + rewrite !lookup_insert_ne by done. apply H.
Qed.

Lemma registered_unsettled_start w sid user_id target_kwh car_id code :
  registered_unsettled w →
  registered_unsettled (snd (start_charging w sid user_id target_kwh car_id code)).
Proof.
  intros H.
  destruct (start_charging w sid user_id target_kwh car_id code)
    as [[[[] est] msg] w'] eqn:Hs; simpl.
  - apply start_charging_success in Hs
      as (s & user & car & w0 & Hs & _ & _ & _ & Hstage & _ & _ & ->).
    assert (charging_sessions w0 = charging_sessions w ∧
            active_sessions w0 = active_sessions w) as [Hr Ha].
    { destruct Hstage as [(_&_&->)|(_&m&Hd)]; [done|].
      by apply apply_discount_frame in Hd as (?&?&?&?&?&?&?&?). }
    destruct (H _ _ Hs) as (row & Hrow & Hopen).
    rewrite Hr, Hrow. intros k s'. simpl. rewrite Hr, Ha.
    destruct (decide (k = sid)) as [->|Hne].
    + rewrite !lookup_insert_eq. eauto.
    + rewrite !lookup_insert_ne by done. apply H.
  - apply start_charging_frame in Hs as (_&_&_&_&_&Hf).
    destruct (Hf eq_refl) as [Ha Hr]. by eapply registered_unsettled_same.
Qed.

Lemma registered_unsettled_start_message w user_id params :
  registered_unsettled w →
  registered_unsettled (snd (start_charging_message w user_id params)).
Proof.
  intros H.
  destruct (truthy_int (sp_car_id params) && truthy_Q (sp_target_kwh params)
            && truthy_int (sp_port_id params)) eqn:Hp.
  2:{ unfold start_charging_message. by rewrite Hp. }
  rewrite (start_charging_message_unfold _ _ _ Hp).
  pose proof (registered_unsettled_initialize w user_id (default 0 (sp_port_id params)) H)
    as Hi.
  destruct (initialize_charging _ _ _) as [[e|] w1]; [|done]. simpl in Hi.
  pose proof (registered_unsettled_start w1 (ActiveSession.session_id e) user_id
                (default 0%Q (sp_target_kwh params)) (default 0 (sp_car_id params))
                (sp_discount_code params) Hi) as Hs.
  destruct (start_charging _ _ _ _ _ _) as [[[[] ?] ?] ?]; done.
Qed.

Lemma registered_unsettled_apply_discounts calls : ∀ w,
  registered_unsettled w → registered_unsettled (apply_discounts w calls).
Proof.
  induction calls as [|[a c] calls IH]; intros w H; simpl; [done|].
  destruct (DiscountService.apply_discount w a c) as [[[[? ?] ?] w']|] eqn:Hd;
    [|by apply IH].
  apply IH. apply apply_discount_frame in Hd as (?&?&?&?&?&?&?&?).
  by eapply registered_unsettled_same.
Qed.

(** X10.  Whatever sequence of operations the charging core serves, every
    session of the registry has a row in the table and that row has no
    end timestamp: a session is never settled and still registered. *)
Theorem registered_sessions_are_open (w : World) (ops : list Op) :
  registered_unsettled w → registered_unsettled (run w ops).
Proof.
  revert w. induction ops as [|o ops IH]; intros w H; [done|].
  apply IH. destruct o; simpl.
  - by apply registered_unsettled_initialize.
  - by apply registered_unsettled_start.
  - by apply registered_unsettled_start_message.
  - by apply registered_unsettled_update.
  - by apply registered_unsettled_end.
  - by apply registered_unsettled_stop.
  - apply charging_socket_preserves with (allowed := fun _ => True); try done.
    + intros. by apply registered_unsettled_update.
    + intros. by apply registered_unsettled_end.
    + intros. by apply registered_unsettled_external.
    + by apply Forall_forall; intros [].
  - by apply registered_unsettled_port.
  - by apply registered_unsettled_station.
  - by apply (registered_unsettled_apply_discounts [(amount, code)]).
Qed.

(** User 7 starts a charge on port 1, the socket of the session runs until
    the client is gone, and user 8 scans port 2. *)
Lemma registered_sessions_are_open_witness :
  let ops :=
    [OpStartMessage 7 (mkStartParams (Some 3) (Some 10%Q) (Some 1) None);
     OpSocket (ValidToken 7) 1 [Tick (MeterOk 1) true; Tick (MeterOk 1) false];
     OpInitialize 8 2] in
  registered_unsettled idle_world ∧
  registered_unsettled (run idle_world ops) ∧
  active_sessions (run idle_world ops) !! 1 = None ∧
  is_Some (active_sessions (run idle_world ops) !! 2).
Proof.
  intros ops.
  assert (H : registered_unsettled idle_world).
  { intros k s Hk. simpl in Hk. rewrite lookup_empty in Hk. discriminate Hk. }
  split; [exact H|]. split; [exact (registered_sessions_are_open idle_world ops H)|].
  split; [vm_compute; reflexivity|]. vm_compute. eexists. reflexivity.
Defined.

End RegisteredUnsettled.

(** ** Balances follow the transactions *)

Section Ledger.
Import ChargingSessionsService.

Lemma ledger_refl w : ledger w w.
Proof.
  exists []. split; [by rewrite app_nil_r|]. split; [constructor|].
  intros u usr Hu. exists usr. split_and!; [done|done|lia].
Qed.

Lemma ledger_trans w1 w2 w3 : ledger w1 w2 → ledger w2 w3 → ledger w1 w3.
Proof.
  intros (n1 & Ht1 & Hp1 & H1) (n2 & Ht2 & Hp2 & H2). exists (n1 ++ n2).
  split; [by rewrite Ht2, Ht1, app_assoc|]. split; [by apply Forall_app|].
  intros u usr Hu. destruct (H1 _ _ Hu) as (usr1 & Hu1 & Hb1 & Hpt1).
  destruct (H2 _ _ Hu1) as (usr2 & Hu2 & Hb2 & Hpt2).
  exists usr2. split_and!; [done| |lia].
  intros [Hn1 Hn2]%Forall_app. by rewrite Hb2, Hb1.
Qed.

Lemma ledger_same w w' :
  users w' = users w → transactions w' = transactions w → ledger w w'.
Proof.
  intros Hu Ht. exists []. split; [by rewrite Ht, app_nil_r|]. split; [constructor|].
  intros u usr Husr. exists usr. rewrite Hu. split_and!; [done|done|lia].
Qed.

Lemma ledger_update w sid kwh st pw c :
  ledger w (snd (update_charging_status w sid kwh st pw c)).
Proof.
  pose proof (update_charging_status_frame w sid kwh st pw c)
    as (_&_&_&_&_&Ht&_&_&_&_&Hu&_). simpl in *.
  exists []. split; [by rewrite Ht, app_nil_r|]. split; [constructor|].
  intros u usr Husr. destruct (Hu _ _ Husr) as (usr' & Hu' & Hb & Hpt).
  exists usr'. split_and!; done.
Qed.

Lemma ledger_end w sid e c r code :
  ledger w (snd (end_charging_session w sid e c r code)).
Proof.
  destruct (end_charging_session w sid e c r code) as [b w'] eqn:He. simpl.
  apply end_charging_session_accounts in He
    as (_ & _ & _ & [[Hu Ht]|(s & car & amount & Hs & Ht & Hu)]);
    [by apply ledger_same|].
  eexists. split; [exact Ht|]. split; [by repeat constructor|].
  intros u usr Husr. rewrite Hu. simpl.
  destruct (Z.eqb_spec (ActiveSession.user_id s) u) as [->|Hne].
  - rewrite Husr, lookup_insert_eq. eexists. split_and!; [done| |simpl; lia].
    intros Hn. apply Forall_cons in Hn as [Hn _]. done.
  - exists usr. split_and!; [|done|lia].
    destruct (users w !! ActiveSession.user_id s); [|done].
    by rewrite lookup_insert_ne.
Qed.

Lemma ledger_stop w user_id sid : ledger w (snd (stop_charging w user_id sid)).
Proof.
  unfold stop_charging.
  destruct (get_session_status w sid) as [s|]; [|apply ledger_refl].
  destruct (negb _); [apply ledger_refl|].
  pose proof (ledger_end w sid (ActiveSession.current_kwh s)
                (ActiveSession.current_cost s) (Some "user_stopped") None) as He.
  destruct (end_charging_session _ _ _ _ _ _) as [[] w']; done.
Qed.

Lemma ledger_port w port_id status :
  ledger w (snd (PortService.update_status w port_id status)).
Proof.
  unfold PortService.update_status.
  destruct (ports w !! port_id); [by apply ledger_same|apply ledger_refl].
Qed.

Lemma ledger_station w station_id status :
  ledger w (StationService.update_status w station_id status).
Proof.
  unfold StationService.update_status.
  destruct (stations w !! station_id); [by apply ledger_same|apply ledger_refl].
Qed.

Lemma ledger_external w r : ledger w (external w r).
Proof.
  destruct r; simpl; auto using ledger_stop, ledger_port, ledger_station.
Qed.

Lemma ledger_initialize w user_id port_id :
  ledger w (snd (initialize_charging w user_id port_id)).
Proof.
  pose proof (initialize_charging_unfold w user_id port_id) as Hi. simpl in Hi.
  destruct (ports w !! port_id) as [port|]; [|rewrite Hi; apply ledger_refl].
  destruct (stations w !! Port.station_id port); rewrite Hi; by apply ledger_same.
Qed.

Lemma ledger_start w sid user_id target_kwh car_id code :
  ledger w (snd (start_charging w sid user_id target_kwh car_id code)).
Proof.
  destruct (start_charging w sid user_id target_kwh car_id code)
    as [[[ok est] msg] w'] eqn:Hs.
  apply start_charging_frame in Hs as (Hu & Ht & _). by apply ledger_same.
Qed.

Lemma ledger_start_message w user_id params :
  ledger w (snd (start_charging_message w user_id params)).
Proof.
  destruct (truthy_int (sp_car_id params) && truthy_Q (sp_target_kwh params)
            && truthy_int (sp_port_id params)) eqn:Hp.
  2:{ unfold start_charging_message. rewrite Hp. apply ledger_refl. }
  rewrite (start_charging_message_unfold _ _ _ Hp).
  pose proof (ledger_initialize w user_id (default 0 (sp_port_id params))) as Hi.
  destruct (initialize_charging _ _ _) as [[e|] w1]; [|done]. simpl in Hi.
  pose proof (ledger_start w1 (ActiveSession.session_id e) user_id
                (default 0%Q (sp_target_kwh params)) (default 0 (sp_car_id params))
                (sp_discount_code params)) as Hs.
  destruct (start_charging _ _ _ _ _ _) as [[[[] ?] ?] ?]; simpl in *;
    by eapply ledger_trans.
Qed.

Lemma ledger_apply_discounts calls : ∀ w, ledger w (apply_discounts w calls).
Proof.
  induction calls as [|[a c] calls IH]; intros w; simpl; [apply ledger_refl|].
  destruct (DiscountService.apply_discount w a c) as [[[[? ?] ?] w']|] eqn:Hd;
    [|by apply IH].
  eapply ledger_trans; [|apply IH].
  apply apply_discount_frame in Hd as (?&?&?&?&?&?&?&?). by apply ledger_same.
Qed.

Lemma ledger_exec w o : ledger w (exec w o).
Proof.
  destruct o; simpl.
  - apply ledger_initialize.
  - apply ledger_start.
  - apply ledger_start_message.
  - apply ledger_update.
  - apply ledger_end.
  - apply ledger_stop.
  - apply charging_socket_preserves with (allowed := fun _ => True).
    + intros. eapply ledger_trans; [done|apply ledger_update].
    + intros. eapply ledger_trans; [done|apply ledger_end].
    + intros. eapply ledger_trans; [done|apply ledger_external].
    + by apply Forall_forall; intros [].
    + apply ledger_refl.
  - apply ledger_port.
  - apply ledger_station.
  - apply (ledger_apply_discounts [(amount, code)]).
Qed.

Lemma ledger_run ops : ∀ w, ledger w (run w ops).
Proof.
  induction ops as [|o ops IH]; intros w; [apply ledger_refl|].
  eapply ledger_trans; [apply ledger_exec | apply IH].
Qed.

(** X11.  Over any sequence of operations of the charging core, transactions
    are only appended, all of them payments, and no user disappears; a
    balance moves only together with a payment of that user: whoever has
    none of the appended transactions has the balance they had. *)
Theorem balances_follow_transactions (w : World) (ops : list Op) :
  ∃ new,
    transactions (run w ops) = transactions w ++ new ∧
    Forall (fun t => Transaction.type t = "Payment") new ∧
    ∀ u usr, users w !! u = Some usr →
      ∃ usr', users (run w ops) !! u = Some usr' ∧
        (Forall (fun t => Transaction.user_id t ≠ u) new →
         User.balance usr' = User.balance usr).
Proof.
  destruct (ledger_run ops w) as (new & Ht & Hp & Hu).
  exists new. split; [done|]. split; [done|].
  intros u usr Husr. destruct (Hu _ _ Husr) as (usr' & Hu' & Hb & _). eauto.
Qed.

(** X12.  No sequence of operations of the charging core takes loyalty points
    from anyone: every user is still there afterwards, with at least the
    points they had. *)
Theorem points_never_decrease (w : World) (ops : list Op) (user_id : Z) (user : User.t) :
  users w !! user_id = Some user →
  ∃ user',
    users (run w ops) !! user_id = Some user' ∧
    default 0 (User.points user) <= default 0 (User.points user').
Proof.
  intros Hu. destruct (ledger_run ops w) as (new & _ & _ & H).
  destruct (H _ _ Hu) as (user' & Hu' & _ & Hpt). eauto.
Qed.

(** User 7 charges 2 kWh and is then stopped by the cleanup of the socket:
    200 points more. *)
Lemma points_never_decrease_witness :
  let ops :=
    [OpSocket (ValidToken 7) 1 [Tick (MeterOk 1) true; Tick (MeterOk 1) false]] in
  ∃ user',
    users (run (charging_world 10 None) ops) !! 7 = Some user' ∧
    0 <= default 0 (User.points user') ∧
    points_of (run (charging_world 10 None) ops) 7 = 200.
Proof.
  intros ops.
  destruct (points_never_decrease (charging_world 10 None) ops 7 (User.mk 7 100 (Some 0))
              eq_refl) as (user' & Hu & Hpt).
  exists user'. split; [exact Hu|]. split; [exact Hpt|]. vm_compute. reflexivity.
Defined.

(** X13.  The turnover that the reports show is the sum of the top-ups: no
    sequence of operations of the charging core changes it, whatever is
    paid for charging. *)
Theorem turnover_ignores_charging (w : World) (ops : list Op) :
  get_all_turnover (run w ops) = get_all_turnover w.
Proof.
  destruct (ledger_run ops w) as (new & Ht & Hp & _).
  unfold get_all_turnover. rewrite Ht, List.filter_app. clear Ht.
  assert (List.filter
            (fun t => String.eqb (lower (Transaction.type t)) "topup") new = []) as ->.
  { induction Hp as [|t new Htype _ IH]; [done|]. simpl. rewrite Htype.
    change (String.eqb (lower "Payment") "topup") with false. exact IH. }
  by rewrite app_nil_r.
Qed.

End Ledger.

(** ** A socket keeps to its session *)

Section Isolation.
Import ChargingSessionsService.

Variable w0 : World.
Variable session_id owner : Z.

Lemma others_kept_update w kwh st pw c :
  others_kept w0 session_id owner w →
  others_kept w0 session_id owner
    (snd (update_charging_status w session_id kwh st pw c)).
Proof.
  unfold others_kept. intros (Hk & Hu & Ho).
  pose proof (update_charging_status_frame w session_id kwh st pw c)
    as (_&_&_&_&Hr&_&_&Hk'&Hnone&Hsome&_). simpl in *.
  destruct (active_sessions w !! session_id) as [s|] eqn:Hs.
  2:{ rewrite Hnone by done. split_and!; try done. intros s. by rewrite Hs. }
  destruct (Hsome s eq_refl) as ((s' & Hs' & _ & Hus' & _) & Hu').
  split_and!.
  - intros k Hne. rewrite Hr, Hk' by done. by apply Hk.
  - intros u Hne. rewrite Hu' by (by rewrite (Ho s)). by apply Hu.
  - intros s1 Hs1. rewrite Hs' in Hs1. injection Hs1 as <-. rewrite Hus'. by apply Ho.
Qed.

Lemma others_kept_end w e c r code :
  others_kept w0 session_id owner w →
  others_kept w0 session_id owner (snd (end_charging_session w session_id e c r code)).
Proof.
  unfold others_kept. intros (Hk & Hu & Ho).
  destruct (end_charging_session w session_id e c r code) as [b w'] eqn:He. simpl.
  pose proof (end_charging_session_accounts _ _ _ _ _ _ _ _ He) as (_ & _ & _ & Hacc).
  assert (Husers : ∀ u, u ≠ owner → users w' !! u = users w !! u).
  { intros u Hne. destruct Hacc as [[-> _]|(s & car & amount & Hs & _ & ->)]; [done|].
    destruct (users w !! ActiveSession.user_id s); [|done].
    rewrite lookup_insert_ne; [done|]. rewrite (Ho s Hs). done. }
  destruct b.
  - apply end_charging_session_success in He
      as (s & row & car & c' & w1 & _ & _ & _ & _ & _ & _ & _ & _ & _ & Hr & Ha & _).
    split_and!.
    + intros k Hne. rewrite Ha, Hr, lookup_delete_ne, lookup_insert_ne by done.
      by apply Hk.
    + intros u Hne. rewrite Husers by done. by apply Hu.
    + intros s1. rewrite Ha, lookup_delete_eq. done.
  - apply end_charging_session_failed in He as (Ha & Hr & _).
    split_and!.
    + intros k Hne. rewrite Ha, Hr. by apply Hk.
    + intros u Hne. rewrite Husers by done. by apply Hu.
    + intros s1. rewrite Ha. apply Ho.
Qed.

Lemma others_kept_external w r :
  spares_others session_id r →
  others_kept w0 session_id owner w → others_kept w0 session_id owner (external w r).
Proof.
  destruct r as [user_id sid|port_id status|station_id status]; simpl.
  - intros -> H. unfold stop_charging.
    destruct (get_session_status w session_id) as [s|]; [|done].
    destruct (negb _); [done|].
    pose proof (others_kept_end w (ActiveSession.current_kwh s)
                  (ActiveSession.current_cost s) (Some "user_stopped") None H) as He.
    destruct (end_charging_session _ _ _ _ _ _) as [[] w']; done.
  - intros _ H. unfold PortService.update_status. by destruct (ports w !! port_id).
  - intros _ H. unfold StationService.update_status.
    by destruct (stations w !! station_id).
Qed.

Lemma others_kept_socket schedule :
  schedule_allows (spares_others session_id) schedule →
  (∀ s, active_sessions w0 !! session_id = Some s → ActiveSession.user_id s = owner) →
  others_kept w0 session_id owner
    (fst (charging_socket w0 (ValidToken owner) session_id schedule)).
Proof.
  intros Hall Ho.
  apply charging_socket_preserves with (allowed := spares_others session_id);
    auto using others_kept_update, others_kept_end, others_kept_external.
  unfold others_kept. split_and!; done.
Qed.

End Isolation.

Section IsolationTheorem.
Import ChargingSessionsService.

(** X14.  A run of the telemetry socket of a session, with whatever status
    changes of ports and stations and stop requests for that session are
    served meanwhile, changes no other session, in the registry or in
    the table, and no account but that of the caller. *)
Theorem socket_keeps_to_its_session (w : World) (user_id session_id : Z)
    (schedule : list Step) :
  schedule_allows (spares_others session_id) schedule →
  let w' := fst (charging_socket w (ValidToken user_id) session_id schedule) in
  (∀ k, k ≠ session_id →
     active_sessions w' !! k = active_sessions w !! k ∧
     charging_sessions w' !! k = charging_sessions w !! k) ∧
  (∀ u, u ≠ user_id → users w' !! u = users w !! u).
Proof.
  intros Hall w'.
  destruct (active_sessions w !! session_id) as [s|] eqn:Hs.
  - destruct (Z.eqb_spec (ActiveSession.user_id s) user_id) as [Hu|Hne].
    + destruct (others_kept_socket w session_id user_id schedule Hall) as (Hk & Hus & _).
      { intros s' Hs'. congruence. }
      split; [exact Hk | exact Hus].
    + subst w'. unfold charging_socket, get_session_status. rewrite Hs.
      apply Z.eqb_neq in Hne. rewrite Hne. done.
  - subst w'. unfold charging_socket, get_session_status. rewrite Hs. done.
Qed.

(** The run of the socket of session 1, stopped by its owner after one
    tick, leaves the account of user 8 alone. *)
Lemma socket_keeps_to_its_session_witness :
  let schedule :=
    [Tick (MeterOk 1) true; Meanwhile (ExtStopCharging 7 1); Tick (MeterOk 1) true] in
  schedule_allows (spares_others 1) schedule ∧
  users (fst (charging_socket (charging_world 10 None) (ValidToken 7) 1 schedule)) !! 8 =
    Some (User.mk 8 5 (Some 0)).
Proof.
  intros schedule.
  assert (H : schedule_allows (spares_others 1) schedule).
  { repeat constructor. }
  split; [exact H|].
  destruct (socket_keeps_to_its_session (charging_world 10 None) 7 1 schedule H)
    as [_ Hu].
  rewrite (Hu 8) by discriminate. reflexivity.
Defined.

End IsolationTheorem.

(** ** What the settlements of a run carry *)

Section TraceInvariant.
Import ChargingSessionsService.

Variable session : ActiveSession.t.
Variable car : Car.t.
(** [I] holds of the locals whenever a tick begins, [F] of the locals
    whenever one ends, and [E] is the property of the events. *)
Variable I F : Locals.t → Prop.
Variable E : Event → Prop.

Hypothesis tick_ok : ∀ w sid l meter peer w' l' trace x,
  tick w sid session car l meter peer = (w', l', trace, x) →
  I l → Forall E trace ∧ F l' ∧ (x = Continue → I l').
Hypothesis I_F : ∀ l, I l → F l.
Hypothesis F_E : ∀ sid l reason ok,
  F l → E (Settlement sid (Locals.current_kwh l) (Locals.current_cost l) reason ok).
Hypothesis E_send : ∀ m, E (Send m).

Lemma loop_trace schedule : ∀ w sid l w' l' trace x,
  loop w sid session car l schedule = (w', l', trace, x) →
  I l → Forall E trace ∧ F l'.
Proof.
  induction schedule as [|[meter peer|r] schedule IH]; intros w sid l w' l' trace x; simpl.
  - intros [= <- <- <- <-] Hl. split; [constructor | by apply I_F].
  - destruct (tick w sid session car l meter peer) as [[[w1 l1] t1] x1] eqn:Ht.
    intros Hloop Hl. destruct (tick_ok _ _ _ _ _ _ _ _ _ Ht Hl) as (HE & HF & HI).
    destruct x1; try (injection Hloop as <- <- <- <-; done).
    destruct (loop w1 sid session car l1 schedule) as [[[w2 l2] t2] x2] eqn:Hrest.
    injection Hloop as <- <- <- <-.
    destruct (IH _ _ _ _ _ _ _ Hrest (HI eq_refl)) as [HE2 HF2].
    split; [by apply Forall_app|done].
  - apply IH.
Qed.

Lemma cleanup_trace w sid l : F l → Forall E (snd (cleanup w sid l)).
Proof.
  intros HF. unfold cleanup.
  destruct (get_session_status w sid); [|constructor].
  destruct (bool_decide _); [constructor|].
  destruct (update_charging_status _ _ _ _ _ _) as [? w1].
  destruct (end_charging_session _ _ _ _ _ _) as [ok w2]. simpl.
  constructor; [by apply F_E | constructor].
Qed.

Lemma try_block_trace w sid l schedule w' l' trace x :
  try_block w sid session car l schedule = (w', l', trace, x) →
  I l → Forall E (trace ++ except_handler sid l' x) ∧ F l'.
Proof.
  unfold try_block.
  destruct (item (ActiveSession.target_kwh session)) as [t|].
  - destruct (loop w sid session car l schedule) as [[[w1 l1] t1] x1] eqn:Hl.
    intros [= <- <- <- <-] HI.
    destruct (loop_trace _ _ _ _ _ _ _ _ Hl HI) as [HE HF].
    split; [|done]. apply Forall_app. split; [by constructor|].
    destruct x1 as [| |? []]; simpl; repeat constructor; apply E_send.
  - intros [= <- <- <- <-] HI. split; [|by apply I_F].
    simpl. repeat constructor; apply E_send.
Qed.

Lemma charging_socket_trace w token sid schedule car_id :
  active_sessions w !! sid = Some session →
  ActiveSession.car_id session = Some car_id →
  cars w !! car_id = Some car →
  I (initial_locals session car) →
  Forall E (snd (charging_socket w token sid schedule)).
Proof.
  intros Hs Hcid Hcar HI. unfold charging_socket, get_session_status, CarsService.get.
  rewrite Hs, Hcid. simpl. rewrite Hcar.
  destruct token; try (by repeat constructor).
  destruct (negb _); [by repeat constructor|].
  destruct (try_block w sid session car (initial_locals session car) schedule)
    as [[[w1 l1] trace] x] eqn:Htry.
  destruct (try_block_trace _ _ _ _ _ _ _ _ Htry HI) as [HE HF].
  pose proof (cleanup_trace w1 sid l1 HF) as Hc.
  destruct (cleanup w1 sid l1) as [w2 ev]. simpl in *.
  rewrite app_assoc. by apply Forall_app.
Qed.

(** Before its [try] block the socket sends at most an error frame. *)
Lemma charging_socket_no_car w token sid schedule :
  (∀ car_id, ActiveSession.car_id session = Some car_id → cars w !! car_id = None) →
  active_sessions w !! sid = Some session →
  Forall E (snd (charging_socket w token sid schedule)).
Proof.
  intros Hno Hs. unfold charging_socket, get_session_status, CarsService.get.
  rewrite Hs.
  destruct token; try (by repeat constructor).
  destruct (negb _); [by repeat constructor|].
  destruct (ActiveSession.car_id session) as [car_id|]; simpl; [|constructor].
  rewrite (Hno car_id eq_refl). by repeat constructor.
Qed.

End TraceInvariant.

Section Billing.
Import ChargingSessionsService.

Lemma reports_whole_kwh_mono n m e :
  n <= m → reports_whole_kwh n e → reports_whole_kwh m e.
Proof.
  intros Hle. destruct e as [|sid energy cost reason ok]; simpl; [done|].
  intros (k & Hk & He). exists k. split; [lia|done].
Qed.

(** A pass of the loop adds one kWh to the energy, or nothing. *)
Lemma tick_whole w sid session car l meter peer w' l' trace x k :
  tick w sid session car l meter peer = (w', l', trace, x) →
  0 <= k → (Locals.current_kwh l == inject_Z k)%Q →
  Forall (reports_whole_kwh (k + 1)) trace ∧
  ∃ k', k <= k' <= k + 1 ∧ (Locals.current_kwh l' == inject_Z k')%Q.
Proof.
  intros Ht Hk Hl.
  assert (Hl1 : (Locals.current_kwh l + 1 == inject_Z (k + 1))%Q).
  { rewrite Hl, inject_Z_plus. reflexivity. }
  assert (Hsame : ∃ k', k <= k' <= k + 1 ∧ (Locals.current_kwh l == inject_Z k')%Q)
    by (exists k; split; [lia|done]).
  assert (Hmore : ∃ k', k <= k' <= k + 1 ∧ (Locals.current_kwh l + 1 == inject_Z k')%Q)
    by (exists (k + 1); split; [lia|done]).
  assert (Hev : ∀ s c r ok, reports_whole_kwh (k + 1) (Settlement s (Locals.current_kwh l) c r ok))
    by (intros; exists k; split; [lia|done]).
  assert (Hev1 : ∀ s c r ok,
            reports_whole_kwh (k + 1) (Settlement s (Locals.current_kwh l + 1) c r ok))
    by (intros; exists (k + 1); split; [lia|done]).
  revert Ht. unfold tick.
  destruct (check_charging_availability w sid) as [can r].
  destruct can; simpl.
  - destruct meter; try (by intros [= <- <- <- <-]; split; [constructor|]);
      (destruct (Qeq_bool _ _); [by intros [= <- <- <- <-]; split; [constructor|]|];
       destruct (item _) as [t|]; [|by intros [= <- <- <- <-]; split; [constructor|]];
       destruct peer; simpl; [|by intros [= <- <- <- <-]; split; [constructor|]];
       destruct (update_charging_status _ _ _ _ _ _) as [? w1];
       destruct (end_reason _ _ _ _) as [reason|];
       [ destruct (update_charging_status _ _ _ _ _ _) as [? w2];
         destruct (end_charging_session _ _ _ _ _ _) as [ok w3];
         intros [= <- <- <- <-]; split; [repeat constructor; apply Hev1 | exact Hmore]
       | intros [= <- <- <- <-]; split; [repeat constructor | exact Hmore] ]).
  - destruct (bool_decide _); [by intros [= <- <- <- <-]; split; [constructor|]|].
    destruct (end_charging_session _ _ _ _ _ _) as [ok w1].
    destruct peer; intros [= <- <- <- <-];
      (split; [repeat constructor; apply Hev | exact Hsame]).
Qed.

Lemma loop_whole schedule : ∀ w sid session car l w' l' trace x k,
  loop w sid session car l schedule = (w', l', trace, x) →
  0 <= k → (Locals.current_kwh l == inject_Z k)%Q →
  Forall (reports_whole_kwh (k + Z.of_nat (ticks schedule))) trace ∧
  ∃ k', 0 <= k' <= k + Z.of_nat (ticks schedule) ∧
        (Locals.current_kwh l' == inject_Z k')%Q.
Proof.
  induction schedule as [|[meter peer|r] schedule IH];
    intros w sid session car l w' l' trace x k; simpl ticks.
  - simpl. intros [= <- <- <- <-] Hk Hl. split; [constructor|].
    exists k. split; [lia|done].
  - simpl loop.
    destruct (tick w sid session car l meter peer) as [[[w1 l1] t1] x1] eqn:Ht.
    intros Hloop Hk Hl.
    destruct (tick_whole _ _ _ _ _ _ _ _ _ _ _ _ Ht Hk Hl) as (HE & k1 & Hk1 & Hl1).
    assert (HE' : Forall (reports_whole_kwh (k + Z.of_nat (S (ticks schedule)))) t1).
    { eapply Forall_impl; [exact HE|]. intros e. apply reports_whole_kwh_mono. lia. }
    assert (Hend : ∃ k', 0 <= k' <= k + Z.of_nat (S (ticks schedule)) ∧
                         (Locals.current_kwh l1 == inject_Z k')%Q)
      by (exists k1; split; [lia|done]).
    destruct x1; try (injection Hloop as <- <- <- <-; done).
    destruct (loop w1 sid session car l1 schedule) as [[[w2 l2] t2] x2] eqn:Hrest.
    injection Hloop as <- <- <- <-.
    destruct (IH _ _ _ _ _ _ _ _ _ k1 Hrest ltac:(lia) Hl1) as (HE2 & k2 & Hk2 & Hl2).
    split.
    + apply Forall_app. split; [done|].
      eapply Forall_impl; [exact HE2|]. intros e. apply reports_whole_kwh_mono. lia.
    + exists k2. split; [lia|done].
  - simpl loop. apply IH.
Qed.

(** X15.  Every settlement that a run of the telemetry socket makes
    (completion, interruption or cleanup) reports a whole number of kWh,
    and at most as many kWh as the schedule of the run has passes: a pass
    adds exactly 1 kWh, whatever the meter has answered. *)
Theorem settlements_report_whole_kwh (w : World) (token : Token) (session_id : Z)
    (schedule : list Step) :
  Forall (reports_whole_kwh (Z.of_nat (ticks schedule)))
    (snd (charging_socket w token session_id schedule)).
Proof.
  unfold charging_socket, get_session_status, CarsService.get.
  destruct token; try (by repeat constructor).
  destruct (active_sessions w !! session_id) as [session|]; [|by repeat constructor].
  destruct (negb _); [by repeat constructor|].
  destruct (ActiveSession.car_id session) as [car_id|]; simpl; [|constructor].
  destruct (cars w !! car_id) as [car|]; [|by repeat constructor].
  destruct (try_block w session_id session car (initial_locals session car) schedule)
    as [[[w1 l1] trace] x] eqn:Htry.
  assert (Forall (reports_whole_kwh (Z.of_nat (ticks schedule))) trace ∧
          ∃ k', 0 <= k' <= Z.of_nat (ticks schedule) ∧
                (Locals.current_kwh l1 == inject_Z k')%Q) as (HE & k1 & Hk1 & Hl1).
  { revert Htry. unfold try_block.
    destruct (item (ActiveSession.target_kwh session)) as [t|].
    - destruct (loop w session_id session car (initial_locals session car) schedule)
        as [[[w0 l0] t0] x0] eqn:Hl.
      intros [= <- <- <- <-].
      destruct (loop_whole _ _ _ _ _ _ _ _ _ _ 0 Hl ltac:(lia) ltac:(reflexivity))
        as (HE & k' & Hk' & Hl').
      split; [by constructor|]. exists k'. split; [lia|done].
    - intros [= <- <- <- <-]. split; [constructor|].
      exists 0. split; [lia|reflexivity]. }
  unfold cleanup, get_session_status.
  assert (Hx : Forall (reports_whole_kwh (Z.of_nat (ticks schedule)))
                 (except_handler session_id l1 x))
    by (destruct x as [| |? []]; simpl; repeat constructor).
  destruct (active_sessions w1 !! session_id) as [s1|];
    [|simpl; rewrite app_nil_r; by apply Forall_app].
  destruct (bool_decide _); [simpl; rewrite app_nil_r; by apply Forall_app|].
  destruct (update_charging_status _ _ _ _ _ _) as [? w2].
  destruct (end_charging_session _ _ _ _ _ _) as [ok w3]. simpl.
  apply Forall_app. split; [done|]. apply Forall_app. split; [done|].
  repeat constructor. exists k1. split; [lia|done].
Qed.

End Billing.

Section EnergyBound.
Import ChargingSessionsService.

Lemma end_reason_none battery_level current_kwh battery_capacity target_kwh :
  end_reason battery_level current_kwh battery_capacity target_kwh = None →
  (battery_level < 100)%Q ∧ (current_kwh < battery_capacity)%Q ∧
  (current_kwh < target_kwh - 0.01)%Q.
Proof.
  unfold end_reason.
  destruct (Qleb 100 battery_level) eqn:H1; [intros [=]|].
  destruct (Qleb battery_capacity current_kwh) eqn:H2; [intros [=]|].
  destruct (Qleb (target_kwh - 0.01) current_kwh) eqn:H3; [intros [=]|].
  intros _. by rewrite <- !Qleb_gt.
Qed.

Lemma tick_energy w sid session car l meter peer w' l' trace x t :
  ActiveSession.target_kwh session = Some t →
  tick w sid session car l meter peer = (w', l', trace, x) →
  (Locals.current_kwh l <= t)%Q →
  Forall (energy_within (t + 1)) trace ∧
  (Locals.current_kwh l' <= t + 1)%Q ∧
  (x = Continue → (Locals.current_kwh l' <= t)%Q).
Proof.
  intros Ht Htick Hl.
  assert (H0 : (Locals.current_kwh l <= t + 1)%Q) by lra.
  assert (H1 : (Locals.current_kwh l + 1 <= t + 1)%Q) by lra.
  revert Htick. unfold tick.
  destruct (check_charging_availability w sid) as [can r].
  destruct can; simpl.
  - destruct meter;
      try (by intros [= <- <- <- <-]; split_and!; [constructor|done|intros [=]]);
      (destruct (Qeq_bool _ _);
         [by intros [= <- <- <- <-]; split_and!; [constructor|done|intros [=]]|];
       rewrite Ht; simpl;
       destruct peer; simpl;
         [|by intros [= <- <- <- <-]; split_and!; [constructor|done|intros [=]]];
       destruct (update_charging_status _ _ _ _ _ _) as [? w1];
       destruct (end_reason _ _ _ _) as [reason|] eqn:Hr;
       [ destruct (update_charging_status _ _ _ _ _ _) as [? w2];
         destruct (end_charging_session _ _ _ _ _ _) as [ok w3];
         intros [= <- <- <- <-]; split_and!;
           [repeat constructor; exact H1 | exact H1 | intros [=]]
       | intros [= <- <- <- <-]; split_and!; [repeat constructor | exact H1 |];
         intros _; apply end_reason_none in Hr as (_ & _ & Hr); simpl; lra ]).
  - destruct (bool_decide _);
      [by intros [= <- <- <- <-]; split_and!; [constructor|done|intros [=]]|].
    destruct (end_charging_session _ _ _ _ _ _) as [ok w1].
    destruct peer; intros [= <- <- <- <-];
      (split_and!; [repeat constructor; exact H0 | exact H0 | intros [=]]).
Qed.

(** X16.  A run of the telemetry socket for a session with a target that is not
    negative never settles more than the target and one kWh: the loop
    stops at the first tick that brings the energy to the target less
    0.01 kWh, and a tick adds 1 kWh. *)
Theorem settlements_stay_near_target (w : World) (token : Token) (session_id : Z)
    (schedule : list Step) (session : ActiveSession.t) (t : Q) :
  active_sessions w !! session_id = Some session →
  ActiveSession.target_kwh session = Some t →
  (0 <= t)%Q →
  Forall (energy_within (t + 1)) (snd (charging_socket w token session_id schedule)).
Proof.
  intros Hs Ht Hpos.
  destruct (ActiveSession.car_id session) as [car_id|] eqn:Hcid.
  2:{ apply charging_socket_no_car with (session := session);
        first [done | by intros; constructor | by intros; congruence]. }
  destruct (cars w !! car_id) as [car|] eqn:Hcar.
  2:{ apply charging_socket_no_car with (session := session);
        first [done | by intros; constructor | by intros; congruence]. }
  apply charging_socket_trace
    with (session := session) (car := car) (car_id := car_id)
         (I := fun l => (Locals.current_kwh l <= t)%Q)
         (F := fun l => (Locals.current_kwh l <= t + 1)%Q);
    try done.
  - intros. eapply tick_energy; eauto.
  - intros l Hl. lra.
Qed.

Lemma settlements_stay_near_target_witness :
  let schedule := [Tick (MeterOk 1) true; Tick (MeterOk 1) true; Tick (MeterOk 1) true] in
  Forall (energy_within (1.5 + 1))
    (snd (charging_socket (charging_world 1.5 None) (ValidToken 7) 1 schedule)) ∧
  Settlement 1 (0 + 1 + 1) (0 + 1 * 2 + 1 * 2) "target_reached" true
    ∈ snd (charging_socket (charging_world 1.5 None) (ValidToken 7) 1 schedule).
Proof.
  intros schedule. split.
  - apply (settlements_stay_near_target (charging_world 1.5 None) (ValidToken 7) 1
             schedule (sample_session 1.5 None) 1.5); [reflexivity | reflexivity |].
    intros H. discriminate H.
  - vm_compute. set_solver.
Defined.

End EnergyBound.

(** ** The administration of discount codes *)

Section DiscountAdmin.
Import DiscountService.

Lemma find_by_code_snoc code ds d :
  find_by_code code ds = None → lower (Discount.code d) = lower code →
  find_by_code code (ds ++ [d]) = Some (length ds).
Proof.
  intros Hn Hd. induction ds as [|d0 ds IH]; simpl in *.
  - by rewrite Hd, String.eqb_refl.
  - destruct (String.eqb _ _); [done|].
    destruct (find_by_code code ds); [done|]. by rewrite IH.
Qed.

Lemma get_by_code_None w code :
  DiscountStore.get_by_code w code = None ↔ find_by_code code (discounts w) = None.
Proof.
  unfold DiscountStore.get_by_code.
  destruct (find_by_code code (discounts w)) as [i|] eqn:Hf; simpl; [|done].
  apply find_by_code_Some in Hf as (d & -> & _). done.
Qed.

(** X17.  What [create_discount] of the routes answers: 201 only for a value
    above 0 and at most 100 and a code that no row has, in any case of the
    letters; the row is then appended with a new id and a usage count of
    0, and is the row that the code finds.  Any other answer leaves the
    state as it was. *)
Theorem create_discount_route_outcome (w : World) (code : string) (value : Q)
    (expiry_on max_uses : option Z) :
  let '(status, w') := create_discount_route w code value expiry_on max_uses in
  (status = 201 →
     (0 < value)%Q ∧ (value <= 100)%Q ∧
     (∀ d, d ∈ discounts w →
        lower (Discount.code d) ≠ lower code ∧
        Discount.id d < next_id (Discount.id <$> discounts w)) ∧
     ∃ d,
       discounts w' = discounts w ++ [d] ∧
       Discount.id d = next_id (Discount.id <$> discounts w) ∧
       Discount.code d = code ∧ Discount.value d = value ∧
       Discount.usage_count d = 0 ∧
       DiscountStore.get_by_code w' code = Some d) ∧
  (status ≠ 201 → w' = w).
Proof.
  unfold create_discount_route.
  destruct (Qleb value 0 || Qltb 100 value) eqn:Hv; [done|].
  apply orb_false_elim in Hv as [Hv1 Hv2].
  destruct (DiscountStore.get_by_code w code) as [d0|] eqn:Hg; [done|].
  simpl. split; [|done]. intros _.
  apply get_by_code_None in Hg.
  split; [by apply Qleb_gt|].
  split.
  { unfold Qltb in Hv2. apply negb_false_iff in Hv2. by apply Qle_bool_iff. }
  split.
  { intros d Hd. split; [by eapply find_by_code_None|].
    apply next_id_fresh, list_elem_of_fmap. by exists d. }
  eexists. split; [done|]. simpl. split_and!; try done.
  unfold DiscountStore.get_by_code. simpl.
  rewrite find_by_code_snoc by done. simpl.
  by rewrite lookup_app_r, Nat.sub_diag.
Qed.

Lemma create_discount_route_outcome_witness :
  ∃ w' d,
    create_discount_route idle_world "Winter" 25 None (Some 3) = (201, w') ∧
    discounts w' = discounts idle_world ++ [d] ∧
    Discount.id d = 3 ∧
    DiscountStore.get_by_code w' "Winter" = Some d ∧
    create_discount_route w' "WINTER" 30 None None = (400, w').
Proof.
  assert (He : ∃ w', create_discount_route idle_world "Winter" 25 None (Some 3) = (201, w'))
    by (eexists; reflexivity).
  destruct He as [w' He].
  pose proof (create_discount_route_outcome idle_world "Winter" 25 None (Some 3)) as H.
  rewrite He in H. destruct H as [H _].
  destruct (H eq_refl) as (_ & _ & _ & d & Hd & Hid & _ & _ & _ & Hg).
  exists w', d. split; [exact He|]. split; [exact Hd|]. split; [exact Hid|].
  split; [exact Hg|].
  assert (Hw : w' = snd (create_discount_route idle_world "Winter" 25 None (Some 3)))
    by (by rewrite He).
  rewrite Hw. reflexivity.
Defined.

(** X18.  An application never turns an amount that is not negative into a
    negative one, and never raises it, as long as the values of the rows
    are percentages. *)
Theorem apply_discount_within_amount (w : World) (amount : Q) (code : string)
    (a : Q) (m : DiscountMessage) (st : DiscountStatus) (w' : World) :
  apply_discount w amount code = Ok (a, m, st, w') →
  (0 <= amount)%Q →
  (∀ d, d ∈ discounts w → (0 <= Discount.value d)%Q ∧ (Discount.value d <= 100)%Q) →
  (0 <= a)%Q ∧ (a <= amount)%Q.
Proof.
  intros H Hpos Hval.
  apply apply_discount_cases in H as [Hr|(i&d&_&Hi&_&[[_ Hr]|[_ Hr]])];
    injection Hr as -> _ _ _; try (split; [done|apply Qle_refl]).
  destruct (Hval d) as [H0 H100]; [by eapply list_elem_of_lookup_2|].
  assert (Hdiv : (Discount.value d / 100 == Discount.value d * (1 # 100))%Q)
    by (unfold Qdiv; reflexivity).
  rewrite Hdiv. split; nra.
Qed.

Lemma apply_discount_within_amount_witness :
  ∃ a m st w',
    apply_discount idle_world 20 "SAVE10" = Ok (a, m, st, w') ∧
    (0 <= a)%Q ∧ (a <= 20)%Q.
Proof.
  assert (He : ∃ a m st w', apply_discount idle_world 20 "SAVE10" = Ok (a, m, st, w'))
    by (eexists _, _, _, _; reflexivity).
  destruct He as (a & m & st & w' & He). exists a, m, st, w'.
  split; [exact He|].
  apply (apply_discount_within_amount _ _ _ _ _ _ _ He).
  - intros H. discriminate H.
  - intros d Hd. unfold idle_world, sample_discounts in Hd. simpl in Hd.
    apply elem_of_cons in Hd as [->|Hd]; [split; intros H; discriminate H|].
    apply elem_of_cons in Hd as [->|Hd]; [split; intros H; discriminate H|].
    by apply elem_of_nil in Hd.
Defined.

(** X19.  The method [is_valid] of the model and [apply_discount] agree on the
    rows that have no expiry date: the row that a code finds is applied
    exactly when [is_valid] holds of it; and no row is applied of which
    [is_valid] does not hold. *)
Theorem apply_discount_agrees_with_is_valid (w : World) (amount : Q) (code : string)
    (i : nat) (d : Discount.t) (now : Z) :
  find_by_code code (discounts w) = Some i →
  discounts w !! i = Some d →
  ((∃ a m w', apply_discount w amount code = Ok (a, m, SUCCESS, w')) →
   Discount_is_valid d now = true) ∧
  (truthy_int (Discount.expiry_on d) = false →
   Discount_is_valid d now = true →
   ∃ a m w', apply_discount w amount code = Ok (a, m, SUCCESS, w')).
Proof.
  intros Hf Hd. unfold Discount_is_valid. split.
  - intros (a & m & w' & H).
    apply apply_discount_cases in H as [Hr|(i'&d'&Hf'&Hd'&He&[[_ Hr]|[Hm Hr]])];
      try discriminate Hr.
    simplify_eq. by rewrite He, Hm.
  - intros He. rewrite He. simpl.
    destruct (max_uses_reached d) eqn:Hm; [done|]. intros _.
    eexists _, _, _. by apply apply_discount_accepted.
Qed.

Lemma apply_discount_agrees_with_is_valid_witness :
  Discount_is_valid (Discount.mk 1 "SAVE10" 10 None 0 (Some 1)) 1750000000000 = true ∧
  ∃ a m w', apply_discount idle_world 20 "save10" = Ok (a, m, SUCCESS, w').
Proof.
  destruct (apply_discount_agrees_with_is_valid idle_world 20 "save10" 0
              (Discount.mk 1 "SAVE10" 10 None 0 (Some 1)) 1750000000000 eq_refl eq_refl)
    as [_ H].
  split; [reflexivity|]. apply H; reflexivity.
Defined.

End DiscountAdmin.

(** ** Exchanging points for a code *)

Section Exchange.
Import DiscountService.

Lemma filter_other_ids (ds : list Discount.t) (d : Discount.t) :
  (∀ d0, d0 ∈ ds → Discount.id d0 < Discount.id d) →
  List.filter (fun d0 => negb (Discount.id d0 =? Discount.id d)) (ds ++ [d]) = ds.
Proof.
  intros H. rewrite List.filter_app. simpl. rewrite Z.eqb_refl. simpl.
  rewrite app_nil_r. induction ds as [|a ds IH]; simpl; [done|].
  assert (Discount.id a < Discount.id d) as Ha by (apply H; left).
  apply Z.lt_neq, Z.eqb_neq in Ha. rewrite Ha. simpl. f_equal.
  apply IH. intros d0 Hd0. apply H. by right.
Qed.

(** [delete_discount] undoes [create_discount]. *)
Lemma delete_created_discount w code value expiry_on max_uses :
  let '(d, w1) := DiscountStore.create_discount w code value expiry_on max_uses in
  DiscountStore.delete_discount w1 (Discount.id d) = (true, w).
Proof.
  unfold DiscountStore.create_discount, DiscountStore.delete_discount. simpl.
  rewrite bool_decide_eq_true_2.
  2:{ rewrite fmap_app. simpl. apply elem_of_app. right. left. }
  f_equal. destruct w. unfold with_discounts. simpl. f_equal.
  apply (filter_other_ids _ (Discount.mk _ code value expiry_on 0 max_uses)).
  intros d0 Hd0. simpl. apply next_id_fresh, list_elem_of_fmap. by exists d0.
Qed.

(** [deduct_points] answers [True] exactly for a user who has at least the
    points asked for, and then takes exactly those; otherwise it changes
    nothing.  The points of a user never become negative by it. *)
Lemma deduct_points_cases w user_id points :
  let '(ok, w') := deduct_points w user_id points in
  (ok = true →
     ∃ user p,
       users w !! user_id = Some user ∧ User.points user = Some p ∧ points <= p ∧
       0 <= p - points ∧
       w' = with_users
              (fun m => <[user_id := User.mk (User.id user) (User.balance user)
                                       (Some (p - points))]> m) w) ∧
  (ok = false →
     w' = w ∧
     ∀ user p, users w !! user_id = Some user → User.points user = Some p → p < points).
Proof.
  unfold deduct_points.
  destruct (users w !! user_id) as [user|] eqn:Hu.
  2:{ split; [done|]. intros _. split; [done|]. intros ? ? [=]. }
  destruct (User.points user) as [p|] eqn:Hp.
  2:{ split; [done|]. intros _. split; [done|]. intros ? ? [= <-]. congruence. }
  destruct (p <? points) eqn:Hlt.
  - apply Z.ltb_lt in Hlt. split; [done|]. intros _. split; [done|].
    intros user' p' [= <-] Hp'. congruence.
  - apply Z.ltb_ge in Hlt. split; [|done]. intros _. exists user, p.
    split_and!; try done. lia.
Qed.

(** The row that a successful exchange has appended. *)
Lemma exchange_points_appends w user_id points_required discount_value discount_code
    expiry_date w' :
  exchange_points w user_id points_required discount_value discount_code expiry_date
    = (200, w') →
  discounts w' =
    discounts w ++
      [Discount.mk (next_id (Discount.id <$> discounts w)) discount_code
         discount_value (Some expiry_date) 0 (Some 1)].
Proof.
  unfold exchange_points.
  destruct (get_user_points w user_id) as [user_points|]; [|intros [=]].
  destruct (user_points <? points_required); [intros [=]|].
  destruct (DiscountStore.create_discount _ _ _ _ _) as [d w1] eqn:Hc.
  pose proof (deduct_points_cases w1 user_id points_required) as Hd.
  destruct (deduct_points w1 user_id points_required) as [[] w2]; [|intros [=]].
  destruct Hd as [Hd _]. destruct (Hd eq_refl) as (user & p & _ & _ & _ & _ & ->).
  intros [= <-]. by injection Hc as <- <-.
Qed.

(** X20.  An exchange either answers 200, and then it has taken exactly the
    points of the threshold from a user who had them and has appended one
    code, with the value of the threshold, the expiry date and one use; or
    it leaves the state as it was: the code it had created before the
    points could not be taken is deleted again. *)
Theorem exchange_points_atomic (w : World) (user_id points_required : Z)
    (discount_value : Q) (discount_code : string) (expiry_date : Z) :
  let '(status, w') :=
    exchange_points w user_id points_required discount_value discount_code expiry_date in
  (status = 200 →
     ∃ user p,
       users w !! user_id = Some user ∧ User.points user = Some p ∧
       points_required <= p ∧
       users w' =
         <[user_id := User.mk (User.id user) (User.balance user)
                        (Some (p - points_required))]> (users w) ∧
       discounts w' =
         discounts w ++
           [Discount.mk (next_id (Discount.id <$> discounts w)) discount_code
              discount_value (Some expiry_date) 0 (Some 1)]) ∧
  (status ≠ 200 → w' = w).
Proof.
  unfold exchange_points.
  destruct (get_user_points w user_id) as [user_points|] eqn:Hg; [|by split].
  destruct (user_points <? points_required) eqn:Hlt; [by split|].
  pose proof (delete_created_discount w discount_code discount_value (Some expiry_date)
                (Some 1)) as Hdel.
  destruct (DiscountStore.create_discount _ _ _ _ _) as [d w1] eqn:Hc.
  pose proof (deduct_points_cases w1 user_id points_required) as Hd.
  destruct (deduct_points w1 user_id points_required) as [[] w2].
  - destruct Hd as [Hd _]. destruct (Hd eq_refl) as (user & p & Hu & Hp & Hle & _ & ->).
    injection Hc as <- <-. split; [|done]. intros _. exists user, p. simpl in *.
    split_and!; done.
  - destruct Hd as [_ Hd]. destruct (Hd eq_refl) as [-> _].
    rewrite Hdel. split; [done|]. done.
Qed.

(** User 8 has no points and asks for a threshold of 100: refused, and
    nothing has changed. *)
Lemma exchange_points_atomic_witness :
  exchange_points idle_world 8 100 15 "A1B2C3D4" 1752592000000 = (400, idle_world) ∧
  ∃ w',
    exchange_points (snd (UsersService.add_points idle_world 8 120)) 8 100 15 "A1B2C3D4"
      1752592000000 = (200, w') ∧
    points_of w' 8 = 120 - 100.
Proof.
  split.
  - pose proof (exchange_points_atomic idle_world 8 100 15 "A1B2C3D4" 1752592000000) as H.
    assert (He : ∃ w', exchange_points idle_world 8 100 15 "A1B2C3D4" 1752592000000
                         = (400, w')) by (eexists; reflexivity).
    destruct He as [w' He]. rewrite He in H. destruct H as [_ H].
    rewrite He. rewrite (H ltac:(discriminate)). reflexivity.
  - pose proof (exchange_points_atomic (snd (UsersService.add_points idle_world 8 120))
                  8 100 15 "A1B2C3D4" 1752592000000) as H.
    assert (He : ∃ w', exchange_points (snd (UsersService.add_points idle_world 8 120))
                         8 100 15 "A1B2C3D4" 1752592000000 = (200, w'))
      by (eexists; reflexivity).
    destruct He as [w' He]. rewrite He in H. destruct H as [H _].
    destruct (H eq_refl) as (user & p & Hu & Hp & _ & Hus & _).
    exists w'. split; [exact He|].
    injection Hu as <-. injection Hp as <-.
    unfold points_of. rewrite Hus, lookup_insert_eq. reflexivity.
Defined.

(** X21.  The code that an exchange has given out cannot be applied: it has an
    expiry date, and [apply_discount] raises on a row that has one. *)
Theorem exchanged_code_cannot_be_applied (w : World) (user_id points_required : Z)
    (discount_value : Q) (discount_code : string) (expiry_date : Z) (w' : World) :
  DiscountStore.get_by_code w discount_code = None →
  expiry_date ≠ 0 →
  exchange_points w user_id points_required discount_value discount_code expiry_date
    = (200, w') →
  ∀ amount, apply_discount w' amount discount_code = Raise TypeError.
Proof.
  intros Hg Hx He amount.
  pose proof (exchange_points_appends _ _ _ _ _ _ _ He) as Hd.
  apply get_by_code_None in Hg.
  eapply apply_discount_dated_raises.
  - rewrite Hd. by apply find_by_code_snoc.
  - rewrite Hd. by rewrite lookup_app_r, Nat.sub_diag.
  - simpl. apply negb_true_iff. by apply Z.eqb_neq.
Qed.

(** User 7 has earned 150 points and exchanges 100 of them. *)
Lemma exchanged_code_cannot_be_applied_witness :
  let w := snd (UsersService.add_points idle_world 7 150) in
  ∃ w',
    exchange_points w 7 100 15 "A1B2C3D4" 1752592000000 = (200, w') ∧
    points_of w' 7 = 50 ∧
    apply_discount w' 20 "A1B2C3D4" = Raise TypeError.
Proof.
  intros w.
  assert (He : ∃ w', exchange_points w 7 100 15 "A1B2C3D4" 1752592000000 = (200, w'))
    by (eexists; reflexivity).
  destruct He as [w' He]. exists w'. split; [exact He|].
  split.
  - assert (Hw : w' = snd (exchange_points w 7 100 15 "A1B2C3D4" 1752592000000))
      by (by rewrite He).
    rewrite Hw. reflexivity.
  - apply (exchanged_code_cannot_be_applied w 7 100 15 "A1B2C3D4" 1752592000000 w');
      [reflexivity | discriminate | exact He].
Defined.

End Exchange.

(** ** Pairing a client with a station *)

Section Pairing.

(** X22.  What [scan_qr] answers.  With 200 the token was known and had not
    expired, the station exists, the answer carries the user the token
    was issued for, the entry of the token keeps its user and its
    expiration and now holds the station, its price and the address given,
    which the next poll of the client finds; the address is also stored
    for the station; no other token changes.  With any other answer the
    cache is as it was. *)
Theorem scan_qr_outcome (w : World) (c : PairingCache) (now : Q) (data : ScanRequest) :
  let '(status, user, c') := scan_qr w c now data in
  (status = 200 →
     ∃ token station_id ip_address qr station,
       req_qr_token data = Some token ∧
       req_station_id data = Some station_id ∧
       req_ip_address data = Some ip_address ∧
       qr_tokens c !! token = Some qr ∧
       (now <= qr_expiration qr)%Q ∧
       stations w !! station_id = Some station ∧
       user = Some (qr_user_id qr) ∧
       qr_tokens c' !! token =
         Some (mkQrData (qr_user_id qr) (qr_expiration qr)
                 (Some (mkStationData station_id (Station.price_per_kwh station)
                          ip_address))) ∧
       poll c' token now =
         (PollStation (mkStationData station_id (Station.price_per_kwh station)
                         ip_address), c') ∧
       station_ips c' !! Station.id station = Some ip_address ∧
       (∀ t, t ≠ token → qr_tokens c' !! t = qr_tokens c !! t)) ∧
  (status ≠ 200 → user = None ∧ c' = c).
Proof.
  unfold scan_qr.
  destruct (negb _) eqn:Hreq; [by split|].
  apply negb_false_iff, andb_true_iff in Hreq as [Htok Hsid].
  destruct (req_ip_address data) as [ip|] eqn:Hip; [|by split].
  destruct (req_qr_token data) as [token|] eqn:Htoken; [|done].
  destruct (req_station_id data) as [sid|] eqn:Hstation; [|done]. simpl.
  destruct (qr_tokens c !! token) as [qr|] eqn:Hqr; [|by split].
  destruct (Qltb (qr_expiration qr) now) eqn:Hexp; [by split|].
  unfold StationService.get.
  destruct (stations w !! sid) as [station|] eqn:Hst; [|by split].
  split; [|done]. intros _.
  assert (Hle : (now <= qr_expiration qr)%Q).
  { unfold Qltb in Hexp. apply negb_false_iff in Hexp. by apply Qle_bool_iff. }
  exists token, sid, ip, qr, station. split_and!; try done.
  - simpl. apply lookup_insert_eq.
  - unfold poll. simpl. rewrite lookup_insert_eq. simpl. by rewrite Hexp.
  - simpl. apply lookup_insert_eq.
  - intros t Hne. simpl. by rewrite lookup_insert_ne.
Qed.

Lemma scan_qr_outcome_witness :
  let c := issue_token (mkPairingCache ∅ ∅) "tok" 7 1000 in
  let data := mkScanRequest (Some "tok") (Some 1) (Some "10.0.0.5") in
  ∃ c',
    scan_qr idle_world c 1100 data = (200, Some 7, c') ∧
    poll c' "tok" 1100 = (PollStation (mkStationData 1 2 "10.0.0.5"), c') ∧
    station_ips c' !! 1 = Some "10.0.0.5" ∧
    scan_qr idle_world c 1100 (mkScanRequest (Some "other") (Some 1) (Some "10.0.0.5"))
      = (400, None, c).
Proof.
  intros c data.
  assert (He : ∃ c', scan_qr idle_world c 1100 data = (200, Some 7, c'))
    by (eexists; reflexivity).
  destruct He as [c' He]. exists c'.
  pose proof (scan_qr_outcome idle_world c 1100 data) as H.
  rewrite He in H. destruct H as [H _].
  destruct (H eq_refl)
    as (token & sid & ip & qr & st & Ht & Hs & Hi & Hq & _ & Hst & _ & _ & Hp & Hips & _).
  injection Ht as <-. injection Hs as <-. injection Hi as <-. injection Hst as <-.
  split; [exact He|]. split; [exact Hp|]. split; [exact Hips|].
  pose proof (scan_qr_outcome idle_world c 1100
                (mkScanRequest (Some "other") (Some 1) (Some "10.0.0.5"))) as H'.
  assert (He' : ∃ c2, scan_qr idle_world c 1100
                        (mkScanRequest (Some "other") (Some 1) (Some "10.0.0.5"))
                      = (400, None, c2)) by (eexists; reflexivity).
  destruct He' as [c2 He']. rewrite He' in H'. destruct H' as [_ H'].
  destruct (H' ltac:(discriminate)) as [_ ->]. exact He'.
Defined.

(** X23.  A token is good for 300 seconds: a station that exists and scans it up
    to 300 seconds after it was issued is answered 200 with the user it
    was issued for; later the scan is answered 400 and changes nothing,
    and the poll of the client removes the token. *)
Theorem qr_token_window (w : World) (c : PairingCache) (token : string) (user_id : Z)
    (issued now : Q) (station_id : Z) (ip_address : string) (station : Station.t) :
  token ≠ "" → station_id ≠ 0 →
  stations w !! station_id = Some station →
  let c1 := issue_token c token user_id issued in
  let data := mkScanRequest (Some token) (Some station_id) (Some ip_address) in
  ((now <= issued + 300)%Q →
     fst (scan_qr w c1 now data) = (200, Some user_id) ∧
     fst (poll c1 token now) = PollWaiting) ∧
  ((issued + 300 < now)%Q →
     scan_qr w c1 now data = (400, None, c1) ∧
     fst (poll c1 token now) = PollExpired ∧
     qr_tokens (snd (poll c1 token now)) !! token = None).
Proof.
  intros Htok Hsid Hst c1 data.
  assert (Hreq : negb (truthy_str (req_qr_token data) && truthy_int (req_station_id data))
                 = false).
  { simpl. apply negb_false_iff, andb_true_iff. split; apply negb_true_iff.
    - by apply String.eqb_neq.
    - by apply Z.eqb_neq. }
  assert (Hqr : qr_tokens c1 !! token = Some (mkQrData user_id (issued + 300)%Q None)).
  { subst c1. simpl. apply lookup_insert_eq. }
  clearbody c1.
  split; intros Hnow.
  - assert (Hexp : Qltb (issued + 300) now = false).
    { unfold Qltb. apply negb_false_iff. by apply Qle_bool_iff. }
    unfold scan_qr, poll. rewrite Hreq. simpl. rewrite Hqr. simpl. rewrite Hexp.
    unfold StationService.get. by rewrite Hst.
  - apply Qltb_lt in Hnow.
    unfold scan_qr, poll. rewrite Hreq. simpl. rewrite Hqr. simpl. rewrite Hnow.
    split_and!; try done. simpl. apply lookup_delete_eq.
Qed.

Lemma qr_token_window_witness :
  let c1 := issue_token (mkPairingCache ∅ ∅) "tok" 7 1000 in
  let data := mkScanRequest (Some "tok") (Some 1) (Some "10.0.0.5") in
  fst (scan_qr idle_world c1 1200 data) = (200, Some 7) ∧
  scan_qr idle_world c1 1301 data = (400, None, c1).
Proof.
  intros c1 data.
  destruct (qr_token_window idle_world (mkPairingCache ∅ ∅) "tok" 7 1000 1200 1
              "10.0.0.5" (Station.mk 1 "active" 2)
              ltac:(discriminate) ltac:(discriminate) eq_refl) as [H1 _].
  destruct (qr_token_window idle_world (mkPairingCache ∅ ∅) "tok" 7 1000 1301 1
              "10.0.0.5" (Station.mk 1 "active" 2)
              ltac:(discriminate) ltac:(discriminate) eq_refl) as [_ H2].
  split.
  - apply H1. intros H. discriminate H.
  - apply H2. reflexivity.
Defined.

End Pairing.

(** ** Maintenance *)

Section Maintenance.
Import ChargingSessionsService.

(** X24.  No status that the station route accepts interrupts a charge: the
    route stores the status in lower case, and the availability check of
    the telemetry loop looks for [Maintenance].  A session on the station,
    whose port is there and not in maintenance, may continue after any
    accepted change of the status of the station, [maintenance]
    included. *)
Theorem station_status_never_interrupts (w : World) (station_id : Z)
    (status : option string) (w' : World) (session_id : Z) (session : ActiveSession.t)
    (port : Port.t) :
  update_station_status w station_id status = (200, w') →
  active_sessions w !! session_id = Some session →
  ActiveSession.station_id session = station_id →
  ports w !! ActiveSession.port_id session = Some port →
  Port.status port ≠ "Maintenance" →
  check_charging_availability w' session_id = (true, None).
Proof.
  unfold update_station_status.
  destruct status as [raw|]; [|intros [=]].
  destruct (bool_decide _) eqn:Hvalid; [|intros [=]].
  apply bool_decide_eq_true in Hvalid.
  unfold StationService.get, StationService.update_status.
  destruct (stations w !! station_id) as [station|] eqn:Hst; [|intros [=]].
  intros [= <-] Hs Hsid Hp Hport.
  unfold check_charging_availability, PortService.get, StationService.get. simpl.
  rewrite Hs, Hp. simpl.
  apply String.eqb_neq in Hport. rewrite Hport. simpl.
  rewrite Hsid, lookup_insert_eq. simpl.
  set (new_status := lower (strip raw)) in *.
  assert (String.eqb new_status "Maintenance" = false) as ->; [|done].
  apply String.eqb_neq. intros Heq. rewrite Heq in Hvalid.
  set_unfold. destruct Hvalid as [H|[H|[H|[]]]]; discriminate H.
Qed.

Lemma station_status_never_interrupts_witness :
  ∃ w',
    update_station_status (charging_world 10 None) 1 (Some " Maintenance ") = (200, w') ∧
    Station.status <$> stations w' !! 1 = Some "maintenance" ∧
    check_charging_availability w' 1 = (true, None).
Proof.
  assert (He : ∃ w', update_station_status (charging_world 10 None) 1
                       (Some " Maintenance ") = (200, w'))
    by (eexists; reflexivity).
  destruct He as [w' He]. exists w'. split; [exact He|].
  split.
  - assert (Hw : w' = snd (update_station_status (charging_world 10 None) 1
                             (Some " Maintenance "))) by (by rewrite He).
    rewrite Hw. reflexivity.
  - apply (station_status_never_interrupts (charging_world 10 None) 1
             (Some " Maintenance ") w' 1 (sample_session 10 None)
             (Port.mk 1 1 22 "Type2" "InUse") He eq_refl eq_refl eq_refl).
    discriminate.
Defined.

(** X25.  The port route, by contrast, stores [maintenance] capitalized, and a
    session on that port is interrupted at its next availability check,
    with the reason [port_maintenance]. *)
Theorem port_maintenance_interrupts (w : World) (port_id : Z) (raw : string) (w' : World)
    (session_id : Z) (session : ActiveSession.t) :
  lower raw = "maintenance" →
  update_port_status w port_id (Some raw) = (200, w') →
  active_sessions w !! session_id = Some session →
  ActiveSession.port_id session = port_id →
  check_charging_availability w' session_id = (false, Some "port_maintenance").
Proof.
  intros Hraw. unfold update_port_status. rewrite Hraw. simpl.
  unfold PortService.update_status.
  destruct (ports w !! port_id) as [port|] eqn:Hp; [|intros [=]].
  intros [= <-] Hs Hpid.
  unfold check_charging_availability, PortService.get. simpl.
  rewrite Hs, Hpid, lookup_insert_eq. done.
Qed.

Lemma port_maintenance_interrupts_witness :
  ∃ w',
    update_port_status (charging_world 10 None) 1 (Some "MAINTENANCE") = (200, w') ∧
    check_charging_availability w' 1 = (false, Some "port_maintenance").
Proof.
  assert (He : ∃ w', update_port_status (charging_world 10 None) 1
                       (Some "MAINTENANCE") = (200, w'))
    by (eexists; reflexivity).
  destruct He as [w' He]. exists w'. split; [exact He|].
  apply (port_maintenance_interrupts (charging_world 10 None) 1 "MAINTENANCE" w' 1
           (sample_session 10 None) eq_refl He eq_refl eq_refl).
Defined.

End Maintenance.

(** ** A connected charge comes to an end *)

Section Termination.
Import ChargingSessionsService.

Lemma tick_clean w sid session car l meter t :
  meter ≠ MeterBadBody →
  Qeq_bool (Car.battery_capacity car) 0 = false →
  ActiveSession.target_kwh session = Some t →
  ∃ w' l' trace x,
    tick w sid session car l meter true = (w', l', trace, x) ∧
    (x = Break ∨
     (x = Continue ∧
      Locals.current_kwh l' = (Locals.current_kwh l + 1)%Q ∧
      (Locals.current_kwh l + 1 < t - 0.01)%Q)).
Proof.
  intros Hm Hq Ht. unfold tick.
  destruct (check_charging_availability w sid) as [can r].
  destruct can; simpl.
  - destruct meter; [ | | |done]; rewrite Hq, Ht; simpl;
      (destruct (update_charging_status _ _ _ _ _ _) as [? w1];
       destruct (end_reason _ _ _ _) as [reason|] eqn:Hr;
       [ destruct (update_charging_status _ _ _ _ _ _) as [? w2];
         destruct (end_charging_session _ _ _ _ _ _) as [ok w3];
         eexists _, _, _, _; split; [reflexivity|by left]
       | eexists _, _, _, _; split; [reflexivity|]; right;
         apply end_reason_none in Hr as (_ & _ & Hr); done ]).
  - destruct (bool_decide _); [eexists _, _, _, _; split; [reflexivity|by left]|].
    destruct (end_charging_session _ _ _ _ _ _) as [ok w1].
    eexists _, _, _, _; split; [reflexivity|by left].
Qed.

Lemma inject_succ (n : nat) :
  (inject_Z (Z.of_nat (S n)) == 1 + inject_Z (Z.of_nat n))%Q.
Proof. rewrite Nat2Z.inj_succ, <- Z.add_1_l, inject_Z_plus. reflexivity. Qed.

Lemma loop_breaks session car t schedule : ∀ w sid l,
  Qeq_bool (Car.battery_capacity car) 0 = false →
  ActiveSession.target_kwh session = Some t →
  Forall clean_step schedule →
  (1 <= ticks schedule)%nat →
  (t - 0.01 <= Locals.current_kwh l + inject_Z (Z.of_nat (ticks schedule)))%Q →
  ∃ w' l' trace, loop w sid session car l schedule = (w', l', trace, Break).
Proof.
  induction schedule as [|[meter peer|r] schedule IH]; intros w sid l Hq Ht Hclean Hn Hb;
    simpl in *.
  - lia.
  - apply Forall_cons in Hclean as [[-> Hm] Hclean].
    destruct (tick_clean w sid session car l meter t Hm Hq Ht)
      as (w1 & l1 & t1 & x1 & Htick & [->|(-> & Hk & Hlt)]); rewrite Htick.
    + by eexists _, _, _.
    + destruct (ticks schedule) as [|n] eqn:Hticks.
      { exfalso. change (inject_Z (Z.of_nat 1)) with 1%Q in Hb. lra. }
      destruct (IH w1 sid l1 Hq Ht Hclean) as (w2 & l2 & t2 & Hl); [lia| |].
      * rewrite Hk. rewrite (inject_succ (S n)) in Hb. lra.
      * rewrite Hl. by eexists _, _, _.
  - apply Forall_cons in Hclean as [_ Hclean]. by apply IH.
Qed.

(** X26.  A charge whose client stays connected comes to an end: if the car has
    a capacity, the session a target, and no tick of the schedule loses
    the client or crashes on the answer of the meter, then with at least
    as many ticks as the target has kWh (and one at least) the loop ends
    by a [break], that is, by a completion, an interruption or because
    the session was settled meanwhile, and not because the schedule ran
    out. *)
Theorem connected_charge_ends (w : World) (session_id : Z) (session : ActiveSession.t)
    (car : Car.t) (t : Q) (schedule : list Step) :
  ¬ (Car.battery_capacity car == 0)%Q →
  ActiveSession.target_kwh session = Some t →
  Forall clean_step schedule →
  (1 <= ticks schedule)%nat →
  (t <= inject_Z (Z.of_nat (ticks schedule)))%Q →
  ∃ w' l' trace,
    loop w session_id session car (initial_locals session car) schedule =
      (w', l', trace, Break).
Proof.
  intros Hcap Ht Hclean Hn Hb.
  apply loop_breaks with (t := t); try done.
  - destruct (Qeq_bool _ _) eqn:E; [|done]. by apply Qeq_bool_iff in E.
  - simpl. lra.
Qed.

Lemma connected_charge_ends_witness :
  let schedule :=
    [Tick (MeterOk 1) true; Tick MeterRequestException true;
     Meanwhile (ExtPortStatus 2 "Faulty"); Tick (MeterOk 1) true] in
  ∃ w' l' trace,
    loop (charging_world 2.5 None) 1 (sample_session 2.5 None) (Car.mk 3 50 11)
      (initial_locals (sample_session 2.5 None) (Car.mk 3 50 11)) schedule =
      (w', l', trace, Break).
Proof.
  intros schedule.
  apply (connected_charge_ends (charging_world 2.5 None) 1 (sample_session 2.5 None)
           (Car.mk 3 50 11) 2.5 schedule).
  - intros H. discriminate H.
  - reflexivity.
  - repeat constructor; discriminate.
  - simpl. lia.
  - intros H. discriminate H.
Defined.

End Termination.

(** ** The cleanup of the socket *)

Section Cleanup.
Import ChargingSessionsService.

(** X27.  Take any run of [charging_socket] that gets to its [try] block (the
    session is registered, belongs to the caller and has its car) and any
    schedule; the [try] block ends by a [break], by an exception or
    because the connection was found closed.  If the session is then no
    longer in the registry, the [finally] block changes nothing and makes
    no settlement.  If it is still there (with any status but [stopped]
    and [completed], which no code writes), the [finally] block calls
    [end_charging_session] once, with reason [connection_lost], and that
    is the only settlement with this reason in the whole run; when the
    call succeeds the session is gone from the registry and the port of
    its row (a port stored under its own id) is [Available]; when it
    fails the session stays registered and ports and rows are as they
    were. *)
Theorem socket_cleanup_settles_once (w : World) (user_id session_id : Z)
    (schedule : list Step) (session : ActiveSession.t) (car_id : Z) (car : Car.t) :
  get_session_status w session_id = Some session →
  ActiveSession.user_id session = user_id →
  ActiveSession.car_id session = Some car_id →
  cars w !! car_id = Some car →
  ∃ w1 l1 trace x,
    try_block w session_id session car (initial_locals session car) schedule =
      (w1, l1, trace, x) ∧
    match active_sessions w1 !! session_id with
    | None =>
        charging_socket w (ValidToken user_id) session_id schedule =
          (w1, trace ++ except_handler session_id l1 x) ∧
        settlements session_id "connection_lost"
          (snd (charging_socket w (ValidToken user_id) session_id schedule)) = O
    | Some s =>
        ActiveSession.charging_status s ∉ ["stopped"; "completed"] →
        ∃ ok w2,
          charging_socket w (ValidToken user_id) session_id schedule =
            (w2, trace ++ except_handler session_id l1 x ++
                 [Settlement session_id (Locals.current_kwh l1) (Locals.current_cost l1)
                    "connection_lost" ok]) ∧
          settlements session_id "connection_lost"
            (snd (charging_socket w (ValidToken user_id) session_id schedule)) = 1%nat ∧
          (ok = true →
             active_sessions w2 !! session_id = None ∧
             ∀ row port,
               charging_sessions w1 !! session_id = Some row →
               ports w1 !! ChargingSession.port_id row = Some port →
               Port.id port = ChargingSession.port_id row →
               ports w2 !! ChargingSession.port_id row =
                 Some (Port.with_status "Available" port)) ∧
          (ok = false →
             is_Some (active_sessions w2 !! session_id) ∧
             ports w2 = ports w1 ∧ charging_sessions w2 = charging_sessions w1)
    end.
Proof.
  intros Hs Hu Hcar Hc.
  destruct (try_block w session_id session car (initial_locals session car) schedule)
    as [[[w1 l1] trace] x] eqn:Htry.
  exists w1, l1, trace, x. split; [done|].
  pose proof (try_block_no_connection_lost _ _ _ _ _ _ _ _ _ _ Htry) as Htrace.
  pose proof (charging_socket_unfold _ _ _ _ _ _ _ _ _ _ _ Hs Hu Hcar Hc Htry) as Hsock.
  destruct (active_sessions w1 !! session_id) as [s|] eqn:Hs1.
  - intros Hst.
    destruct (cleanup_registered w1 session_id l1 s Hs1 Hst) as (ok & w2 & Hcl & Hok & Hko).
    exists ok, w2. rewrite Hsock, Hcl. split; [done|]. split; [|done].
    simpl. rewrite app_assoc, settlements_app, Htrace.
    unfold settlements. simpl. by rewrite Z.eqb_refl.
  - rewrite Hsock. unfold cleanup, get_session_status. rewrite Hs1.
    rewrite app_nil_r. done.
Qed.

(** A charge without discount: one tick goes through, the client is gone
    when the second tick sends its update, and the cleanup settles session
    1 and frees port 1. *)
Lemma socket_cleanup_settles_once_witness :
  get_session_status (charging_world 10 None) 1 = Some (sample_session 10 None) ∧
  cars (charging_world 10 None) !! 3 = Some (Car.mk 3 50 11) ∧
  ∃ w2 trace energy cost,
    charging_socket (charging_world 10 None) (ValidToken 7) 1
      [Tick (MeterOk 1) true; Tick (MeterOk 1) false] =
      (w2, trace ++ [Settlement 1 energy cost "connection_lost" true]) ∧
    active_sessions w2 !! 1 = None ∧
    ports w2 !! 1 = Some (Port.mk 1 1 22 "Type2" "Available").
Proof.
  assert (H1 : get_session_status (charging_world 10 None) 1 =
                 Some (sample_session 10 None)) by reflexivity.
  assert (H2 : cars (charging_world 10 None) !! 3 = Some (Car.mk 3 50 11)) by reflexivity.
  split; [exact H1|]. split; [exact H2|].
  destruct (socket_cleanup_settles_once (charging_world 10 None) 7 1
              [Tick (MeterOk 1) true; Tick (MeterOk 1) false]
              (sample_session 10 None) 3 (Car.mk 3 50 11) H1 eq_refl eq_refl H2)
    as (w1 & l1 & trace & x & Htry & H).
  assert (Hw : w1 = fst (fst (fst (try_block (charging_world 10 None) 1
                 (sample_session 10 None) (Car.mk 3 50 11)
                 (initial_locals (sample_session 10 None) (Car.mk 3 50 11))
                 [Tick (MeterOk 1) true; Tick (MeterOk 1) false]))))
    by (by rewrite Htry).
  assert (Ha : ActiveSession.charging_status <$> active_sessions w1 !! 1 = Some "active")
    by (rewrite Hw; reflexivity).
  assert (Hrow : charging_sessions w1 !! 1 =
                   Some (ChargingSession.mk 1 7 1 (Some 3) (Some 1750000000000) None None
                           (Some 11%Q) None))
    by (rewrite Hw; reflexivity).
  assert (Hport : ports w1 !! 1 = Some (Port.mk 1 1 22 "Type2" "InUse"))
    by (rewrite Hw; reflexivity).
  destruct (active_sessions w1 !! 1) as [s|]; [|discriminate Ha].
  injection Ha as Ha.
  destruct H as (ok & w2 & Hsock & _ & Hok & _).
  { rewrite Ha. intros [?|[?|[]%elem_of_nil]%elem_of_cons]%elem_of_cons; discriminate. }
  assert (Hlast : last (snd (charging_socket (charging_world 10 None) (ValidToken 7) 1
                               [Tick (MeterOk 1) true; Tick (MeterOk 1) false])) =
                  Some (Settlement 1 (0 + 1 + 1) (0 + 1 * 2 + 1 * 2) "connection_lost" true))
    by reflexivity.
  rewrite Hsock in Hlast. simpl in Hlast. rewrite app_assoc, last_snoc in Hlast.
  injection Hlast as _ _ ->.
  destruct (Hok eq_refl) as [Hgone Hfree].
  eexists w2, _, _, _. split; [rewrite Hsock; rewrite app_assoc; reflexivity|].
  split; [exact Hgone|].
  apply (Hfree _ _ Hrow Hport eq_refl).
Defined.

End Cleanup.

(** ** Payments that the database refuses *)

Section Refused.
Import ChargingSessionsService.

(** X28.  The payment step fails, and the settlement with it, when the
    transaction cannot be written: the database checks foreign keys and
    the user, the station or the car of the session is missing.  The
    settlement then returns [False] and has written neither a
    transaction nor a user, a session row, a port or the registry; the
    session stays registered as it was. *)
Theorem settlement_fails_on_missing_reference (w : World) (session_id : Z)
    (final_energy final_cost : Q) (reason code : option string)
    (session : ActiveSession.t) (car : Z) :
  active_sessions w !! session_id = Some session →
  ActiveSession.car_id session = Some car →
  foreign_keys w = true →
  referenced_rows_exist w (ActiveSession.user_id session)
    (ActiveSession.station_id session) car = false →
  ∃ w',
    end_charging_session w session_id final_energy final_cost reason code = (false, w') ∧
    active_sessions w' = active_sessions w ∧
    charging_sessions w' = charging_sessions w ∧
    ports w' = ports w ∧ users w' = users w ∧ transactions w' = transactions w.
Proof.
  intros Hs Hcar Hfk Href.
  destruct (process_payment_cases w session_id final_cost (settlement_code session code)
              session car Hs Hcar) as [(_ & _ & Hp)|(c & w1 & Hst & Hp)].
  - by eapply end_charging_session_payment_failed.
  - assert (foreign_keys w1 = true ∧
            referenced_rows_exist w1 (ActiveSession.user_id session)
              (ActiveSession.station_id session) car = false) as [Hfk1 Href1].
    { destruct Hst as [(_ & _ & ->)|(_ & a & m & st & Hd & _)]; [done|].
      pose proof (apply_discount_foreign_keys _ _ _ _ _ _ _ Hd) as ->.
      apply apply_discount_frame in Hd as (_ & Hst & Hus & Hca & _).
      unfold referenced_rows_exist in *. by rewrite Hst, Hus, Hca. }
    unfold TransactionService.create_transaction in Hp.
    rewrite Hfk1, Href1 in Hp. simpl in Hp.
    by eapply end_charging_session_payment_failed.
Qed.

(** Car 3 has been deleted while session 1 was charging: under SQLite the
    settlement fails, and fails again when it is tried again. *)
Lemma settlement_fails_on_missing_reference_witness :
  cars carless_world !! 3 = None ∧
  ∃ w',
    end_charging_session carless_world 1 10 20 (Some "user_stopped") None = (false, w') ∧
    active_sessions w' = active_sessions carless_world ∧
    transactions w' = [] ∧
    end_charging_session w' 1 10 20 (Some "user_stopped") None = (false, w').
Proof.
  split; [reflexivity|].
  destruct (settlement_fails_on_missing_reference carless_world 1 10 20
              (Some "user_stopped") None (sample_session 10 None) 3
              eq_refl eq_refl eq_refl eq_refl)
    as (w' & He & Ha & _ & _ & _ & Ht).
  exists w'. split; [exact He|]. split; [exact Ha|]. split; [exact Ht|].
  assert (Hw : w' = snd (end_charging_session carless_world 1 10 20
                           (Some "user_stopped") None))
    by (by rewrite He).
  rewrite Hw. reflexivity.
Defined.

End Refused.
